(** * NeuroSegmentParcellation: query interpreter and relative seed solver

    A shallow embedding of
    [NeuroSegmentParcellationLibs/NeuroSegmentParcellationVisitor.py] and of
    the seed-placement and query-loading parts of
    [NeuroSegmentParcellationLibs/NeuroSegmentParcellationLogic.py].

    - Coordinates are Python floats in the source.  The numeric kernels are
      written once over an interface of scalar operations ([Scalar]) and
      instantiated twice: with exact rationals ([Q]), over which the
      algebraic statements are proved, and with IEEE binary64 ([float]),
      over which the worked examples are re-evaluated.
    - The MRML scene of the host application is an ordered list of nodes;
      a node carries its attributes, its node references (role, id), its
      control points and the geometry the host derives from them.  A new
      node gets its name from the host, which makes the requested base
      name unique in the scene (X, X_1, X_2, ...).
    - Python exceptions are values of [pyexc]; a visitor method is a state
      transformer that either returns or raises, and the state reached at
      a raise is kept (nothing is rolled back). *)

From Stdlib Require Import QArith Qabs Lqa ZArith Floats Uint63 Bool.
From Stdlib Require Import DecimalString DecimalNat.
From stdpp Require Import base list strings.

Set Warnings "-register-all".

Local Open Scope string_scope.

(** ** Scalars *)

Class Scalar (T : Type) := {
  s_of_Z : Z -> T;
  s_add : T -> T -> T;
  s_sub : T -> T -> T;
  s_mul : T -> T -> T;
  s_div : T -> T -> T;
  s_abs : T -> T;
  s_ltb : T -> T -> bool;
  (* vtk.VTK_DOUBLE_MAX, which VTK defines as 1.0e+299 *)
  s_double_max : T;
}.

Definition Qltb (x y : Q) : bool := negb (Qle_bool y x).

#[export] Instance Scalar_Q : Scalar Q := {|
  s_of_Z := inject_Z;
  s_add := Qplus;
  s_sub := Qminus;
  s_mul := Qmult;
  s_div := Qdiv;
  s_abs := Qabs;
  s_ltb := Qltb;
  (* the value of the binary64 number 1.0e+299 *)
  s_double_max := inject_Z (336243654762363 * 2 ^ 945);
|}.

Definition float_of_Z (z : Z) : float :=
  if (z <? 0)%Z
  then PrimFloat.opp (PrimFloat.of_uint63 (Uint63.of_Z (- z)))
  else PrimFloat.of_uint63 (Uint63.of_Z z).

Definition Scalar_binary64 : Scalar float := {|
  s_of_Z := float_of_Z;
  s_add := PrimFloat.add;
  s_sub := PrimFloat.sub;
  s_mul := PrimFloat.mul;
  s_div := PrimFloat.div;
  s_abs := PrimFloat.abs;
  s_ltb := PrimFloat.ltb;
  s_double_max := 0x1.31cfd3999f7b0p+993%float;
|}.

(** ** Three-component vectors and the [vtkMath] helpers *)

Record vec3 (T : Type) := Vec3 { c0 : T; c1 : T; c2 : T }.
Arguments Vec3 {T} _ _ _.
Arguments c0 {T} _.
Arguments c1 {T} _.
Arguments c2 {T} _.

(** [v[i]] and [v[i] = x] for [i] in 0..2. *)
Definition vget {T} (v : vec3 T) (i : Z) : T :=
  if (i =? 0)%Z then c0 v else if (i =? 1)%Z then c1 v else c2 v.

Definition vset {T} (v : vec3 T) (i : Z) (x : T) : vec3 T :=
  if (i =? 0)%Z then Vec3 x (c1 v) (c2 v)
  else if (i =? 1)%Z then Vec3 (c0 v) x (c2 v)
  else Vec3 (c0 v) (c1 v) x.

Section Kernel.
Context {T : Type} `{Scalar T}.

Definition vzero : vec3 T := Vec3 (s_of_Z 0) (s_of_Z 0) (s_of_Z 0).

(* vtk.vtkMath.Add(a, b, c): c = a + b *)
Definition vtkMath_Add (a b : vec3 T) : vec3 T :=
  Vec3 (s_add (c0 a) (c0 b)) (s_add (c1 a) (c1 b)) (s_add (c2 a) (c2 b)).

(* vtk.vtkMath.Subtract(a, b, c): c = a - b *)
Definition vtkMath_Subtract (a b : vec3 T) : vec3 T :=
  Vec3 (s_sub (c0 a) (c0 b)) (s_sub (c1 a) (c1 b)) (s_sub (c2 a) (c2 b)).

(* vtk.vtkMath.MultiplyScalar(a, s): a = a * s *)
Definition vtkMath_MultiplyScalar (a : vec3 T) (s : T) : vec3 T :=
  Vec3 (s_mul (c0 a) s) (s_mul (c1 a) s) (s_mul (c2 a) s).

Definition vtkMath_Dot (a b : vec3 T) : T :=
  s_add (s_add (s_mul (c0 a) (c0 b)) (s_mul (c1 a) (c1 b)))
        (s_mul (c2 a) (c2 b)).

Definition vtkMath_Distance2BetweenPoints (a b : vec3 T) : T :=
  s_add (s_add (s_mul (s_sub (c0 a) (c0 b)) (s_sub (c0 a) (c0 b)))
               (s_mul (s_sub (c1 a) (c1 b)) (s_sub (c1 a) (c1 b))))
        (s_mul (s_sub (c2 a) (c2 b)) (s_sub (c2 a) (c2 b))).

(* VTK_TOL = 1.e-5 *)
Definition VTK_TOL : T := s_div (s_of_Z 1) (s_of_Z 100000).

(** [vtkLine::DistanceToLine(x, p1, p2, t, closestPoint)], the
    five-argument form the source calls: the closest point is clamped
    to the finite line [p1,p2] and the squared distance from [x] to it
    is returned.  The result is (distance squared, closest point).  The
    source calls it with [p2] at distance 10000 from [p1]. *)
Definition vtkLine_DistanceToLine (x p1 p2 : vec3 T) : T * vec3 T :=
  let p21 := vtkMath_Subtract p2 p1 in
  let num := vtkMath_Dot p21 (vtkMath_Subtract x p1) in
  let denom := vtkMath_Dot p21 p21 in
  let tolerance := s_mul VTK_TOL num in
  let tolerance :=
    if s_ltb tolerance (s_of_Z 0) then s_sub (s_of_Z 0) tolerance
    else tolerance in
  let closest :=
    if s_ltb denom tolerance then p1
    else
      let t := s_div num denom in
      if s_ltb t (s_of_Z 0) then p1
      else if s_ltb (s_of_Z 1) t then p2
      else vtkMath_Add p1 (vtkMath_MultiplyScalar p21 t) in
  (vtkMath_Distance2BetweenPoints closest x, closest).

End Kernel.

(** ** Relative roles (class constants of the logic) *)

Definition ANTERIOR_OF_RELATIVE_ROLE : string := "anterior_of".
Definition POSTERIOR_OF_RELATIVE_ROLE : string := "posterior_of".
Definition SUPERIOR_OF_RELATIVE_ROLE : string := "superior_of".
Definition INFERIOR_OF_RELATIVE_ROLE : string := "inferior_of".
Definition MEDIAL_OF_RELATIVE_ROLE : string := "medial_of".
Definition LATERAL_OF_RELATIVE_ROLE : string := "lateral_of".

Definition RELATIVE_SEED_ROLES : list string :=
  [ ANTERIOR_OF_RELATIVE_ROLE; POSTERIOR_OF_RELATIVE_ROLE;
    SUPERIOR_OF_RELATIVE_ROLE; INFERIOR_OF_RELATIVE_ROLE;
    MEDIAL_OF_RELATIVE_ROLE; LATERAL_OF_RELATIVE_ROLE ].

Definition RELATIVE_NODE_REFERENCE : string := "Relative".

Section SeedKernel.
Context {T : Type} `{Scalar T}.

(** *** initializeSeedNode, the arithmetic (lines 1181-1203) *)

(* for i in range(numberOfPoints): point *= inverseNumberOfPoints;
   averagePoint = point + averagePoint *)
Fixpoint averagePointLoop (points : list (vec3 T))
    (inverseNumberOfPoints : T) (averagePoint : vec3 T) : vec3 T :=
  match points with
  | [] => averagePoint
  | point :: rest =>
      averagePointLoop rest inverseNumberOfPoints
        (vtkMath_Add (vtkMath_MultiplyScalar point inverseNumberOfPoints)
                     averagePoint)
  end.

(* for relativeNode in relativeNodes: ...; a relative node is given by
   the list of its control point positions *)
Fixpoint seedPointLoop (relativeNodes : list (list (vec3 T)))
    (inverseNumberOfRelativeNodes : T) (seedPoint : vec3 T) : vec3 T :=
  match relativeNodes with
  | [] => seedPoint
  | controlPoints :: rest =>
      let numberOfPoints := length controlPoints in
      if Nat.eqb numberOfPoints 0
      then seedPointLoop rest inverseNumberOfRelativeNodes seedPoint
      else
        let inverseNumberOfPoints :=
          s_div (s_of_Z 1) (s_of_Z (Z.of_nat numberOfPoints)) in
        let averagePoint :=
          averagePointLoop controlPoints inverseNumberOfPoints vzero in
        let averagePoint :=
          vtkMath_MultiplyScalar averagePoint inverseNumberOfRelativeNodes in
        seedPointLoop rest inverseNumberOfRelativeNodes
          (vtkMath_Add averagePoint seedPoint)
  end.

(** The point [initializeSeedNode] adds, or [None] when it returns
    early because the seed has no relative node. *)
Definition initialSeedPoint (relativeNodes : list (list (vec3 T)))
    : option (vec3 T) :=
  let numberOfRelativeNodes := length relativeNodes in
  if Nat.eqb numberOfRelativeNodes 0 then None
  else
    let inverseNumberOfRelativeNodes :=
      s_div (s_of_Z 1) (s_of_Z (Z.of_nat numberOfRelativeNodes)) in
    Some (seedPointLoop relativeNodes inverseNumberOfRelativeNodes vzero).

(** *** getClosestPointOnCurveAlongLine (lines 1245-1289) *)

Definition directionVector (seedPoint : vec3 T) (relativeRole : string)
    : option (vec3 T) :=
  let neg := s_ltb (c0 seedPoint) (s_of_Z 0) in
  let lateralDirection :=
    Vec3 (if neg then s_of_Z (-1) else s_of_Z 1) (s_of_Z 0) (s_of_Z 0) in
  let medialDirection :=
    Vec3 (if neg then s_of_Z 1 else s_of_Z (-1)) (s_of_Z 0) (s_of_Z 0) in
  let anteriorDirection := Vec3 (s_of_Z 0) (s_of_Z 1) (s_of_Z 0) in
  let posteriorDirection := Vec3 (s_of_Z 0) (s_of_Z (-1)) (s_of_Z 0) in
  let superiorDirection := Vec3 (s_of_Z 0) (s_of_Z 0) (s_of_Z 1) in
  let inferiorDirection := Vec3 (s_of_Z 0) (s_of_Z 0) (s_of_Z (-1)) in
  if String.eqb relativeRole LATERAL_OF_RELATIVE_ROLE
  then Some medialDirection
  else if String.eqb relativeRole MEDIAL_OF_RELATIVE_ROLE
  then Some lateralDirection
  else if String.eqb relativeRole ANTERIOR_OF_RELATIVE_ROLE
  then Some posteriorDirection
  else if String.eqb relativeRole POSTERIOR_OF_RELATIVE_ROLE
  then Some anteriorDirection
  else if String.eqb relativeRole SUPERIOR_OF_RELATIVE_ROLE
  then Some inferiorDirection
  else if String.eqb relativeRole INFERIOR_OF_RELATIVE_ROLE
  then Some superiorDirection
  else None.

Definition seedLineEnd (seedPoint direction : vec3 T) : vec3 T :=
  vtkMath_Add seedPoint (vtkMath_MultiplyScalar direction (s_of_Z 10000)).

(* for i in range(curvePoints.GetNumberOfPoints()): ... ; the loop state
   is (minimumDistance, closestPoint) *)
Fixpoint closestPointLoop (curvePoints : list (vec3 T))
    (seedPoint lineEnd : vec3 T) (minimumDistance : T)
    (closestPoint : vec3 T) : T * vec3 T :=
  match curvePoints with
  | [] => (minimumDistance, closestPoint)
  | curvePoint :: rest =>
      let '(distance, pointOnLine) :=
        vtkLine_DistanceToLine curvePoint seedPoint lineEnd in
      if s_ltb distance minimumDistance
      then closestPointLoop rest seedPoint lineEnd distance pointOnLine
      else closestPointLoop rest seedPoint lineEnd minimumDistance
             closestPoint
  end.

(** [closestPoint] is the caller's in/out argument; [curvePoints] are
    the points of [curveNode.GetCurve()]. *)
Definition getClosestPointOnCurveAlongLine (seedPoint : vec3 T)
    (curvePoints : list (vec3 T)) (relativeRole : string)
    (closestPoint : vec3 T) : vec3 T :=
  match directionVector seedPoint relativeRole with
  | None => closestPoint
  | Some direction =>
      snd (closestPointLoop curvePoints seedPoint
             (seedLineEnd seedPoint direction) s_double_max closestPoint)
  end.

(** *** updateRelativeSeedPosition, one control point (lines 1223-1243) *)

Definition invalidAxis (relativeRole : string)
    (seedPoint closestPoint differenceVector : vec3 T) : Z :=
  let invalidAxis := (-1)%Z in
  let invalidAxis :=
    if String.eqb relativeRole LATERAL_OF_RELATIVE_ROLE
       && s_ltb (s_abs (c0 seedPoint)) (s_abs (c0 closestPoint))
    then 0%Z
    else if String.eqb relativeRole MEDIAL_OF_RELATIVE_ROLE
            && s_ltb (s_abs (c0 closestPoint)) (s_abs (c0 seedPoint))
    then 0%Z
    else invalidAxis in
  if String.eqb relativeRole ANTERIOR_OF_RELATIVE_ROLE
     && s_ltb (c1 differenceVector) (s_of_Z 0)
  then 1%Z
  else if String.eqb relativeRole POSTERIOR_OF_RELATIVE_ROLE
          && s_ltb (s_of_Z 0) (c1 differenceVector)
  then 1%Z
  else if String.eqb relativeRole SUPERIOR_OF_RELATIVE_ROLE
          && s_ltb (c2 differenceVector) (s_of_Z 0)
  then 2%Z
  else if String.eqb relativeRole INFERIOR_OF_RELATIVE_ROLE
          && s_ltb (s_of_Z 0) (c2 differenceVector)
  then 2%Z
  else invalidAxis.

(** The position written back by [SetNthControlPointPosition], or [None]
    when the iteration hits [continue]. *)
Definition correctedSeedPoint (relativeRole : string)
    (seedPoint closestPoint : vec3 T) : option (vec3 T) :=
  let differenceVector := vtkMath_Subtract seedPoint closestPoint in
  let axis := invalidAxis relativeRole seedPoint closestPoint
                differenceVector in
  if (axis <? 0)%Z then None
  else Some (vset seedPoint axis
               (s_sub (vget closestPoint axis) (vget differenceVector axis))).

(** *** Host geometry used by the solver *)

(** [vtkMRMLMarkupsPlaneNode::GetClosestPointOnPlaneWorld] with its
    default [infinitePlane=true]: the orthogonal projection of the
    position onto the plane through [origin] with normal [normal]. *)
Definition GetClosestPointOnPlaneWorld (origin normal pos : vec3 T)
    : vec3 T :=
  let d := s_div (vtkMath_Dot (vtkMath_Subtract pos origin) normal)
                 (vtkMath_Dot normal normal) in
  vtkMath_Subtract pos (vtkMath_MultiplyScalar normal d).

(** [locator.FindClosestPoint(p)] followed by [dataSet.GetPoint(id, p)]:
    the first point of the data set at least squared distance.  On an
    empty data set the position is left as it is. *)
Fixpoint closestDataSetPoint (points : list (vec3 T)) (p best : vec3 T)
    : vec3 T :=
  match points with
  | [] => best
  | q :: rest =>
      if s_ltb (vtkMath_Distance2BetweenPoints q p)
               (vtkMath_Distance2BetweenPoints best p)
      then closestDataSetPoint rest p q
      else closestDataSetPoint rest p best
  end.

Definition FindClosestPoint (dataSet : list (vec3 T)) (p : vec3 T)
    : vec3 T :=
  match dataSet with
  | [] => p
  | q :: rest => closestDataSetPoint rest p q
  end.

End SeedKernel.

Abbreviation point := (vec3 Q).

(** ** Query scripts

    The script text is handed to Python's [ast.parse]; the visitor sees
    the resulting tree.  A node class for which the visitor defines no
    [visit_] method is walked by [ast.NodeVisitor.generic_visit], which
    visits the child nodes and returns [None]; [ast_Other] stands for
    every such class not listed by name. *)

Inductive ast :=
| ast_Module (body : list ast)
| ast_Assign (targets : list ast) (value : ast) (lineno : nat)
| ast_Expr (value : ast)
| ast_Name (id : string)
| ast_Str (s : string)
| ast_List (elts : list ast)
| ast_BinOp (left : ast) (right : ast)
| ast_UnaryOp (operand : ast)
| ast_Call (func : ast) (args : list ast) (lineno : nat)
| ast_Other (children : list ast).

(** The text of a text node or of a query file, as [ast.parse] reads it:
    the statements of the module, or a syntax error at a line. *)
Inductive script :=
| Parsed (body : list ast)
| Unparsable (lineno : nat).

(** ** The MRML scene *)

Record polyData := PolyData {
  pdPoints : list point;
  pdPointArrays : list string;
  pdCellArrays : list string;
}.

Record displayNode := DisplayNode {
  visibility : bool;
  glyphScale : option Q;          (* None: the host default *)
  handlesInteractive : bool;
}.

Record mrmlNode := MrmlNode {
  nodeID : nat;
  className : string;
  nodeName : string;
  attributes : list (string * string);
  references : list (string * nat);       (* (role, referenced node ID) *)
  controlPoints : list point;
  curvePoints : list point;               (* GetCurve().GetPoints() *)
  planeOrigin : point;
  planeNormal : point;
  modelPolyData : option polyData;
  display : option displayNode;
  curveType : string;
  toolName : string;
  continuousUpdate : bool;
  text : script;
}.

Definition newNode (id : nat) (cls name : string) : mrmlNode :=
  {| nodeID := id; className := cls; nodeName := name;
     attributes := []; references := [];
     controlPoints := []; curvePoints := [];
     planeOrigin := vzero; planeNormal := vzero;
     modelPolyData := None; display := None;
     curveType := ""; toolName := ""; continuousUpdate := true;
     text := Parsed [] |}.

Definition set_attributes (v : list (string * string)) (n : mrmlNode) :=
  {| nodeID := nodeID n; className := className n; nodeName := nodeName n;
     attributes := v; references := references n;
     controlPoints := controlPoints n; curvePoints := curvePoints n;
     planeOrigin := planeOrigin n; planeNormal := planeNormal n;
     modelPolyData := modelPolyData n; display := display n;
     curveType := curveType n; toolName := toolName n;
     continuousUpdate := continuousUpdate n; text := text n |}.

Definition set_references (v : list (string * nat)) (n : mrmlNode) :=
  {| nodeID := nodeID n; className := className n; nodeName := nodeName n;
     attributes := attributes n; references := v;
     controlPoints := controlPoints n; curvePoints := curvePoints n;
     planeOrigin := planeOrigin n; planeNormal := planeNormal n;
     modelPolyData := modelPolyData n; display := display n;
     curveType := curveType n; toolName := toolName n;
     continuousUpdate := continuousUpdate n; text := text n |}.

Definition set_controlPoints (v : list point) (n : mrmlNode) :=
  {| nodeID := nodeID n; className := className n; nodeName := nodeName n;
     attributes := attributes n; references := references n;
     controlPoints := v; curvePoints := curvePoints n;
     planeOrigin := planeOrigin n; planeNormal := planeNormal n;
     modelPolyData := modelPolyData n; display := display n;
     curveType := curveType n; toolName := toolName n;
     continuousUpdate := continuousUpdate n; text := text n |}.

Definition set_modelPolyData (v : option polyData) (n : mrmlNode) :=
  {| nodeID := nodeID n; className := className n; nodeName := nodeName n;
     attributes := attributes n; references := references n;
     controlPoints := controlPoints n; curvePoints := curvePoints n;
     planeOrigin := planeOrigin n; planeNormal := planeNormal n;
     modelPolyData := v; display := display n;
     curveType := curveType n; toolName := toolName n;
     continuousUpdate := continuousUpdate n; text := text n |}.

Definition set_display (v : option displayNode) (n : mrmlNode) :=
  {| nodeID := nodeID n; className := className n; nodeName := nodeName n;
     attributes := attributes n; references := references n;
     controlPoints := controlPoints n; curvePoints := curvePoints n;
     planeOrigin := planeOrigin n; planeNormal := planeNormal n;
     modelPolyData := modelPolyData n; display := v;
     curveType := curveType n; toolName := toolName n;
     continuousUpdate := continuousUpdate n; text := text n |}.

Definition set_curveType (v : string) (n : mrmlNode) :=
  {| nodeID := nodeID n; className := className n; nodeName := nodeName n;
     attributes := attributes n; references := references n;
     controlPoints := controlPoints n; curvePoints := curvePoints n;
     planeOrigin := planeOrigin n; planeNormal := planeNormal n;
     modelPolyData := modelPolyData n; display := display n;
     curveType := v; toolName := toolName n;
     continuousUpdate := continuousUpdate n; text := text n |}.

Definition set_toolName (v : string) (n : mrmlNode) :=
  {| nodeID := nodeID n; className := className n; nodeName := nodeName n;
     attributes := attributes n; references := references n;
     controlPoints := controlPoints n; curvePoints := curvePoints n;
     planeOrigin := planeOrigin n; planeNormal := planeNormal n;
     modelPolyData := modelPolyData n; display := display n;
     curveType := curveType n; toolName := v;
     continuousUpdate := continuousUpdate n; text := text n |}.

Definition set_continuousUpdate (v : bool) (n : mrmlNode) :=
  {| nodeID := nodeID n; className := className n; nodeName := nodeName n;
     attributes := attributes n; references := references n;
     controlPoints := controlPoints n; curvePoints := curvePoints n;
     planeOrigin := planeOrigin n; planeNormal := planeNormal n;
     modelPolyData := modelPolyData n; display := display n;
     curveType := curveType n; toolName := toolName n;
     continuousUpdate := v; text := text n |}.

Definition set_text (v : script) (n : mrmlNode) :=
  {| nodeID := nodeID n; className := className n; nodeName := nodeName n;
     attributes := attributes n; references := references n;
     controlPoints := controlPoints n; curvePoints := curvePoints n;
     planeOrigin := planeOrigin n; planeNormal := planeNormal n;
     modelPolyData := modelPolyData n; display := display n;
     curveType := curveType n; toolName := toolName n;
     continuousUpdate := continuousUpdate n; text := v |}.

(** *** Class hierarchy: [node.IsA(className)] *)

Definition superclasses (cls : string) : list string :=
  if String.eqb cls "vtkMRMLMarkupsClosedCurveNode"
  then ["vtkMRMLMarkupsCurveNode"; "vtkMRMLMarkupsNode"]
  else if String.eqb cls "vtkMRMLMarkupsCurveNode"
          || String.eqb cls "vtkMRMLMarkupsPlaneNode"
          || String.eqb cls "vtkMRMLMarkupsFiducialNode"
  then ["vtkMRMLMarkupsNode"]
  else [].

Definition IsA (n : mrmlNode) (cls : string) : bool :=
  String.eqb (className n) cls
  || existsb (String.eqb cls) (superclasses (className n)).

(** *** Attributes and node references of one node *)

Definition GetAttribute (n : mrmlNode) (name : string) : option string :=
  snd <$> List.find (fun kv => String.eqb (fst kv) name) (attributes n).

Fixpoint assocSet {V} (l : list (string * V)) (name : string) (v : V)
    : list (string * V) :=
  match l with
  | [] => [(name, v)]
  | (k, w) :: rest =>
      if String.eqb k name then (k, v) :: rest
      else (k, w) :: assocSet rest name v
  end.

Definition SetAttribute (name value : string) (n : mrmlNode) : mrmlNode :=
  set_attributes (assocSet (attributes n) name value) n.

Definition referenceIDs (n : mrmlNode) (role : string) : list nat :=
  snd <$> List.filter (fun r => String.eqb (fst r) role) (references n).

Definition GetNumberOfNodeReferences (n : mrmlNode) (role : string) : nat :=
  length (referenceIDs n role).

(* appended after the references the role already has *)
Definition AddNodeReferenceID (role : string) (id : nat) (n : mrmlNode)
    : mrmlNode :=
  set_references (references n ++ [(role, id)]) n.

(* SetNthNodeReferenceID(role, 0, id) *)
Definition SetNodeReferenceID (role : string) (id : nat) (n : mrmlNode)
    : mrmlNode :=
  set_references (assocSet (references n) role id) n.

Definition RemoveNodeReferenceIDs (role : string) (n : mrmlNode)
    : mrmlNode :=
  set_references
    (List.filter (fun r => negb (String.eqb (fst r) role)) (references n)) n.

(** *** The scene: nodes in [GetNthNode] order *)

(** [uniqueNames] is the host's record of the last index it handed out
    for a base name ([vtkMRMLScene::UniqueNames]). *)
Record scene := Scene {
  nodes : list mrmlNode;
  nextID : nat;
  uniqueNames : list (string * nat) }.

Definition GetNodeByID (sc : scene) (id : nat) : option mrmlNode :=
  List.find (fun n => Nat.eqb (nodeID n) id) (nodes sc).

Definition updateNode (f : mrmlNode -> mrmlNode) (id : nat) (sc : scene)
    : scene :=
  Scene ((fun n => if Nat.eqb (nodeID n) id then f n else n) <$> nodes sc)
        (nextID sc) (uniqueNames sc).

(** [vtkMRMLScene::BuildName]: the first name is "foo", then "foo_1",
    then "foo_2". *)
Definition BuildName (baseName : string) (nameIndex : nat) : string :=
  if Nat.eqb nameIndex 0 then baseName
  else baseName ++ "_" ++ NilEmpty.string_of_uint (Nat.to_uint nameIndex).

(* scene.GetFirstNodeByName(name) is not None *)
Definition nameInUse (sc : scene) (name : string) : bool :=
  existsb (fun n => String.eqb (nodeName n) name) (nodes sc).

(* the loop of GetUniqueNameIndex: ++index until no node carries the name
   built from it.  The names built from different indices differ, so the
   loop ends within as many steps as the scene has nodes; [steps] counts
   them down. *)
Fixpoint firstFreeIndex (sc : scene) (baseName : string) (steps index : nat)
    : nat :=
  match steps with
  | 0 => index
  | S steps =>
      if nameInUse sc (BuildName baseName index)
      then firstFreeIndex sc baseName steps (S index)
      else index
  end.

(** [vtkMRMLScene::GetUniqueNameIndex]: the search starts after the last
    index handed out for the base name, at 0 when there was none. *)
Definition GetUniqueNameIndex (sc : scene) (baseName : string) : nat :=
  let start :=
    match List.find (fun kv => String.eqb (fst kv) baseName)
            (uniqueNames sc) with
    | Some (_, lastNameIndex) => S lastNameIndex
    | None => 0
    end in
  firstFreeIndex sc baseName (length (nodes sc)) start.

(** [vtkMRMLScene::GenerateUniqueName], without its write to
    [UniqueNames]. *)
Definition GenerateUniqueName (sc : scene) (baseName : string) : string :=
  BuildName baseName (GetUniqueNameIndex sc baseName).

(** [scene.AddNewNodeByClass(className, nodeBaseName)]: the node is named
    by [GenerateUniqueName(nodeBaseName)], which records the index, and
    added at the end of the scene under the next ID. *)
Definition AddNewNodeByClass (sc : scene) (cls nodeBaseName : string)
    : scene * nat :=
  let nameIndex := GetUniqueNameIndex sc nodeBaseName in
  (Scene (nodes sc
          ++ [newNode (nextID sc) cls (BuildName nodeBaseName nameIndex)])
         (S (nextID sc))
         (assocSet (uniqueNames sc) nodeBaseName nameIndex),
   nextID sc).

Definition RemoveNode (id : nat) (sc : scene) : scene :=
  Scene (List.filter (fun n => negb (Nat.eqb (nodeID n) id)) (nodes sc))
        (nextID sc) (uniqueNames sc).

(* node.GetNthNodeReference(role, i): None when the reference is missing
   or the referenced node is not in the scene *)
Definition GetNthNodeReference (sc : scene) (n : mrmlNode) (role : string)
    (i : nat) : option mrmlNode :=
  referenceIDs n role !! i ≫= GetNodeByID sc.

Definition GetNodeReference (sc : scene) (n : mrmlNode) (role : string)
    : option mrmlNode :=
  GetNthNodeReference sc n role 0.

(** [scene.GetFirstNode(name, className)] behind
    [slicer.util.getFirstNodeByClassByName(className, name)]: the first
    node that is an instance of the class and carries the name. *)
Definition getFirstNodeByClassByName (sc : scene) (cls name : string)
    : option mrmlNode :=
  List.find (fun n => IsA n cls && String.eqb (nodeName n) name) (nodes sc).

(** [slicer.util.getNode(pattern)] for a pattern without wildcards, as a
    Python identifier is: [getNodes] keeps one node per name, the last
    one in scene order.  [None] stands for MRMLNodeNotFoundException. *)
Definition getNode (sc : scene) (pattern : string) : option mrmlNode :=
  last (List.filter (fun n => String.eqb (nodeName n) pattern) (nodes sc)).

(** ** Python control flow: return or raise, over a mutable state *)

Inductive pyexc :=
| SyntaxError (lineno : nat)
| NameError (name : string)
| AttributeError (attr : string)
| TypeError (what : string)
| IndexError
| MRMLNodeNotFoundException (pattern : string).

Inductive outcome (S A : Type) :=
| Return (a : A) (s : S)
| Raise (e : pyexc) (s : S).
Arguments Return {S A} _ _.
Arguments Raise {S A} _ _.

Definition py (S A : Type) : Type := S -> outcome S A.

#[export] Instance py_ret {S} : MRet (py S) :=
  fun A a s => Return a s.

#[export] Instance py_bind {S} : MBind (py S) :=
  fun A B f c s =>
    match c s with
    | Return a s' => f a s'
    | Raise e s' => Raise e s'
    end.

Definition raise {S A} (e : pyexc) : py S A := fun s => Raise e s.
Definition gets {S A} (f : S -> A) : py S A := fun s => Return (f s) s.
Definition modify {S} (f : S -> S) : py S unit := fun s => Return tt (f s).

Definition finalState {S A} (o : outcome S A) : S :=
  match o with Return _ s => s | Raise _ s => s end.

(* for x in l: f(x) *)
Fixpoint forM_ {S A} (l : list A) (f : A -> py S unit) : py S unit :=
  match l with
  | [] => mret tt
  | x :: rest => f x ;; forM_ rest f
  end.

(** ** The logic object *)

Record logic := Logic {
  mrmlScene : scene;
  parameterNode : option nat;
  (* what storageNode.ReadData finds in the file self.queryNodeFileName *)
  queryFile : script;
  (* self.origPointLocator.GetDataSet(), its points *)
  origPointLocator : option (list point);
  updatingSeedNodes : bool;
  (* calls of slicer.modules.dynamicmodeler.logic().RunDynamicModelerTool *)
  solverRuns : list nat;
  (* exceptions shown by slicer.util.errorDisplay *)
  errorDisplay : list pyexc;
}.

Definition set_mrmlScene (v : scene) (l : logic) : logic :=
  {| mrmlScene := v; parameterNode := parameterNode l;
     queryFile := queryFile l; origPointLocator := origPointLocator l;
     updatingSeedNodes := updatingSeedNodes l; solverRuns := solverRuns l;
     errorDisplay := errorDisplay l |}.

Definition set_updatingSeedNodes (v : bool) (l : logic) : logic :=
  {| mrmlScene := mrmlScene l; parameterNode := parameterNode l;
     queryFile := queryFile l; origPointLocator := origPointLocator l;
     updatingSeedNodes := v; solverRuns := solverRuns l;
     errorDisplay := errorDisplay l |}.

Definition set_solverRuns (v : list nat) (l : logic) : logic :=
  {| mrmlScene := mrmlScene l; parameterNode := parameterNode l;
     queryFile := queryFile l; origPointLocator := origPointLocator l;
     updatingSeedNodes := updatingSeedNodes l; solverRuns := v;
     errorDisplay := errorDisplay l |}.

Definition set_errorDisplay (v : list pyexc) (l : logic) : logic :=
  {| mrmlScene := mrmlScene l; parameterNode := parameterNode l;
     queryFile := queryFile l; origPointLocator := origPointLocator l;
     updatingSeedNodes := updatingSeedNodes l; solverRuns := solverRuns l;
     errorDisplay := v |}.

(** A method call on the node with the given ID. *)
Definition onNode (f : mrmlNode -> mrmlNode) (id : nat) : py logic unit :=
  modify (fun l => set_mrmlScene (updateNode f id (mrmlScene l)) l).

(** The node behind a Python reference; a reference that resolves to no
    node of the scene is [None], and using it raises AttributeError. *)
Definition theNode (ref : option nat) (attr : string)
    : py logic mrmlNode :=
  fun l =>
    match ref ≫= GetNodeByID (mrmlScene l) with
    | Some n => Return n l
    | None => Raise (AttributeError attr) l
    end.

(** ** Relative seeds (NeuroSegmentParcellationLogic.py, lines 411-440
    and 1111-1289) *)

Definition MANUALLY_PLACED_ATTRIBUTE_NAME : string :=
  "NeuroSegmentParcellation.ManuallyPlaced".

(* node.GetNthNodeReference(role, i) for i in range(number of references),
   as Python references: the ID when the node is in the scene *)
Definition nodeReferences (sc : scene) (n : mrmlNode) (role : string)
    : list (option nat) :=
  (fun id => nodeID <$> GetNodeByID sc id) <$> referenceIDs n role.

Definition getRelativeSeedNodes (relativeNode : nat)
    : py logic (list (option nat)) :=
  fun l =>
    match GetNodeByID (mrmlScene l) relativeNode with
    | None => Return [] l
    | Some n =>
        Return (nodeReferences (mrmlScene l) n RELATIVE_NODE_REFERENCE) l
    end.

Definition getRelativeNodesOfRole (seedNode : nat) (relativeRole : string)
    : py logic (list (option nat)) :=
  fun l =>
    match GetNodeByID (mrmlScene l) seedNode with
    | None => Return [] l
    | Some n =>
        Return (nodeReferences (mrmlScene l) n
                  (RELATIVE_NODE_REFERENCE ++ "." ++ relativeRole)) l
    end.

Definition addRelativeSeed (seedNode relativeNode : nat)
    (relativeRole : string) : py logic unit :=
  let seedRelativeRole := RELATIVE_NODE_REFERENCE ++ "." ++ relativeRole in
  onNode (AddNodeReferenceID seedRelativeRole relativeNode) seedNode ;;
  onNode (AddNodeReferenceID RELATIVE_NODE_REFERENCE seedNode) relativeNode.

Definition onSeedNodeModified (seedNode : nat) : py logic unit :=
  updating ← gets updatingSeedNodes;
  if updating : bool then mret tt
  else onNode (SetAttribute MANUALLY_PLACED_ATTRIBUTE_NAME "TRUE") seedNode.

Definition onSeedRemoved (seedNode : nat) : py logic unit :=
  fun l =>
    match GetNodeByID (mrmlScene l) seedNode with
    | None => Return tt l
    | Some n =>
        if negb (Nat.eqb (length (controlPoints n)) 0) then Return tt l
        else onNode (SetAttribute MANUALLY_PLACED_ATTRIBUTE_NAME "FALSE")
               seedNode l
    end.

(* relativeNodes += self.getRelativeNodesOfRole(seedNode, relativeRole) *)
Fixpoint allRelativeNodes (seedNode : nat) (roles : list string)
    : py logic (list (option nat)) :=
  match roles with
  | [] => mret []
  | relativeRole :: rest =>
      nodesOfRole ← getRelativeNodesOfRole seedNode relativeRole;
      others ← allRelativeNodes seedNode rest;
      mret (nodesOfRole ++ others)%list
  end.

(* the control points of each relative node, in order; the loop body
   first calls relativeNode.GetNumberOfControlPoints() *)
Fixpoint relativeControlPoints (relativeNodes : list (option nat))
    : py logic (list (list point)) :=
  match relativeNodes with
  | [] => mret []
  | relativeNode :: rest =>
      n ← theNode relativeNode "GetNumberOfControlPoints";
      others ← relativeControlPoints rest;
      mret (controlPoints n :: others)
  end.

(* seedNode.AddControlPoint(vtk.vtkVector3d(seedPoint)) *)
Definition addControlPoint (p : point) (n : mrmlNode) : mrmlNode :=
  set_controlPoints (controlPoints n ++ [p]) n.

Definition initializeSeedNode (seedNode : nat) : py logic unit :=
  relativeNodes ← allRelativeNodes seedNode RELATIVE_SEED_ROLES;
  if Nat.eqb (length relativeNodes) 0 then mret tt
  else
    pointLists ← relativeControlPoints relativeNodes;
    match initialSeedPoint pointLists with
    | None => mret tt
    | Some seedPoint => onNode (addControlPoint seedPoint) seedNode
    end.

(* lines 1217-1221: closestPoint for one seed point *)
Definition closestPointOn (relativeNode : mrmlNode) (relativeRole : string)
    (seedPoint : point) : point :=
  let closestPoint := vzero in
  if IsA relativeNode "vtkMRMLMarkupsCurveNode"
  then getClosestPointOnCurveAlongLine seedPoint (curvePoints relativeNode)
         relativeRole closestPoint
  else if IsA relativeNode "vtkMRMLMarkupsPlaneNode"
  then GetClosestPointOnPlaneWorld (planeOrigin relativeNode)
         (planeNormal relativeNode) seedPoint
  else closestPoint.

(* one iteration of: for i in range(seedNode.GetNumberOfControlPoints()) *)
Definition updateRelativeSeedPositionAt (seedNode : nat)
    (relativeNode : option nat) (relativeRole : string) (i : nat)
    : py logic unit :=
  seed ← theNode (Some seedNode) "GetNthControlPointPosition";
  rel ← theNode relativeNode "IsA";
  let seedPoint := default vzero (controlPoints seed !! i) in
  let closestPoint := closestPointOn rel relativeRole seedPoint in
  match correctedSeedPoint relativeRole seedPoint closestPoint with
  | None => mret tt
  | Some seedPoint =>
      onNode (fun n => set_controlPoints (<[i:=seedPoint]> (controlPoints n)) n)
             seedNode
  end.

Definition updateRelativeSeedPosition (seedNode : nat)
    (relativeNode : option nat) (relativeRole : string) : py logic unit :=
  rel ← theNode relativeNode "GetNumberOfControlPoints";
  if Nat.eqb (length (controlPoints rel)) 0 then mret tt
  else
    seed ← theNode (Some seedNode) "GetNumberOfControlPoints";
    (if Nat.eqb (length (controlPoints seed)) 0
     then initializeSeedNode seedNode else mret tt) ;;
    seed ← theNode (Some seedNode) "GetNumberOfControlPoints";
    forM_ (seq 0 (length (controlPoints seed)))
      (updateRelativeSeedPositionAt seedNode relativeNode relativeRole).

Definition snapSeedsToSurface (seedNode : nat) : py logic unit :=
  dataSet ← gets origPointLocator;
  match dataSet with
  | None => mret tt
  | Some dataSet =>
      seed ← theNode (Some seedNode) "GetNumberOfControlPoints";
      forM_ (seq 0 (length (controlPoints seed)))
        (fun i =>
           onNode (fun n =>
             let controlPoint := default vzero (controlPoints n !! i) in
             set_controlPoints
               (<[i:=FindClosestPoint dataSet controlPoint]> (controlPoints n))
               n) seedNode)
  end.

(** The body of [updateRelativeSeedNode] behind its guards. *)
Definition relativeSeedDerivation (seedNode : nat) : py logic unit :=
  wasUpdatingSeedNodes ← gets updatingSeedNodes;
  modify (set_updatingSeedNodes true) ;;
  seed ← theNode (Some seedNode) "GetNumberOfControlPoints";
  (if Nat.eqb (length (controlPoints seed)) 0
   then initializeSeedNode seedNode else mret tt) ;;
  forM_ RELATIVE_SEED_ROLES
    (fun relativeRole =>
       relativeNodes ← getRelativeNodesOfRole seedNode relativeRole;
       forM_ relativeNodes
         (fun relativeNode =>
            updateRelativeSeedPosition seedNode relativeNode relativeRole)) ;;
  snapSeedsToSurface seedNode ;;
  modify (set_updatingSeedNodes wasUpdatingSeedNodes).

(* attribute == "text", where a missing attribute is None *)
Definition attributeIs (attribute : option string) (value : string)
    : bool :=
  match attribute with
  | Some a => String.eqb a value
  | None => false
  end.

Definition updateRelativeSeedNode (seedNode : option nat)
    : py logic unit :=
  fun l =>
    match seedNode ≫= GetNodeByID (mrmlScene l) with
    | None => Return tt l
    | Some seed =>
        let manuallyPlacedAttribute :=
          GetAttribute seed MANUALLY_PLACED_ATTRIBUTE_NAME in
        if attributeIs manuallyPlacedAttribute "TRUE" then Return tt l
        else if bool_decide (manuallyPlacedAttribute = None)
                && negb (Nat.eqb (length (controlPoints seed)) 0)
        then
          (* Scene was created before auto seed placement was added. *)
          Return tt l
        else relativeSeedDerivation (nodeID seed) l
    end.

Definition updateRelativeSeedsForMarkup (markupNode : nat)
    : py logic unit :=
  seedNodes ← getRelativeSeedNodes markupNode;
  forM_ seedNodes updateRelativeSeedNode.

(** ** Running a boundary-cut job (lines 907-1022) *)

Definition BOUNDARY_CUT_INPUT_BORDER_REFERENCE : string :=
  "BoundaryCut.InputBorder".
Definition BOUNDARY_CUT_OUTPUT_MODEL_REFERENCE : string :=
  "BoundaryCut.OutputModel".
Definition BOUNDARY_CUT_INPUT_SEED_REFERENCE : string :=
  "BoundaryCut.InputSeed".
Definition INPUT_MARKUPS_REFERENCE : string := "InputMarkups".
Definition ORIG_MODEL_REFERENCE : string := "OrigModel".
Definition INPUT_QUERY_REFERENCE : string := "InputQuery".
Definition OUTPUT_MODEL_REFERENCE : string := "OutputModel".
Definition TOOL_NODE_REFERENCE : string := "ToolNode".

Definition addArray (name : string) (arrays : list string) : list string :=
  if existsb (String.eqb name) arrays then arrays
  else (arrays ++ [name])%list.

Definition initializePedigreeIds (parameterNode : option nat)
    : py logic unit :=
  fun l =>
    match parameterNode ≫= GetNodeByID (mrmlScene l) with
    | None => Return tt l
    | Some p =>
        match GetNodeReference (mrmlScene l) p ORIG_MODEL_REFERENCE with
        | None => Return tt l
        | Some origModelNode =>
            match modelPolyData origModelNode with
            | None => Return tt l
            | Some pd =>
                onNode
                  (set_modelPolyData
                     (Some (PolyData (pdPoints pd)
                              (addArray "pointPedigree" (pdPointArrays pd))
                              (addArray "cellPedigree" (pdCellArrays pd)))))
                  (nodeID origModelNode) l
            end
        end
    end.

(* toolHasAllInputs after the loop over the border references *)
Definition toolHasAllInputs (sc : scene) (toolNode : mrmlNode) : bool :=
  forallb
    (fun id =>
       match GetNodeByID sc id with
       | None => true
       | Some inputNode => negb (Nat.eqb (length (controlPoints inputNode)) 0)
       end)
    (referenceIDs toolNode BOUNDARY_CUT_INPUT_BORDER_REFERENCE).

(* polyData.Initialize() *)
Definition emptyPolyData : polyData := PolyData [] [] [].

Definition clearOutputModel (toolNode : mrmlNode) : py logic unit :=
  fun l =>
    match GetNodeReference (mrmlScene l) toolNode
            BOUNDARY_CUT_OUTPUT_MODEL_REFERENCE with
    | None => Return tt l
    | Some outputModel =>
        match modelPolyData outputModel with
        | None => Return tt l
        | Some _ =>
            onNode (set_modelPolyData (Some emptyPolyData))
                   (nodeID outputModel) l
        end
    end.

(* dynamicModelerLogic.RunDynamicModelerTool(toolNode), an external solve *)
Definition RunDynamicModelerTool (toolNode : nat) : py logic unit :=
  modify (fun l => set_solverRuns (solverRuns l ++ [toolNode])%list l).

(** The first half of [runDynamicModelerTool]: the seed of the job is
    re-derived and the pedigree arrays are set up. *)
Definition prepareDynamicModelerTool (toolNode : mrmlNode)
    : py logic unit :=
  sc ← gets mrmlScene;
  (* seedNode = self.getInputSeedNode(toolNode) *)
  let seedNode :=
    GetNodeReference sc toolNode BOUNDARY_CUT_INPUT_SEED_REFERENCE in
  match seedNode with
  | Some seed => updateRelativeSeedNode (Some (nodeID seed))
  | None => mret tt
  end ;;
  p ← gets parameterNode;
  initializePedigreeIds p.

Definition runDynamicModelerTool (toolNode : option nat)
    : py logic unit :=
  fun l =>
    match toolNode ≫= GetNodeByID (mrmlScene l) with
    | None => Return tt l
    | Some tool =>
        (prepareDynamicModelerTool tool ;;
         tool ← theNode (Some (nodeID tool)) "GetNumberOfNodeReferences";
         sc ← gets mrmlScene;
         if toolHasAllInputs sc tool
         then RunDynamicModelerTool (nodeID tool)
         else clearOutputModel tool) l
    end.

(** ** The visitor (NeuroSegmentParcellationVisitor.py) *)

Inductive pyvalue :=
| PyNone
| PyList (items : list nat).

Record visitor := Visitor {
  v_scene : scene;                            (* slicer.mrmlScene *)
  v_parameterNode : nat;                      (* self.parameterNode *)
  distanceWeightingFunction : option string;  (* None: attribute not set *)
}.

Definition onSceneNode (f : mrmlNode -> mrmlNode) (id : nat)
    : py visitor unit :=
  modify (fun v => Visitor (updateNode f id (v_scene v)) (v_parameterNode v)
                     (distanceWeightingFunction v)).

Definition addNewNodeByClass (cls name : string) : py visitor nat :=
  fun v =>
    let '(sc, id) := AddNewNodeByClass (v_scene v) cls name in
    Return id (Visitor sc (v_parameterNode v) (distanceWeightingFunction v)).

Definition defaultDisplayNode : displayNode := DisplayNode true None false.

(* node.CreateDefaultDisplayNodes() *)
Definition CreateDefaultDisplayNodes (n : mrmlNode) : mrmlNode :=
  match display n with
  | None => set_display (Some defaultDisplayNode) n
  | Some _ => n
  end.

Definition onDisplay (f : displayNode -> displayNode) (n : mrmlNode)
    : mrmlNode :=
  set_display (f <$> display n) n.

(* `module.logging` is never imported by the visitor module: evaluating
   `logging.error(...)` raises NameError before the message is built *)
Definition logging_error {A} : py visitor A := raise (NameError "logging").

(* displayNode.SetGlyphScale(4.0), and HandlesInteractiveOn() for a plane *)
Definition glyphAndHandles (cls : string) (d : displayNode) : displayNode :=
  DisplayNode (visibility d) (Some (4 # 1)%Q)
    (if String.eqb cls "vtkMRMLMarkupsPlaneNode" then true
     else handlesInteractive d).

(** Lines 105-113 of [process_InputNodes]: the node of the class with the
    name, created when there is none. *)
Definition getOrCreateInputNode (className name : string)
    : py visitor mrmlNode :=
  sc ← gets v_scene;
  match getFirstNodeByClassByName sc className name with
  | Some inputNode => mret inputNode
  | None =>
      inputNode ← addNewNodeByClass className name;
      onSceneNode CreateDefaultDisplayNodes inputNode ;;
      onSceneNode (onDisplay (glyphAndHandles className)) inputNode ;;
      mret (newNode inputNode className (GenerateUniqueName sc name))
  end.

(* the body of: for name in planeNames *)
Definition processInputNode (className name : string) : py visitor nat :=
  inputNode ← getOrCreateInputNode className name;
  (if IsA inputNode "vtkMRMLMarkupsCurveNode"
   then
     f ← gets distanceWeightingFunction;
     match f with
     | None => raise (AttributeError "distanceWeightingFunction")
     | Some f => onSceneNode (SetAttribute "DistanceWeightingFunction" f)
                   (nodeID inputNode)
     end
   else mret tt) ;;
  p ← gets v_parameterNode;
  onSceneNode
    (AddNodeReferenceID INPUT_MARKUPS_REFERENCE (nodeID inputNode)) p ;;
  mret (nodeID inputNode).

(* for name in planeNames: ...; inputNodes.append(inputNode) *)
Fixpoint processInputNames (className : string) (planeNames : list string)
    : py visitor (list nat) :=
  match planeNames with
  | [] => mret []
  | name :: rest =>
      inputNode ← processInputNode className name;
      inputNodes ← processInputNames className rest;
      mret (inputNode :: inputNodes)
  end.

(* [e.id for e in node.elts] *)
Fixpoint elementIds (elts : list ast) : option (list string) :=
  match elts with
  | [] => Some []
  | ast_Name id :: rest => cons id <$> elementIds rest
  | _ :: _ => None
  end.

Definition process_InputNodes (node : ast) (className : string)
    : py visitor (list nat) :=
  match node with
  | ast_List elts =>
      match elementIds elts with
      | None => raise (AttributeError "id")
      | Some planeNames => processInputNames className planeNames
      end
  | _ => logging_error
  end.

Definition visit_Name (id : string) : py visitor pyvalue :=
  sc ← gets v_scene;
  match getNode sc id with
  | Some slicerNode => mret (PyList [nodeID slicerNode])
  | None => raise (MRMLNodeNotFoundException id)
  end.

Definition visit_Call : py visitor pyvalue := mret PyNone.

Definition visit_UnaryOp : py visitor pyvalue := logging_error.

(* leftNodes = self.visit(node.left); rightNodes = self.visit(node.right);
   return leftNodes + rightNodes *)
Definition visit_BinOp (visitLeft visitRight : py visitor pyvalue)
    : py visitor pyvalue :=
  leftNodes ← visitLeft;
  rightNodes ← visitRight;
  match leftNodes, rightNodes with
  | PyList l, PyList r => mret (PyList (l ++ r))
  | _, _ => raise (TypeError "+")
  end.

(* ast.NodeVisitor.generic_visit: visit every child, return None *)
Fixpoint generic_visit (children : list (py visitor pyvalue))
    : py visitor pyvalue :=
  match children with
  | [] => mret PyNone
  | child :: rest => child ;; generic_visit rest
  end.

Definition setCurveTypes (curveNodes : list nat) : py visitor unit :=
  forM_ curveNodes
    (onSceneNode (set_curveType "ShortestDistanceOnSurface")).

(* slicer.vtkSlicerDynamicModelerBoundaryCutTool().GetName() *)
Definition BoundaryCutToolName : string := "Boundary cut".

(* outputModel.GetName(), for the output model found in [sc] or created
   from it: a node that is found carries the name, a new one gets the
   name the host makes of it *)
Definition outputModelName (sc : scene) (targetId : string) : string :=
  match getFirstNodeByClassByName sc "vtkMRMLModelNode" targetId with
  | Some outputModel => nodeName outputModel
  | None => GenerateUniqueName sc targetId
  end.

(** Lines 62-88 of [visit_Assign]: the assignment declares a parcel.
    [sc0] is the scene in which the output model is looked up. *)
Definition declareParcel (targetId : string)
    (visitValue : py visitor pyvalue) : py visitor unit :=
  nodes ← visitValue;
  p ← gets v_parameterNode;
  sc0 ← gets v_scene;
  outputModel ←
    match getFirstNodeByClassByName sc0 "vtkMRMLModelNode" targetId with
    | Some outputModel => mret (nodeID outputModel)
    | None => addNewNodeByClass "vtkMRMLModelNode" targetId
    end;
  sc ← gets v_scene;
  match display <$> GetNodeByID sc outputModel with
  | Some None =>
      onSceneNode CreateDefaultDisplayNodes outputModel ;;
      onSceneNode
        (onDisplay (fun d =>
           DisplayNode false (glyphScale d) (handlesInteractive d)))
        outputModel
  | _ => mret tt
  end ;;
  onSceneNode (AddNodeReferenceID OUTPUT_MODEL_REFERENCE outputModel) p ;;
  sc ← gets v_scene;
  inputSeed ←
    match getFirstNodeByClassByName sc "vtkMRMLMarkupsFiducialNode"
            (targetId ++ "_SeedPoints") with
    | Some inputSeed => mret (nodeID inputSeed)
    | None =>
        inputSeed ← addNewNodeByClass "vtkMRMLMarkupsFiducialNode"
                      (targetId ++ "_SeedPoints");
        onSceneNode CreateDefaultDisplayNodes inputSeed ;;
        mret inputSeed
    end;
  sc ← gets v_scene;
  toolNode ←
    match getFirstNodeByClassByName sc "vtkMRMLModelNode"
            (outputModelName sc0 targetId ++ "_BoundaryCut") with
    | Some modelNode =>
        (* a model node has no SetToolName *)
        raise (AttributeError "SetToolName")
    | None =>
        addNewNodeByClass "vtkMRMLDynamicModelerNode"
          (outputModelName sc0 targetId ++ "_BoundaryCut")
    end;
  onSceneNode (set_toolName BoundaryCutToolName) toolNode ;;
  onSceneNode
    (SetNodeReferenceID BOUNDARY_CUT_OUTPUT_MODEL_REFERENCE outputModel)
    toolNode ;;
  onSceneNode
    (SetNodeReferenceID BOUNDARY_CUT_INPUT_SEED_REFERENCE inputSeed)
    toolNode ;;
  match nodes with
  | PyNone => raise (TypeError "iter")
  | PyList nodes =>
      forM_ nodes
        (fun inputNode =>
           onSceneNode
             (AddNodeReferenceID BOUNDARY_CUT_INPUT_BORDER_REFERENCE inputNode)
             toolNode)
  end ;;
  onSceneNode (set_continuousUpdate false) toolNode ;;
  onSceneNode (AddNodeReferenceID TOOL_NODE_REFERENCE toolNode) p.

Definition visit_Assign (targets : list ast) (value : ast)
    (visitValue : py visitor pyvalue) : py visitor pyvalue :=
  if Nat.ltb 1 (length targets) then logging_error
  else
    match targets with
    | [] => raise IndexError
    | ast_Name id :: _ =>
        if String.eqb id "_Planes"
        then process_InputNodes value "vtkMRMLMarkupsPlaneNode" ;;
             mret PyNone
        else if String.eqb id "_Curves"
        then curveNodes ← process_InputNodes value "vtkMRMLMarkupsCurveNode";
             setCurveTypes curveNodes ;;
             mret PyNone
        else if String.eqb id "_ClosedCurves"
        then curveNodes ←
               process_InputNodes value "vtkMRMLMarkupsClosedCurveNode";
             setCurveTypes curveNodes ;;
             mret PyNone
        else if String.eqb id "_DistanceWeightingFunction"
        then match value with
             | ast_Str s =>
                 modify (fun v => Visitor (v_scene v) (v_parameterNode v)
                                    (Some s)) ;;
                 mret PyNone
             | _ => raise (AttributeError "s")
             end
        else declareParcel id visitValue ;; mret PyNone
    | _ :: _ => logging_error
    end.

(* ast.NodeVisitor.visit: dispatch on the class of the node *)
Fixpoint visit (node : ast) : py visitor pyvalue :=
  match node with
  | ast_Module body => generic_visit (visit <$> body)
  | ast_Assign targets value _ => visit_Assign targets value (visit value)
  | ast_Expr value => generic_visit [visit value]
  | ast_Name id => visit_Name id
  | ast_Str _ => generic_visit []
  | ast_List elts => generic_visit (visit <$> elts)
  | ast_BinOp leftValue rightValue =>
      visit_BinOp (visit leftValue) (visit rightValue)
  | ast_UnaryOp _ => visit_UnaryOp
  | ast_Call _ _ _ => visit_Call
  | ast_Other children => generic_visit (visit <$> children)
  end.

(** ** Interpreting and loading a query (lines 557-580, 679-690, 968-985
    and 1103-1109) *)

(** What a method of the logic hands back: [None], [False], or the list
    [[success, errorMessage]]. *)
Inductive pyresult :=
| ResultNone
| ResultFalse
| ResultList (success : bool) (errorMessage : string).

Definition getQueryString (l : logic) (parameterNode : option nat)
    : option script :=
  p ← parameterNode ≫= GetNodeByID (mrmlScene l);
  queryTextNode ← GetNodeReference (mrmlScene l) p INPUT_QUERY_REFERENCE;
  Some (text queryTextNode).

(* astNode = ast.parse(queryString); eq = ...Visitor(self);
   eq.setParameterNode(parameterNode); eq.visit(astNode) *)
Definition interpret (queryString : script) (parameterNode : nat)
    (sc : scene) : outcome visitor pyvalue :=
  match queryString with
  | Unparsable lineno =>
      Raise (SyntaxError lineno) (Visitor sc parameterNode None)
  | Parsed body => visit (ast_Module body) (Visitor sc parameterNode None)
  end.

Definition parseParcellationString (parameterNode : option nat)
    : py logic pyresult :=
  fun l =>
    match parameterNode, getQueryString l parameterNode with
    | Some p, Some queryString =>
        let errorMessage := "" in
        match interpret queryString p (mrmlScene l) with
        | Return _ v =>
            Return (ResultList true errorMessage)
                   (set_mrmlScene (v_scene v) l)
        | Raise e v =>
            let l := set_mrmlScene (v_scene v) l in
            Return (ResultList false errorMessage)
                   (set_errorDisplay (errorDisplay l ++ [e])%list l)
        end
    | _, _ => Return ResultNone l
    end.

Definition onScene (f : scene -> scene) : py logic unit :=
  modify (fun l => set_mrmlScene (f (mrmlScene l)) l).

Definition loadQuery : py logic pyresult :=
  parameterNode ← gets parameterNode;
  match parameterNode with
  | None => mret ResultFalse
  | Some p =>
      sc ← gets mrmlScene;
      parcellationQueryNode ←
        match GetNodeByID sc p ≫=
                (fun n => GetNodeReference sc n INPUT_QUERY_REFERENCE) with
        | Some queryNode => mret (nodeID queryNode)
        | None =>
            let '(sc, queryNode) :=
              AddNewNodeByClass sc "vtkMRMLTextNode" "ParcellationQuery" in
            onScene (fun _ => sc) ;;
            onNode (SetNodeReferenceID INPUT_QUERY_REFERENCE queryNode) p ;;
            mret queryNode
        end;
      sc ← gets mrmlScene;
      let '(sc, storageNode) :=
        AddNewNodeByClass sc "vtkMRMLTextStorageNode" "TextStorage" in
      onScene (fun _ => sc) ;;
      fileText ← gets queryFile;
      onNode (set_text fileText) parcellationQueryNode ;;
      onScene (RemoveNode storageNode) ;;
      onNode (RemoveNodeReferenceIDs INPUT_MARKUPS_REFERENCE) p ;;
      onNode (RemoveNodeReferenceIDs OUTPUT_MODEL_REFERENCE) p ;;
      parseParcellationString (Some p)
  end.

Definition set_queryFile (v : script) (l : logic) : logic :=
  {| mrmlScene := mrmlScene l; parameterNode := parameterNode l;
     queryFile := v; origPointLocator := origPointLocator l;
     updatingSeedNodes := updatingSeedNodes l; solverRuns := solverRuns l;
     errorDisplay := errorDisplay l |}.

(** ** The label array of an export (NeuroSegmentParcellationLogic.py,
    lines 1036-1064) *)

(** What the loop reads of an output model: its name and the values of the
    cell array "cellPedigree" of its mesh.  [None] is a node without mesh
    ([GetPolyData()] is [None]), [Some None] a mesh without the array. *)
Record outputSurface := OutputSurface {
  surfaceName : string;
  surfaceCellPedigree : option (option (list nat)) }.

(** The label array when the loop is left: by its end, by an exception, or
    by a write outside the array ([vtkIntArray::SetValue] checks no
    bounds, what happens then is not modelled). *)
Inductive labelOutcome :=
| Labelled (labelArray : list nat)
| LabelRaise (e : pyexc)
| WriteOutOfBounds.

(* for cellIndex in range(cellPedigreeArray.GetNumberOfValues()):
     labelArray.SetValue(cellPedigreeArray.GetValue(cellIndex), value) *)
Fixpoint setLabels (cellPedigree : list nat) (value : nat)
    (labelArray : list nat) : option (list nat) :=
  match cellPedigree with
  | [] => Some labelArray
  | cellId :: rest =>
      if Nat.ltb cellId (length labelArray)
      then setLabels rest value (<[cellId := value]> labelArray)
      else None
  end.

(* len(surfacesToExport) != 0 and not outputSurfaceNode.GetName() in
   surfacesToExport *)
Definition skipped (surfacesToExport : list string) (surface : outputSurface)
    : bool :=
  negb (Nat.eqb (length surfacesToExport) 0)
  && negb (existsb (String.eqb (surfaceName surface)) surfacesToExport).

(* for modelIndex in range(numberOfOutputModels): ...; [outputs] are the
   output model references from [modelIndex] on, [None] a reference that
   resolves to no node *)
Fixpoint labelLoop (outputs : list (option outputSurface)) (modelIndex : nat)
    (surfacesToExport : list string) (labelArray : list nat)
    : labelOutcome :=
  match outputs with
  | [] => Labelled labelArray
  | None :: _ => LabelRaise (AttributeError "GetPolyData")
  | Some outputSurfaceNode :: rest =>
      if skipped surfacesToExport outputSurfaceNode
      then labelLoop rest (S modelIndex) surfacesToExport labelArray
      else
        match surfaceCellPedigree outputSurfaceNode with
        | None | Some None =>
            labelLoop rest (S modelIndex) surfacesToExport labelArray
        | Some (Some cellPedigreeArray) =>
            match setLabels cellPedigreeArray (modelIndex + 1) labelArray with
            | Some labelArray =>
                labelLoop rest (S modelIndex) surfacesToExport labelArray
            | None => WriteOutOfBounds
            end
        end
  end.

(** Lines 1036-1064: [labels] is the array "labels" of the orig surface
    when it has one, which is reused with its size; the array is filled
    with 0 and written in the order of the output model references. *)
Definition surfaceLabels (cellCount : nat) (labels : option (list nat))
    (outputs : list (option outputSurface)) (surfacesToExport : list string)
    : labelOutcome :=
  let labelArray :=
    match labels with
    | None => replicate cellCount 0%nat
    | Some labelArray => labelArray
    end in
  let labelArray := replicate (length labelArray) 0%nat in
  labelLoop outputs 0 surfacesToExport labelArray.

(** * Notions of the specification and worked inputs *)

(** ** Vectors over the rationals and over binary64 *)

Definition f3 (x y z : float) : vec3 float := Vec3 x y z.

Definition pt (x y z : Q) : point := Vec3 x y z.

(** Equality of rational vectors, coordinate by coordinate. *)
Definition veq (a b : point) : Prop :=
  (c0 a == c0 b /\ c1 a == c1 b /\ c2 a == c2 b)%Q.

Definition vscale (k : Q) (a : point) : point :=
  Vec3 (k * c0 a)%Q (k * c1 a)%Q (k * c2 a)%Q.

Definition vsum (l : list point) : point := fold_right vtkMath_Add vzero l.

(** ** Means of control points *)

(** The equal weight of one among [n]. *)
Definition weight (n : nat) : Q := (1 / inject_Z (Z.of_nat n))%Q.

(** The centroid of the control points of a marker, every point
    weighing the same. *)
Definition centroid (points : list point) : point :=
  vscale (weight (length points)) (vsum points).

(** The two-level mean of the specification: the mean, every constraint
    weighing the same, of the centroids of the markers. *)
Definition twoLevelMean (markers : list (list point)) : point :=
  vscale (weight (length markers)) (vsum (centroid <$> markers)).

(** The flat mean over all points of all markers. *)
Definition flatMean (markers : list (list point)) : point :=
  centroid (concat markers).

Definition hasPoints (points : list point) : bool :=
  negb (Nat.eqb (length points) 0).

(** The relative nodes [initializeSeedNode] collects, role by role, and
    their control points, read off the scene. *)
Definition relativeNodesOf (sc : scene) (seedNode : nat)
    : list (option nat) :=
  match GetNodeByID sc seedNode with
  | None => []
  | Some n =>
      concat ((fun relativeRole =>
                 nodeReferences sc n
                   (RELATIVE_NODE_REFERENCE ++ "." ++ relativeRole))
              <$> RELATIVE_SEED_ROLES)
  end.

Fixpoint markerPoints (sc : scene) (relativeNodes : list (option nat))
    : option (list (list point)) :=
  match relativeNodes with
  | [] => Some []
  | relativeNode :: rest =>
      n ← relativeNode ≫= GetNodeByID sc;
      others ← markerPoints sc rest;
      Some (controlPoints n :: others)
  end.

(** ** Roles, axes and violations *)

Section CorrectionNotions.
Context {T : Type} `{Scalar T}.

(** The axis a role is about: x for medial/lateral, y for
    anterior/posterior, z for superior/inferior. *)
Definition roleAxis (relativeRole : string) : Z :=
  if String.eqb relativeRole MEDIAL_OF_RELATIVE_ROLE
     || String.eqb relativeRole LATERAL_OF_RELATIVE_ROLE then 0
  else if String.eqb relativeRole ANTERIOR_OF_RELATIVE_ROLE
          || String.eqb relativeRole POSTERIOR_OF_RELATIVE_ROLE then 1
  else 2.

(** The seed is on the wrong side of the reference point: magnitudes of
    the x coordinates for medial/lateral, the sign of the difference
    for the other roles. *)
Definition violated (relativeRole : string)
    (seedPoint referencePoint : vec3 T) : bool :=
  let difference := vtkMath_Subtract seedPoint referencePoint in
  if String.eqb relativeRole LATERAL_OF_RELATIVE_ROLE
  then s_ltb (s_abs (c0 seedPoint)) (s_abs (c0 referencePoint))
  else if String.eqb relativeRole MEDIAL_OF_RELATIVE_ROLE
  then s_ltb (s_abs (c0 referencePoint)) (s_abs (c0 seedPoint))
  else if String.eqb relativeRole ANTERIOR_OF_RELATIVE_ROLE
  then s_ltb (c1 difference) (s_of_Z 0)
  else if String.eqb relativeRole POSTERIOR_OF_RELATIVE_ROLE
  then s_ltb (s_of_Z 0) (c1 difference)
  else if String.eqb relativeRole SUPERIOR_OF_RELATIVE_ROLE
  then s_ltb (c2 difference) (s_of_Z 0)
  else if String.eqb relativeRole INFERIOR_OF_RELATIVE_ROLE
  then s_ltb (s_of_Z 0) (c2 difference)
  else false.

(** new = ref - diff on the axis of the role. *)
Definition mirrored (relativeRole : string)
    (seedPoint referencePoint : vec3 T) : vec3 T :=
  let axis := roleAxis relativeRole in
  vset seedPoint axis
    (s_sub (vget referencePoint axis)
       (s_sub (vget seedPoint axis) (vget referencePoint axis))).

(** The two vectors agree on every coordinate but [axis]. *)
Definition agreeOutside (axis : Z) (a b : vec3 T) : Prop :=
  (axis = 0%Z \/ c0 a = c0 b) /\
  (axis = 1%Z \/ c1 a = c1 b) /\
  (axis = 2%Z \/ c2 a = c2 b).

End CorrectionNotions.

(** The control point after the directional correction against the
    relative node: mirrored when the constraint is violated at the
    reference point found for it, and itself otherwise. *)
Definition correctedAgainst (relativeNode : mrmlNode) (relativeRole : string)
    (seedPoint : point) : point :=
  let referencePoint := closestPointOn relativeNode relativeRole seedPoint in
  if violated relativeRole seedPoint referencePoint
  then mirrored relativeRole seedPoint referencePoint
  else seedPoint.

(** ** Rays, polylines and nearest points *)

(** What [vtkLine::DistanceToLine] hands back for a curve point [v] and
    the line from the seed to [lineEnd]. *)
Definition lineDistance (seedPoint lineEnd v : point) : Q :=
  fst (vtkLine_DistanceToLine v seedPoint lineEnd).
Definition linePoint (seedPoint lineEnd v : point) : point :=
  snd (vtkLine_DistanceToLine v seedPoint lineEnd).

(** The direction a role names, seen from the seed: lateral is away
    from the midline on the seed's side, anterior is +y, superior +z. *)
Definition roleDirection (seedPoint : point) (relativeRole : string)
    : point :=
  let side := if Qltb (c0 seedPoint) 0 then (-1)%Q else 1%Q in
  if String.eqb relativeRole LATERAL_OF_RELATIVE_ROLE then pt side 0 0
  else if String.eqb relativeRole MEDIAL_OF_RELATIVE_ROLE
  then pt (- side) 0 0
  else if String.eqb relativeRole ANTERIOR_OF_RELATIVE_ROLE then pt 0 1 0
  else if String.eqb relativeRole POSTERIOR_OF_RELATIVE_ROLE
  then pt 0 (-1) 0
  else if String.eqb relativeRole SUPERIOR_OF_RELATIVE_ROLE then pt 0 0 1
  else if String.eqb relativeRole INFERIOR_OF_RELATIVE_ROLE
  then pt 0 0 (-1)
  else pt 0 0 0.

(** The reading of the specification: the discretized curve is the
    polyline through its points, and the reference point is a point of
    the ray at least distance from one of the polyline's segments. *)
Definition onSegment (q a b : point) : Prop :=
  exists s : Q, (0 <= s <= 1)%Q /\
    veq q (vtkMath_Add a (vtkMath_MultiplyScalar (vtkMath_Subtract b a) s)).

Definition onPolyline (q : point) (polyline : list point) : Prop :=
  exists (i : nat) (a b : point),
    polyline !! i = Some a /\ polyline !! S i = Some b /\ onSegment q a b.

Definition onRay (r seedPoint direction : point) : Prop :=
  exists s : Q, (0 <= s)%Q /\
    veq r (vtkMath_Add seedPoint (vtkMath_MultiplyScalar direction s)).

Definition rayPolylineNearestPoint (seedPoint direction : point)
    (polyline : list point) (r : point) : Prop :=
  onRay r seedPoint direction /\
  exists q, onPolyline q polyline /\
    forall r' q', onRay r' seedPoint direction -> onPolyline q' polyline ->
      (vtkMath_Distance2BetweenPoints r q
       <= vtkMath_Distance2BetweenPoints r' q')%Q.

(** ** Invariants and frames *)

(** [P] holds in the state a computation ends in, whether it returns or
    raises, when it held at the start. *)
Definition inv {S A} (P : S -> Prop) (c : py S A) : Prop :=
  forall s, P s -> P (finalState (c s)).

(** The node with ID [seed] is [node]. *)
Definition frozen (seed : nat) (node : mrmlNode) (l : logic) : Prop :=
  GetNodeByID (mrmlScene l) seed = Some node.

(** The write changes nothing of a node but its control points. *)
Definition writesPoints (f : mrmlNode -> mrmlNode) : Prop :=
  forall n, exists cps, f n = set_controlPoints cps n.


(** ** A worked scene *)

Definition exampleNode (id : nat) (cls name : string)
    (attrs : list (string * string)) (refs : list (string * nat))
    (points : list point) (mesh : option polyData) : mrmlNode :=
  {| nodeID := id; className := cls; nodeName := name;
     attributes := attrs; references := refs;
     controlPoints := points; curvePoints := points;
     planeOrigin := vzero; planeNormal := vzero;
     modelPolyData := mesh; display := None;
     curveType := ""; toolName := ""; continuousUpdate := false;
     text := Parsed [] |}.

(** Parcel P with seed 1, borders A (2) and B (3), output model 4 and
    job 5; the seed is anterior_of A and medial_of B. *)
Definition exampleNodes (seedAttrs : list (string * string))
    (seedPoints pointsA pointsB : list point) : list mrmlNode :=
  [ exampleNode 0 "vtkMRMLScriptedModuleNode" "Parcellation" []
      [(TOOL_NODE_REFERENCE, 5)] [] None;
    exampleNode 1 "vtkMRMLMarkupsFiducialNode" "P_SeedPoints" seedAttrs
      [("Relative.anterior_of", 2); ("Relative.medial_of", 3)] seedPoints
      None;
    exampleNode 2 "vtkMRMLMarkupsCurveNode" "A" []
      [(RELATIVE_NODE_REFERENCE, 1)] pointsA None;
    exampleNode 3 "vtkMRMLMarkupsCurveNode" "B" []
      [(RELATIVE_NODE_REFERENCE, 1)] pointsB None;
    exampleNode 4 "vtkMRMLModelNode" "P" [] [] []
      (Some (PolyData [pt 1 1 1] [] ["cellPedigree"]));
    exampleNode 5 "vtkMRMLDynamicModelerNode" "P_BoundaryCut" []
      [(BOUNDARY_CUT_OUTPUT_MODEL_REFERENCE, 4);
       (BOUNDARY_CUT_INPUT_SEED_REFERENCE, 1);
       (BOUNDARY_CUT_INPUT_BORDER_REFERENCE, 2);
       (BOUNDARY_CUT_INPUT_BORDER_REFERENCE, 3)] [] None ].

Definition exampleLogic (seedAttrs : list (string * string))
    (seedPoints pointsA pointsB : list point) : logic :=
  {| mrmlScene :=
       Scene (exampleNodes seedAttrs seedPoints pointsA pointsB) 6 [];
     parameterNode := Some 0; queryFile := Parsed [];
     origPointLocator := Some [pt 0 0 0; pt 1 0 5];
     updatingSeedNodes := false; solverRuns := []; errorDisplay := [] |}.

Definition placedByHand : list (string * string) :=
  [(MANUALLY_PLACED_ATTRIBUTE_NAME, "TRUE")].







(** A seed (node 1) anterior_of a plane marker (node 2) through (0,3,0)
    with normal (0,1,0). *)
Definition seedAndPlane (seedPoints : list point) : logic :=
  {| mrmlScene :=
       Scene
         [ exampleNode 1 "vtkMRMLMarkupsFiducialNode" "P_SeedPoints" []
             [("Relative.anterior_of", 2)] seedPoints None;
           {| nodeID := 2; className := "vtkMRMLMarkupsPlaneNode";
              nodeName := "A"; attributes := [];
              references := [(RELATIVE_NODE_REFERENCE, 1)];
              controlPoints := [pt 0 3 0]; curvePoints := [];
              planeOrigin := pt 0 3 0; planeNormal := pt 0 1 0;
              modelPolyData := None; display := None;
              curveType := ""; toolName := ""; continuousUpdate := false;
              text := Parsed [] |} ] 3 [];
     parameterNode := None; queryFile := Parsed [];
     origPointLocator := None;
     updatingSeedNodes := false; solverRuns := []; errorDisplay := [] |}.

(** The control points of the seed after the position update. *)
Definition seedAfterUpdate (seedPoints : list point) : option (list point) :=
  controlPoints <$>
    GetNodeByID
      (mrmlScene
         (finalState
            (updateRelativeSeedPosition 1 (Some 2) ANTERIOR_OF_RELATIVE_ROLE
               (seedAndPlane seedPoints)))) 1.

(** ** Kinds of nodes and weighted curves *)

(** The nodes keep their identity, class and name. *)
Definition sameKind (a b : mrmlNode) : Prop :=
  nodeID a = nodeID b /\ className a = className b /\ nodeName a = nodeName b.

Definition keepsKind (f : mrmlNode -> mrmlNode) : Prop :=
  forall n, sameKind (f n) n.


(** The parameter node alone. *)
Definition emptyScene : scene :=
  Scene [newNode 0 "vtkMRMLScriptedModuleNode" "Parcellation"] 1 [].

Definition DWF : string := "DistanceWeightingFunction".

(** The node with ID [id] is a curve marker named after [name] (it
    carries the name, or the name with the index the host gave it) and
    has the weighting function as its attribute. *)
Definition weightedMarker (sc : scene) (id : nat) (name w : string) : Prop :=
  exists n, In n (nodes sc)
    /\ nodeID n = id
    /\ (exists nameIndex, nodeName n = BuildName name nameIndex)
    /\ IsA n "vtkMRMLMarkupsCurveNode" = true
    /\ GetAttribute n DWF = Some w.

(** Some curve marker of the scene is named after [name] and has the
    weighting function as its attribute. *)
Definition weightedCurve (sc : scene) (name w : string) : Prop :=
  exists id, weightedMarker sc id name w.

(** Method calls that keep the kind of a node and a weighting attribute
    equal to [w]. *)
Definition keepsWeight (w : string) (f : mrmlNode -> mrmlNode) : Prop :=
  keepsKind f /\
  forall n, GetAttribute n DWF = Some w -> GetAttribute (f n) DWF = Some w.

Definition curveClass (cls : string) : Prop :=
  cls = "vtkMRMLMarkupsCurveNode" \/ cls = "vtkMRMLMarkupsClosedCurveNode".

(** ** Worked scripts *)

(** The script of the specification, all on line 1:
    _DistanceWeightingFunction = "a"; _Curves=[X];
    _DistanceWeightingFunction="b"; _Curves=[Y] *)
Definition weightingScript : script := Parsed
  [ ast_Assign [ast_Name "_DistanceWeightingFunction"] (ast_Str "a") 1;
    ast_Assign [ast_Name "_Curves"] (ast_List [ast_Name "X"]) 1;
    ast_Assign [ast_Name "_DistanceWeightingFunction"] (ast_Str "b") 1;
    ast_Assign [ast_Name "_Curves"] (ast_List [ast_Name "Y"]) 1 ].

Definition attributeOf (sc : scene) (name key : string) : option string :=
  getNode sc name ≫= (fun n => GetAttribute n key).

Definition isCallStatement (node : ast) : Prop :=
  match node with
  | ast_Expr (ast_Call _ _ _) => True
  | _ => False
  end.

(** A parameter node (0) whose query node (1) holds the script. *)
Definition logicWithQuery (queryString : script) : logic :=
  {| mrmlScene :=
       Scene [ exampleNode 0 "vtkMRMLScriptedModuleNode" "Parcellation" []
                 [(INPUT_QUERY_REFERENCE, 1)] [] None;
               set_text queryString
                 (newNode 1 "vtkMRMLTextNode" "ParcellationQuery") ] 2 [];
     parameterNode := Some 0; queryFile := queryString;
     origPointLocator := None; updatingSeedNodes := false;
     solverRuns := []; errorDisplay := [] |}.

Definition scriptS1 : script := Parsed
  [ ast_Assign [ast_Name "_Planes"] (ast_List [ast_Name "A"]) 1;
    ast_Assign [ast_Name "P"] (ast_Name "A") 2 ].

Definition scriptS2 : script := Parsed
  [ ast_Assign [ast_Name "_Planes"] (ast_List [ast_Name "B"]) 1;
    ast_Assign [ast_Name "Q"] (ast_Name "B") 2 ].

Definition freshLogic : logic :=
  {| mrmlScene := emptyScene; parameterNode := Some 0;
     queryFile := Parsed []; origPointLocator := None;
     updatingSeedNodes := false; solverRuns := []; errorDisplay := [] |}.

(** The names of the nodes the parameter node references in a role. *)
Definition referencedNames (l : logic) (role : string) : list string :=
  match parameterNode l ≫= GetNodeByID (mrmlScene l) with
  | None => []
  | Some p =>
      omap (fun id => nodeName <$> GetNodeByID (mrmlScene l) id)
           (referenceIDs p role)
  end.

(** ** Scenes, writes, statements and jobs *)

(** The roles whose violation is read off the sign of the difference. *)
Definition signedRoles : list string :=
  [ ANTERIOR_OF_RELATIVE_ROLE; POSTERIOR_OF_RELATIVE_ROLE;
    SUPERIOR_OF_RELATIVE_ROLE; INFERIOR_OF_RELATIVE_ROLE ].

Definition keepsID (f : mrmlNode -> mrmlNode) : Prop :=
  forall n, nodeID (f n) = nodeID n.

Definition isUpdating (l : logic) : Prop := updatingSeedNodes l = true.

(** A computation that, started while the flag is set, ends with the flag
    put back to [was] when it returns and still set when it raises. *)
Definition resetsUpdating (was : bool) (c : py logic unit) : Prop :=
  forall l, isUpdating l ->
    match c l with
    | Return _ l' => updatingSeedNodes l' = was
    | Raise _ l' => isUpdating l'
    end.

(** A seed whose only constraint refers to a node that is gone. *)
Definition danglingConstraint : logic :=
  {| mrmlScene :=
       Scene [ exampleNode 1 "vtkMRMLMarkupsFiducialNode" "P_SeedPoints" []
                 [("Relative.anterior_of", 7)] [] None ] 8 [];
     parameterNode := None; queryFile := Parsed [];
     origPointLocator := None;
     updatingSeedNodes := false; solverRuns := []; errorDisplay := [] |}.

(** Everything of a node but its attributes, references, display, curve
    type, tool name and update flag. *)
Definition sameContent (a b : mrmlNode) : Prop :=
  nodeID a = nodeID b /\ className a = className b /\ nodeName a = nodeName b
  /\ controlPoints a = controlPoints b
  /\ modelPolyData a = modelPolyData b
  /\ text a = text b.

(** What the visitor writes to a node: the content stays, and so do the
    references of the query text node. *)
Definition visitorWrite (f : mrmlNode -> mrmlNode) : Prop :=
  forall n, sameContent (f n) n
    /\ referenceIDs (f n) INPUT_QUERY_REFERENCE
       = referenceIDs n INPUT_QUERY_REFERENCE.

(** The node with ID [id] is still there, with the content of [n]. *)
Definition keeps (id : nat) (n : mrmlNode) (sc : scene) : Prop :=
  exists n', GetNodeByID sc id = Some n' /\ sameContent n' n.

(** The names the visitor reserves for declarations. *)
Definition markerDeclarations : list string :=
  ["_Planes"; "_Curves"; "_ClosedCurves"].

Definition reservedNames : list string :=
  ["_Planes"; "_Curves"; "_ClosedCurves"; "_DistanceWeightingFunction"].

(** The forms for which the visitor means to log an error and go on. *)
Inductive reportedForm : ast -> Prop :=
| severalTargets targets value lineno :
    (1 < length targets)%nat ->
    reportedForm (ast_Assign targets value lineno)
| targetNotAName target value lineno :
    (forall id, target <> ast_Name id) ->
    reportedForm (ast_Assign [target] value lineno)
| markersNotAList id value lineno :
    In id markerDeclarations ->
    (forall elts, value <> ast_List elts) ->
    reportedForm (ast_Assign [ast_Name id] value lineno)
| unaryOperator operand :
    reportedForm (ast_UnaryOp operand)
| parcelOfUnaryOperator id operand lineno :
    ~ In id reservedNames ->
    reportedForm (ast_Assign [ast_Name id] (ast_UnaryOp operand) lineno).

(** The right-hand side of a parcel: marker names joined by a binary
    operator, [A | B | C]. *)
Inductive borders :=
| Border (name : string)
| Union (leftBorders rightBorders : borders).

Fixpoint borderAst (b : borders) : ast :=
  match b with
  | Border name => ast_Name name
  | Union l r => ast_BinOp (borderAst l) (borderAst r)
  end.

(** The names from left to right. *)
Fixpoint borderNames (b : borders) : list string :=
  match b with
  | Border name => [name]
  | Union l r => (borderNames l ++ borderNames r)%list
  end.

(** The nodes [slicer.util.getNode] finds for the names, in order, or the
    exception for the first name it finds no node for. *)
Fixpoint lookupAll (sc : scene) (names : list string) : pyexc + list nat :=
  match names with
  | [] => inr []
  | name :: rest =>
      match getNode sc name with
      | None => inl (MRMLNodeNotFoundException name)
      | Some node =>
          match lookupAll sc rest with
          | inl e => inl e
          | inr ids => inr (nodeID node :: ids)
          end
      end
  end.

Definition countClass (cls : string) (sc : scene) : nat :=
  length (List.filter (fun n => String.eqb (className n) cls) (nodes sc)).

(** When the computation returns, [k] nodes of the class have been added. *)
Definition adds (cls : string) (k : nat) {A} (c : py visitor A) : Prop :=
  forall v r v', c v = Return r v' ->
    countClass cls (v_scene v') = (k + countClass cls (v_scene v))%nat.

Definition DynamicModelerNode : string := "vtkMRMLDynamicModelerNode".

(** The scene after loading the same script twice. *)
Definition loadedTwice : logic :=
  finalState
    (loadQuery
       (finalState (loadQuery (set_queryFile scriptS1 freshLogic)))).

(** The host gives every node an ID of its own, below the next one. *)
Definition wellFormed (sc : scene) : Prop :=
  NoDup (nodeID <$> nodes sc)
  /\ Forall (fun n => (nodeID n < nextID sc)%nat) (nodes sc).

(** The parameter node [p] refers to the text node [qid] first. *)
Definition queryNodeIs (p qid : nat) (sc : scene) : Prop :=
  exists pn qn,
    GetNodeByID sc p = Some pn
    /\ referenceIDs pn INPUT_QUERY_REFERENCE !! 0 = Some qid
    /\ GetNodeByID sc qid = Some qn.

(** ... and the text node holds the script. *)
Definition queryStored (p qid : nat) (file : script) (sc : scene) : Prop :=
  exists pn qn,
    GetNodeByID sc p = Some pn
    /\ referenceIDs pn INPUT_QUERY_REFERENCE !! 0 = Some qid
    /\ GetNodeByID sc qid = Some qn
    /\ text qn = file.

(** The scene [loadQuery] hands to the interpreter, and the text node. *)
Definition queryNodeOf (p : nat) (sc : scene) : nat :=
  match GetNodeByID sc p ≫=
          (fun n => GetNodeReference sc n INPUT_QUERY_REFERENCE) with
  | Some queryNode => nodeID queryNode
  | None => nextID sc
  end.

Definition sceneWithQueryNode (p : nat) (sc : scene) : scene :=
  match GetNodeByID sc p ≫=
          (fun n => GetNodeReference sc n INPUT_QUERY_REFERENCE) with
  | Some queryNode => sc
  | None =>
      updateNode (SetNodeReferenceID INPUT_QUERY_REFERENCE (nextID sc)) p
        (AddNewNodeByClass sc "vtkMRMLTextNode" "ParcellationQuery").1
  end.

Definition sceneBeforeParsing (p : nat) (file : script) (sc : scene)
    : scene :=
  let s1 := sceneWithQueryNode p sc in
  updateNode (RemoveNodeReferenceIDs OUTPUT_MODEL_REFERENCE) p
    (updateNode (RemoveNodeReferenceIDs INPUT_MARKUPS_REFERENCE) p
       (RemoveNode (nextID s1)
          (updateNode (set_text file) (queryNodeOf p sc)
             (AddNewNodeByClass s1 "vtkMRMLTextStorageNode" "TextStorage").1))).

(** The computation returns from [v], with a result and a state that
    satisfy [Post]. *)
Definition returns {S A} (c : py S A) (v : S) (Post : A -> S -> Prop)
    : Prop :=
  exists a v', c v = Return a v' /\ Post a v'.

(** The scene is well formed and has handed out the IDs below [base], the
    parameter node [p] has the references [refs], and no model node carries
    the name [job]. *)
Definition parcelState (p : nat) (refs : list (string * nat)) (job : string)
    (base : nat) (sc : scene) : Prop :=
  wellFormed sc
  /\ (base <= nextID sc)%nat
  /\ (exists pn, GetNodeByID sc p = Some pn /\ references pn = refs)
  /\ getFirstNodeByClassByName sc "vtkMRMLModelNode" job = None.

(** The node with the ID is in the scene, is of the class and has the
    name. *)
Definition present (cls name : string) (id : nat) (sc : scene) : Prop :=
  exists n, GetNodeByID sc id = Some n /\ IsA n cls = true /\ nodeName n = name.

(** A lookup by class and name finds a node of the same ID in both scenes,
    or none in both. *)
Definition sameFirst (cls name : string) (sc0 sc : scene) : Prop :=
  nodeID <$> getFirstNodeByClassByName sc cls name
  = nodeID <$> getFirstNodeByClassByName sc0 cls name.

(** The parameter node [p] has the references [refs], [om] is a model node
    named [omName], [seed] a fiducial node named [seedName], and the node
    with ID [tool] is [t]. *)
Definition wired (p : nat) (refs : list (string * nat))
    (omName seedName : string) (om seed tool : nat) (t : mrmlNode)
    (sc : scene) : Prop :=
  (exists pn, GetNodeByID sc p = Some pn /\ references pn = refs)
  /\ present "vtkMRMLModelNode" omName om sc
  /\ present "vtkMRMLMarkupsFiducialNode" seedName seed sc
  /\ GetNodeByID sc tool = Some t.

(** The job node a parcel declaration leaves behind, under the name the
    host gave it. *)
Definition boundaryCutJob (tool : nat) (jobName : string) (om seed : nat)
    (ids : list nat) : mrmlNode :=
  set_continuousUpdate false
    (foldl (fun n i =>
              AddNodeReferenceID BOUNDARY_CUT_INPUT_BORDER_REFERENCE i n)
       (SetNodeReferenceID BOUNDARY_CUT_INPUT_SEED_REFERENCE seed
          (SetNodeReferenceID BOUNDARY_CUT_OUTPUT_MODEL_REFERENCE om
             (set_toolName BoundaryCutToolName
                (newNode tool "vtkMRMLDynamicModelerNode" jobName))))
       ids).

(** The output model at position [k] is exported and its mesh lists the
    cell. *)
Definition covers (outputs : list (option outputSurface))
    (surfacesToExport : list string) (k cell : nat) : Prop :=
  exists surface cellPedigree,
    outputs !! k = Some (Some surface)
    /\ skipped surfacesToExport surface = false
    /\ surfaceCellPedigree surface = Some (Some cellPedigree)
    /\ In cell cellPedigree.

(** The scene of an export: three output models, the second without mesh;
    the first and the third share cell 1. *)
Definition overlappingOutputs : list (option outputSurface) :=
  [ Some (OutputSurface "P" (Some (Some [0; 1])));
    Some (OutputSurface "Q" None);
    Some (OutputSurface "R" (Some (Some [1; 2]))) ].

(** The parameter node and a plane marker A. *)
Definition planeScene : scene :=
  Scene [ newNode 0 "vtkMRMLScriptedModuleNode" "Parcellation";
          newNode 1 "vtkMRMLMarkupsPlaneNode" "A" ] 2 [].

(** No assignment in the tree has [_DistanceWeightingFunction] as its
    first target. *)
Fixpoint weightFree (node : ast) : bool :=
  match node with
  | ast_Module body => forallb weightFree body
  | ast_Assign targets value _ =>
      match targets with
      | ast_Name id :: _ =>
          negb (String.eqb id "_DistanceWeightingFunction")
      | _ => true
      end
      && weightFree value
  | ast_Expr value => weightFree value
  | ast_List elts => forallb weightFree elts
  | ast_BinOp leftValue rightValue =>
      weightFree leftValue && weightFree rightValue
  | ast_Other children => forallb weightFree children
  | ast_Name _ | ast_Str _ | ast_UnaryOp _ | ast_Call _ _ _ => true
  end.

(** A script with a parcel and planes between the weighting function and
    the curves. *)
Definition weightingPrefix : list ast :=
  [ ast_Assign [ast_Name "_DistanceWeightingFunction"] (ast_Str "a") 1;
    ast_Assign [ast_Name "_Planes"] (ast_List [ast_Name "A"]) 2;
    ast_Assign [ast_Name "P"] (ast_Name "A") 3;
    ast_Expr (ast_Call (ast_Name "f") [] 4) ].

(** A script whose second statement names a marker that was not
    declared. *)
Definition abortedScript : script := Parsed
  [ ast_Assign [ast_Name "_Planes"] (ast_List [ast_Name "A"]) 1;
    ast_Assign [ast_Name "P"] (ast_Name "missing") 2;
    ast_Assign [ast_Name "_Planes"] (ast_List [ast_Name "B"]) 3 ].

(** A parameter node (0) that refers to the orig surface (1). *)
Definition logicWithOrigModel : logic :=
  {| mrmlScene :=
       Scene [ exampleNode 0 "vtkMRMLScriptedModuleNode" "Parcellation" []
                 [(ORIG_MODEL_REFERENCE, 1)] [] None;
               exampleNode 1 "vtkMRMLModelNode" "lh.orig" [] [] []
                 (Some (PolyData [pt 0 0 0; pt 1 0 0; pt 0 1 0]
                          ["normals"] [])) ] 2 [];
     parameterNode := Some 0; queryFile := Parsed [];
     origPointLocator := None;
     updatingSeedNodes := false; solverRuns := []; errorDisplay := [] |}.

(** * Verification *)

Example initialSeedPoint_binary64 :
  @initialSeedPoint float Scalar_binary64
    [ [f3 0 0 0; f3 2 0 0]; [f3 0 0 10] ] = Some (f3 0.5 0 5).
Proof. vm_compute. reflexivity. Qed.

(** ** Rational vectors *)

Lemma Qltb_lt (x y : Q) : Qltb x y = true <-> (x < y)%Q.
Proof.
  unfold Qltb. rewrite negb_true_iff, <- not_true_iff_false, Qle_bool_iff.
  split; [apply Qnot_le_lt | apply Qlt_not_le].
Qed.

Lemma Qltb_ge (x y : Q) : Qltb x y = false <-> (y <= x)%Q.
Proof. unfold Qltb. rewrite negb_false_iff. apply Qle_bool_iff. Qed.

Lemma veq_refl a : veq a a.
Proof. unfold veq; repeat split; reflexivity. Qed.

Lemma veq_sym a b : veq a b -> veq b a.
Proof. unfold veq; intros (?&?&?); repeat split; symmetry; assumption. Qed.

Lemma veq_trans a b c : veq a b -> veq b c -> veq a c.
Proof.
  unfold veq; intros (?&?&?) (?&?&?); repeat split; etransitivity; eauto.
Qed.

#[export] Instance veq_equivalence : Equivalence veq.
Proof. split; [exact veq_refl | exact veq_sym | exact veq_trans]. Qed.

Ltac vsimpl :=
  cbn [c0 c1 c2 vtkMath_Add vtkMath_Subtract vtkMath_MultiplyScalar vscale
       s_add s_sub s_mul s_div s_of_Z Scalar_Q vzero] in *;
  change (inject_Z 0) with 0%Q in *.

(* componentwise goals over Q *)
Ltac vring :=
  unfold veq in *; vsimpl;
  repeat match goal with H : _ /\ _ |- _ => destruct H end;
  repeat split;
  repeat match goal with H : (_ == _)%Q |- _ => rewrite H; clear H end;
  try ring.

#[export] Instance vtkMath_Add_proper :
  Proper (veq ==> veq ==> veq) (@vtkMath_Add Q _).
Proof. intros [] [] ? [] [] ?. vring. Qed.

#[export] Instance vscale_proper k : Proper (veq ==> veq) (vscale k).
Proof. intros [] [] ?. vring. Qed.

Lemma vsum_cons (p : point) (l : list point) :
  vsum (p :: l) = vtkMath_Add p (vsum l).
Proof. reflexivity. Qed.

(** ** Nodes of the scene and loops over indices *)

Lemma GetNodeByID_updateNode_ne (f : mrmlNode -> mrmlNode) (id seed : nat)
    (sc : scene) :
  id <> seed -> (forall n, nodeID (f n) = nodeID n) ->
  GetNodeByID (updateNode f id sc) seed = GetNodeByID sc seed.
Proof.
  intros Hne Hid. unfold GetNodeByID, updateNode. cbn [nodes].
  induction (nodes sc) as [|n ns IH]; [reflexivity|].
  cbn [fmap list_fmap List.find].
  change (list_fmap _ _ ?g ns) with (g <$> ns). rewrite IH.
  destruct (Nat.eqb_spec (nodeID n) id) as [E|E].
  - rewrite Hid.
    destruct (Nat.eqb_spec (nodeID n) seed); [congruence|reflexivity].
  - reflexivity.
Qed.

Lemma GetNodeByID_nodeID (sc : scene) (id : nat) (n : mrmlNode) :
  GetNodeByID sc id = Some n -> nodeID n = id.
Proof.
  unfold GetNodeByID. intros H. apply find_some in H.
  destruct H as [_ H]. apply Nat.eqb_eq in H. exact H.
Qed.

Lemma GetNodeByID_updateNode_eq (f : mrmlNode -> mrmlNode) (id : nat)
    (sc : scene) (n : mrmlNode) :
  (forall n, nodeID (f n) = nodeID n) ->
  GetNodeByID sc id = Some n ->
  GetNodeByID (updateNode f id sc) id = Some (f n).
Proof.
  intros Hid. unfold GetNodeByID, updateNode. cbn [nodes].
  induction (nodes sc) as [|m ns IH]; [discriminate|].
  cbn [fmap list_fmap List.find].
  change (list_fmap _ _ ?g ns) with (g <$> ns).
  destruct (Nat.eqb_spec (nodeID m) id) as [E|E].
  - rewrite Hid. destruct (Nat.eqb_spec (nodeID m) id); [|contradiction].
    intros [= <-]. reflexivity.
  - destruct (Nat.eqb_spec (nodeID m) id); [contradiction|]. exact IH.
Qed.

Lemma GetNodeByID_updateNode (f : mrmlNode -> mrmlNode) (id x : nat)
    (sc : scene) :
  keepsID f ->
  GetNodeByID (updateNode f id sc) x =
  (fun n => if Nat.eqb (nodeID n) id then f n else n) <$> GetNodeByID sc x.
Proof.
  intros Hid. destruct (GetNodeByID sc x) as [n|] eqn:E.
  - destruct (Nat.eq_dec id x) as [->|Hne].
    + rewrite (GetNodeByID_updateNode_eq f x sc n Hid E).
      cbn. rewrite (GetNodeByID_nodeID _ _ _ E), Nat.eqb_refl. reflexivity.
    + rewrite (GetNodeByID_updateNode_ne f id x sc Hne Hid), E. cbn.
      rewrite (GetNodeByID_nodeID _ _ _ E).
      destruct (Nat.eqb_spec x id); [congruence|reflexivity].
  - destruct (Nat.eq_dec id x) as [->|Hne].
    + unfold GetNodeByID, updateNode in *. cbn [nodes].
      induction (nodes sc) as [|m ns IH]; [reflexivity|].
      cbn [List.find fmap list_fmap] in *.
      change (list_fmap _ _ ?g ns) with (g <$> ns).
      destruct (Nat.eqb_spec (nodeID m) x) as [E1|E1]; [discriminate|].
      destruct (Nat.eqb_spec (nodeID m) x); [contradiction|]. apply IH, E.
    + rewrite (GetNodeByID_updateNode_ne f id x sc Hne Hid), E. reflexivity.
Qed.

Lemma snap_fold_lookup (F : point -> point) (m k : nat) (cps : list point)
    (j : nat) :
  foldl (fun cps i => <[i := F (default vzero (cps !! i))]> cps) cps (seq k m)
    !! j
  = if decide (k <= j < k + m)%nat then F <$> cps !! j else cps !! j.
Proof.
  revert k cps. induction m as [|m IH]; intros k cps.
  - cbn [seq foldl]. destruct (decide _); [lia | reflexivity].
  - cbn [seq foldl]. rewrite IH.
    destruct (Nat.eq_dec j k) as [->|Hne].
    + destruct (decide (S k <= k < S k + m)%nat); [lia|].
      destruct (decide (k <= k < k + S m)%nat); [|lia].
      destruct (cps !! k) as [p|] eqn:Hp.
      * cbn [default from_option id fmap option_fmap option_map].
        apply list_lookup_insert_eq. apply lookup_lt_Some in Hp. exact Hp.
      * cbn [fmap option_fmap option_map]. apply lookup_ge_None.
        rewrite length_insert. apply lookup_ge_None in Hp. exact Hp.
    + rewrite list_lookup_insert_ne by congruence.
      destruct (decide (S k <= j < S k + m)%nat),
               (decide (k <= j < k + S m)%nat); try lia; reflexivity.
Qed.

Lemma snap_fold (F : point -> point) (cps : list point) :
  foldl (fun cps i => <[i := F (default vzero (cps !! i))]> cps) cps
    (seq 0 (length cps))
  = F <$> cps.
Proof.
  apply list_eq. intros j. rewrite snap_fold_lookup, list_lookup_fmap.
  destruct (decide _) as [|Hn]; [reflexivity|].
  assert (Hj : (length cps <= j)%nat) by lia.
  rewrite (proj2 (lookup_ge_None cps j) Hj). reflexivity.
Qed.

(** ** Seed initialization *)

Lemma averagePointLoop_sum (points : list point) (k : Q) (acc : point) :
  veq (averagePointLoop points k acc)
      (vtkMath_Add acc (vscale k (vsum points))).
Proof.
  revert acc; induction points as [|[] points IH]; intros [].
  - cbn [averagePointLoop vsum fold_right]. vring.
  - cbn [averagePointLoop]. rewrite IH, vsum_cons.
    destruct (vsum points). vring.
Qed.

Lemma averagePointLoop_centroid (points : list point) :
  veq (averagePointLoop points (weight (length points)) vzero)
      (centroid points).
Proof.
  rewrite averagePointLoop_sum. unfold centroid.
  destruct (vscale _ _). vring.
Qed.

Lemma seedPointLoop_cons (m : list point) ms (k : Q) (acc : point) :
  seedPointLoop (m :: ms) k acc =
  if hasPoints m
  then seedPointLoop ms k
         (vtkMath_Add
            (vtkMath_MultiplyScalar
               (averagePointLoop m (weight (length m)) vzero) k) acc)
  else seedPointLoop ms k acc.
Proof.
  unfold hasPoints. cbn [seedPointLoop].
  destruct (Nat.eqb (length m) 0); reflexivity.
Qed.

Lemma seedPointLoop_sum (markers : list (list point)) (k : Q) (acc : point) :
  veq (seedPointLoop markers k acc)
      (vtkMath_Add acc
         (vscale k (vsum (centroid <$> List.filter hasPoints markers)))).
Proof.
  revert acc; induction markers as [|m markers IH]; intros acc.
  - destruct acc.
    cbn [seedPointLoop List.filter fmap list_fmap vsum fold_right]. vring.
  - rewrite seedPointLoop_cons. cbn [List.filter].
    destruct (hasPoints m); [|apply IH].
    rewrite IH, fmap_cons, vsum_cons.
    pose proof (averagePointLoop_centroid m) as Hc.
    destruct (averagePointLoop m (weight (length m)) vzero),
             (centroid m), (vsum (centroid <$> _)), acc.
    vring.
Qed.

(** What [initializeSeedNode] computes for any markers: the sum of the
    centroids of the markers that have points, divided by the number of
    all markers. *)
Lemma initialSeedPoint_value (markers : list (list point)) :
  markers <> [] ->
  exists p, initialSeedPoint markers = Some p /\
    veq p (vscale (weight (length markers))
             (vsum (centroid <$> List.filter hasPoints markers))).
Proof.
  intros Hne. unfold initialSeedPoint.
  destruct markers as [|m ms]; [contradiction|].
  cbn [length Nat.eqb]. eexists; split; [reflexivity|].
  rewrite seedPointLoop_sum.
  change (s_div (s_of_Z 1) (s_of_Z (Z.of_nat (S (length ms)))))
    with (weight (S (length ms))).
  destruct (vscale _ _). vring.
Qed.

Lemma filter_hasPoints_all (markers : list (list point)) :
  Forall (fun m => m <> []) markers ->
  List.filter hasPoints markers = markers.
Proof.
  induction 1 as [|m ms Hm _ IH]; [reflexivity|].
  cbn [List.filter]. destruct m; [contradiction|].
  cbn. rewrite IH. reflexivity.
Qed.

Lemma allRelativeNodes_reads_roles (seedNode : nat) (roles : list string)
    (l : logic) :
  allRelativeNodes seedNode roles l =
  Return
    match GetNodeByID (mrmlScene l) seedNode with
    | None => []
    | Some n =>
        concat ((fun relativeRole =>
                   nodeReferences (mrmlScene l) n
                     (RELATIVE_NODE_REFERENCE ++ "." ++ relativeRole))
                <$> roles)
    end l.
Proof.
  induction roles as [|relativeRole roles IH].
  - destruct (GetNodeByID (mrmlScene l) seedNode); reflexivity.
  - cbn [allRelativeNodes].
    unfold mbind, py_bind, mret, py_ret, getRelativeNodesOfRole.
    revert IH. destruct (GetNodeByID (mrmlScene l) seedNode); intros IH;
      cbv beta iota; rewrite IH; reflexivity.
Qed.

Lemma allRelativeNodes_reads (seedNode : nat) (l : logic) :
  allRelativeNodes seedNode RELATIVE_SEED_ROLES l =
  Return (relativeNodesOf (mrmlScene l) seedNode) l.
Proof. apply allRelativeNodes_reads_roles. Qed.

Lemma relativeControlPoints_reads (relativeNodes : list (option nat))
    (l : logic) (pointLists : list (list point)) :
  markerPoints (mrmlScene l) relativeNodes = Some pointLists ->
  relativeControlPoints relativeNodes l = Return pointLists l.
Proof.
  revert pointLists; induction relativeNodes as [|r rest IH];
    intros pointLists Hm.
  - injection Hm as <-. reflexivity.
  - cbn [markerPoints] in Hm. cbn [relativeControlPoints].
    unfold mbind at 1, py_bind at 1, theNode.
    destruct (r ≫= GetNodeByID (mrmlScene l)) as [n|]; [|discriminate].
    cbn [mbind option_bind] in Hm.
    destruct (markerPoints (mrmlScene l) rest) as [others|]; [|discriminate].
    injection Hm as <-.
    unfold mbind, py_bind. rewrite (IH others eq_refl). reflexivity.
Qed.

(** [initializeSeedNode] on a seed whose relative nodes all resolve: the
    point of [initialSeedPoint] becomes a control point of the seed. *)
Lemma initializeSeedNode_adds (seedNode : nat) (l : logic)
    (pointLists : list (list point)) (p : point) :
  markerPoints (mrmlScene l) (relativeNodesOf (mrmlScene l) seedNode)
    = Some pointLists ->
  initialSeedPoint pointLists = Some p ->
  initializeSeedNode seedNode l =
  Return tt (set_mrmlScene
               (updateNode (addControlPoint p) seedNode (mrmlScene l)) l).
Proof.
  intros Hm Hp. unfold initializeSeedNode.
  unfold mbind at 1, py_bind at 1. rewrite allRelativeNodes_reads.
  destruct (relativeNodesOf (mrmlScene l) seedNode) as [|r rest] eqn:E.
  - injection Hm as <-. discriminate.
  - cbn [length Nat.eqb].
    unfold mbind, py_bind.
    rewrite (relativeControlPoints_reads _ _ _ Hm), Hp. reflexivity.
Qed.

(** [initializeSeedNode] on a seed whose relative nodes all resolve: the
    seed in the scene gets the point of [initialSeedPoint] as one more
    control point, and no other node changes. *)
Lemma initializeSeedNode_places (seedNode : nat) (l : logic)
    (pointLists : list (list point)) :
  markerPoints (mrmlScene l) (relativeNodesOf (mrmlScene l) seedNode)
    = Some pointLists ->
  pointLists <> [] ->
  exists seed p l',
    GetNodeByID (mrmlScene l) seedNode = Some seed
    /\ initialSeedPoint pointLists = Some p
    /\ initializeSeedNode seedNode l = Return tt l'
    /\ controlPoints <$> GetNodeByID (mrmlScene l') seedNode
       = Some (controlPoints seed ++ [p])%list
    /\ (forall other, other <> seedNode ->
          GetNodeByID (mrmlScene l') other = GetNodeByID (mrmlScene l) other).
Proof.
  intros Hm Hne.
  destruct (GetNodeByID (mrmlScene l) seedNode) as [seed|] eqn:Hseed.
  2:{ unfold relativeNodesOf in Hm. rewrite Hseed in Hm.
      injection Hm as <-. contradiction. }
  destruct (initialSeedPoint_value pointLists Hne) as (p & Hp & _).
  exists seed, p. eexists. split; [reflexivity|]. split; [exact Hp|].
  split; [exact (initializeSeedNode_adds _ _ _ _ Hm Hp)|].
  cbn [mrmlScene set_mrmlScene]. split.
  - rewrite (GetNodeByID_updateNode_eq _ _ _ seed) by (reflexivity || exact Hseed).
    reflexivity.
  - intros other Hother. apply GetNodeByID_updateNode_ne; [congruence|].
    reflexivity.
Qed.

(** C4. Seed initialization is a two-level equal-weight mean: when every
    referenced marker has control points, the seed in the scene gets one
    more control point, the mean, with equal weight per constraint, of
    the markers' centroids, each an equal-weight mean of the marker's
    points; no other node changes.  In a scene whose seed has no control
    point and is constrained by a 2-point marker at (0,0,0),(2,0,0) and a
    1-point marker at (0,0,10), the seed ends with the one control point
    (0.5, 0, 5), which is not the flat 3-point mean. *)
Theorem initializeSeedNode_two_level_mean :
  (forall (seedNode : nat) (l : logic) (pointLists : list (list point)),
     markerPoints (mrmlScene l) (relativeNodesOf (mrmlScene l) seedNode)
       = Some pointLists ->
     pointLists <> [] ->
     Forall (fun m => m <> []) pointLists ->
     exists seed p l',
       GetNodeByID (mrmlScene l) seedNode = Some seed
       /\ initializeSeedNode seedNode l = Return tt l'
       /\ controlPoints <$> GetNodeByID (mrmlScene l') seedNode
          = Some (controlPoints seed ++ [p])%list
       /\ veq p (twoLevelMean pointLists)
       /\ (forall other, other <> seedNode ->
             GetNodeByID (mrmlScene l') other
             = GetNodeByID (mrmlScene l) other))
  /\ (exists p l',
        initializeSeedNode 1
          (exampleLogic [] [] [pt 0 0 0; pt 2 0 0] [pt 0 0 10])
        = Return tt l'
        /\ controlPoints <$> GetNodeByID (mrmlScene l') 1 = Some [p]
        /\ veq p (pt (1 # 2) 0 5)
        /\ ~ veq p (flatMean [[pt 0 0 0; pt 2 0 0]; [pt 0 0 10]])).
Proof.
  split.
  - intros seedNode l pointLists Hm Hne Hall.
    destruct (initializeSeedNode_places seedNode l pointLists Hm Hne)
      as (seed & p & l' & Hseed & Hp & Hrun & Hpoints & Hothers).
    exists seed, p, l'. split; [exact Hseed|]. split; [exact Hrun|].
    split; [exact Hpoints|]. split; [|exact Hothers].
    destruct (initialSeedPoint_value pointLists Hne) as (p' & Hp' & Hv).
    rewrite Hp in Hp'. injection Hp' as <-.
    rewrite (filter_hasPoints_all _ Hall) in Hv. exact Hv.
  - eexists _, _. split; [vm_compute; reflexivity|].
    split; [vm_compute; reflexivity|]. split.
    + vm_compute. repeat split; reflexivity.
    + vm_compute. intros (H & _). discriminate H.
Qed.

(** C10. A marker without control points adds nothing to the sum and is
    still counted in the divisor: the control point the seed in the scene
    gets is the sum of the centroids of the markers that have points,
    divided by the number of all constraints.  In a scene whose seed is
    constrained by a 1-point marker at (2,0,0) and by a marker without
    points, the seed ends with the one control point (1,0,0), halfway to
    the origin. *)
Theorem initializeSeedNode_counts_empty_markers :
  (forall (seedNode : nat) (l : logic) (pointLists : list (list point)),
     markerPoints (mrmlScene l) (relativeNodesOf (mrmlScene l) seedNode)
       = Some pointLists ->
     pointLists <> [] ->
     exists seed p l',
       GetNodeByID (mrmlScene l) seedNode = Some seed
       /\ initializeSeedNode seedNode l = Return tt l'
       /\ controlPoints <$> GetNodeByID (mrmlScene l') seedNode
          = Some (controlPoints seed ++ [p])%list
       /\ veq p (vscale (weight (length pointLists))
                   (vsum (centroid <$> List.filter hasPoints pointLists)))
       /\ (forall other, other <> seedNode ->
             GetNodeByID (mrmlScene l') other
             = GetNodeByID (mrmlScene l) other))
  /\ (exists p l',
        initializeSeedNode 1 (exampleLogic [] [] [pt 2 0 0] [])
        = Return tt l'
        /\ controlPoints <$> GetNodeByID (mrmlScene l') 1 = Some [p]
        /\ veq p (pt 1 0 0)
        /\ ~ veq p (twoLevelMean [[pt 2 0 0]])).
Proof.
  split.
  - intros seedNode l pointLists Hm Hne.
    destruct (initializeSeedNode_places seedNode l pointLists Hm Hne)
      as (seed & p & l' & Hseed & Hp & Hrun & Hpoints & Hothers).
    exists seed, p, l'. split; [exact Hseed|]. split; [exact Hrun|].
    split; [exact Hpoints|]. split; [|exact Hothers].
    destruct (initialSeedPoint_value pointLists Hne) as (p' & Hp' & Hv).
    rewrite Hp in Hp'. injection Hp' as <-. exact Hv.
  - eexists _, _. split; [vm_compute; reflexivity|].
    split; [vm_compute; reflexivity|]. split.
    + vm_compute. repeat split; reflexivity.
    + vm_compute. intros (H & _). discriminate H.
Qed.

(** ** Directional correction *)

Section Correction.
Context {T : Type} `{Scalar T}.

Lemma correctedSeedPoint_spec relativeRole seedPoint referencePoint :
  correctedSeedPoint relativeRole seedPoint referencePoint =
  if violated relativeRole seedPoint referencePoint
  then Some (mirrored relativeRole seedPoint referencePoint)
  else None.
Proof.
  unfold correctedSeedPoint, invalidAxis, violated, mirrored, roleAxis.
  destruct (String.eqb_spec relativeRole LATERAL_OF_RELATIVE_ROLE)
    as [->|]; [cbn; destruct (s_ltb _ _); reflexivity|].
  destruct (String.eqb_spec relativeRole MEDIAL_OF_RELATIVE_ROLE)
    as [->|]; [cbn; destruct (s_ltb _ _); reflexivity|].
  destruct (String.eqb_spec relativeRole ANTERIOR_OF_RELATIVE_ROLE)
    as [->|]; [cbn; destruct (s_ltb _ _); reflexivity|].
  destruct (String.eqb_spec relativeRole POSTERIOR_OF_RELATIVE_ROLE)
    as [->|]; [cbn; destruct (s_ltb _ _); reflexivity|].
  destruct (String.eqb_spec relativeRole SUPERIOR_OF_RELATIVE_ROLE)
    as [->|]; [cbn; destruct (s_ltb _ _); reflexivity|].
  destruct (String.eqb_spec relativeRole INFERIOR_OF_RELATIVE_ROLE)
    as [->|]; [cbn; destruct (s_ltb _ _); reflexivity|].
  reflexivity.
Qed.

Lemma mirrored_agreeOutside relativeRole seedPoint referencePoint :
  agreeOutside (roleAxis relativeRole)
    (mirrored relativeRole seedPoint referencePoint) seedPoint.
Proof.
  unfold mirrored, agreeOutside, roleAxis.
  destruct (_ || _); [cbn; tauto|].
  destruct (_ || _); cbn; tauto.
Qed.

End Correction.

(** One iteration of the loop of [updateRelativeSeedPosition]: the
    control point at the index is replaced by its correction. *)
Lemma updateRelativeSeedPositionAt_writes (l : logic) (seedNode rel : nat)
    (seed relativeNode : mrmlNode) (relativeRole : string) (i : nat) :
  GetNodeByID (mrmlScene l) seedNode = Some seed ->
  GetNodeByID (mrmlScene l) rel = Some relativeNode ->
  rel <> seedNode ->
  exists l1 seed1,
    updateRelativeSeedPositionAt seedNode (Some rel) relativeRole i l
    = Return tt l1
    /\ GetNodeByID (mrmlScene l1) seedNode = Some seed1
    /\ controlPoints seed1
       = <[i := correctedAgainst relativeNode relativeRole
                  (default vzero (controlPoints seed !! i))]>
           (controlPoints seed)
    /\ (forall other, other <> seedNode ->
          GetNodeByID (mrmlScene l1) other = GetNodeByID (mrmlScene l) other).
Proof.
  intros Hseed Hrel Hne. unfold updateRelativeSeedPositionAt.
  unfold mbind at 1, py_bind at 1, theNode at 1.
  cbn [mbind option_bind]. rewrite Hseed.
  unfold mbind at 1, py_bind at 1, theNode at 1.
  cbn [mbind option_bind]. rewrite Hrel.
  cbv zeta. unfold correctedAgainst. rewrite correctedSeedPoint_spec.
  set (p := default vzero (controlPoints seed !! i)).
  destruct (violated relativeRole p
              (closestPointOn relativeNode relativeRole p)).
  - eexists _, _. split; [reflexivity|]. cbn [mrmlScene set_mrmlScene].
    split; [apply GetNodeByID_updateNode_eq; [reflexivity | exact Hseed]|].
    split; [reflexivity|].
    intros other Hother.
    apply GetNodeByID_updateNode_ne; [congruence | reflexivity].
  - exists l, seed. split; [reflexivity|]. split; [exact Hseed|].
    split; [|reflexivity].
    subst p. destruct (controlPoints seed !! i) as [q|] eqn:E.
    + symmetry. apply list_insert_id, E.
    + symmetry. apply list_insert_ge, lookup_ge_None, E.
Qed.

Lemma updateRelativeSeedPosition_loop (indices : list nat) (l : logic)
    (seedNode rel : nat) (seed relativeNode : mrmlNode)
    (relativeRole : string) :
  GetNodeByID (mrmlScene l) seedNode = Some seed ->
  GetNodeByID (mrmlScene l) rel = Some relativeNode ->
  rel <> seedNode ->
  exists l1 seed1,
    forM_ indices
      (updateRelativeSeedPositionAt seedNode (Some rel) relativeRole) l
    = Return tt l1
    /\ GetNodeByID (mrmlScene l1) seedNode = Some seed1
    /\ controlPoints seed1
       = foldl (fun cps i =>
                  <[i := correctedAgainst relativeNode relativeRole
                           (default vzero (cps !! i))]> cps)
           (controlPoints seed) indices
    /\ (forall other, other <> seedNode ->
          GetNodeByID (mrmlScene l1) other = GetNodeByID (mrmlScene l) other).
Proof.
  intros Hseed Hrel Hne. revert l seed Hseed Hrel.
  induction indices as [|i indices IH]; intros l seed Hseed Hrel.
  - exists l, seed. repeat split; assumption || reflexivity.
  - cbn [forM_ foldl].
    destruct (updateRelativeSeedPositionAt_writes l seedNode rel seed
                relativeNode relativeRole i Hseed Hrel Hne)
      as (l1 & seed1 & Hrun & Hseed1 & Hpoints1 & Hothers1).
    unfold mbind, py_bind. rewrite Hrun.
    destruct (IH l1 seed1 Hseed1) as (l2 & seed2 & Hrun2 & Hseed2 & Hpoints2
                                      & Hothers2).
    { rewrite (Hothers1 rel Hne). exact Hrel. }
    exists l2, seed2. split; [exact Hrun2|]. split; [exact Hseed2|].
    split; [rewrite Hpoints2, Hpoints1; reflexivity|].
    intros other Hother.
    rewrite (Hothers2 other Hother). apply Hothers1, Hother.
Qed.

(** [updateRelativeSeedPosition] on a seed and a relative node that both
    have control points: every control point of the seed is replaced by
    its correction, and no other node changes. *)
Lemma updateRelativeSeedPosition_corrects (l : logic) (seedNode rel : nat)
    (seed relativeNode : mrmlNode) (relativeRole : string) :
  GetNodeByID (mrmlScene l) seedNode = Some seed ->
  GetNodeByID (mrmlScene l) rel = Some relativeNode ->
  rel <> seedNode ->
  controlPoints seed <> [] ->
  controlPoints relativeNode <> [] ->
  exists l',
    updateRelativeSeedPosition seedNode (Some rel) relativeRole l
    = Return tt l'
    /\ controlPoints <$> GetNodeByID (mrmlScene l') seedNode
       = Some (correctedAgainst relativeNode relativeRole
                 <$> controlPoints seed)
    /\ (forall other, other <> seedNode ->
          GetNodeByID (mrmlScene l') other = GetNodeByID (mrmlScene l) other).
Proof.
  intros Hseed Hrel Hne Hpoints Hrelpoints.
  unfold updateRelativeSeedPosition.
  unfold mbind at 1, py_bind at 1, theNode at 1.
  cbn [mbind option_bind]. rewrite Hrel.
  destruct (controlPoints relativeNode) as [|r0 rs]; [contradiction|].
  cbn [length Nat.eqb].
  unfold mbind at 1, py_bind at 1, theNode at 1.
  cbn [mbind option_bind]. rewrite Hseed.
  destruct (controlPoints seed) as [|p0 ps] eqn:Hcps; [contradiction|].
  cbn [length Nat.eqb].
  unfold mbind at 1, py_bind at 1. cbn [mret py_ret].
  unfold mbind at 1, py_bind at 1, theNode at 1.
  cbn [mbind option_bind]. rewrite Hseed, Hcps.
  destruct (updateRelativeSeedPosition_loop (seq 0 (length (p0 :: ps))) l
              seedNode rel seed relativeNode relativeRole Hseed Hrel Hne)
    as (l' & seed' & Hrun & Hseed' & Hpoints' & Hothers).
  exists l'. split; [exact Hrun|]. split; [|exact Hothers].
  rewrite Hseed'. cbn [fmap option_fmap option_map].
  rewrite Hpoints', Hcps, snap_fold. reflexivity.
Qed.

(** C5. Directional correction touches at most the coordinate of the
    role's axis, and only when the constraint is violated; the new
    coordinate is the reference coordinate minus the difference.
    [updateRelativeSeedPosition] writes that back: when the seed and the
    relative node have control points, every control point of the seed in
    the scene becomes its mirror image if the constraint is violated at
    the reference point found for it and stays as it is otherwise, and no
    other node changes.  For anterior_of with reference point (0,3,0): a
    seed at (0,5,0) is left alone, a seed at (0,1,0) gets
    y = 3 - (-2) = 5, as a computation and in a scene against a plane
    marker. *)
Theorem directional_correction_mirrors_one_axis :
  (forall (T : Type) (S : Scalar T) (relativeRole : string)
          (seedPoint referencePoint : vec3 T),
     correctedSeedPoint relativeRole seedPoint referencePoint =
       (if violated relativeRole seedPoint referencePoint
        then Some (mirrored relativeRole seedPoint referencePoint)
        else None)
     /\ agreeOutside (roleAxis relativeRole)
          (mirrored relativeRole seedPoint referencePoint) seedPoint
     /\ vget (mirrored relativeRole seedPoint referencePoint)
             (roleAxis relativeRole) =
        s_sub (vget referencePoint (roleAxis relativeRole))
          (s_sub (vget seedPoint (roleAxis relativeRole))
                 (vget referencePoint (roleAxis relativeRole))))
  /\ correctedSeedPoint ANTERIOR_OF_RELATIVE_ROLE (pt 0 5 0) (pt 0 3 0) = None
  /\ (exists p,
        correctedSeedPoint ANTERIOR_OF_RELATIVE_ROLE (pt 0 1 0) (pt 0 3 0)
          = Some p
        /\ veq p (pt 0 5 0) /\ c0 p = 0%Q /\ c2 p = 0%Q)
  /\ (forall (l : logic) (seedNode rel : nat) (seed relativeNode : mrmlNode)
             (relativeRole : string),
        GetNodeByID (mrmlScene l) seedNode = Some seed ->
        GetNodeByID (mrmlScene l) rel = Some relativeNode ->
        rel <> seedNode ->
        controlPoints seed <> [] ->
        controlPoints relativeNode <> [] ->
        exists l',
          updateRelativeSeedPosition seedNode (Some rel) relativeRole l
          = Return tt l'
          /\ controlPoints <$> GetNodeByID (mrmlScene l') seedNode
             = Some ((fun seedPoint =>
                        if violated relativeRole seedPoint
                             (closestPointOn relativeNode relativeRole
                                seedPoint)
                        then mirrored relativeRole seedPoint
                               (closestPointOn relativeNode relativeRole
                                  seedPoint)
                        else seedPoint) <$> controlPoints seed)
          /\ (forall other, other <> seedNode ->
                GetNodeByID (mrmlScene l') other
                = GetNodeByID (mrmlScene l) other))
  /\ seedAfterUpdate [pt 0 5 0] = Some [pt 0 5 0]
  /\ (exists p,
        seedAfterUpdate [pt 0 1 0] = Some [p]
        /\ veq p (pt 0 5 0) /\ c0 p = 0%Q /\ c2 p = 0%Q).
Proof.
  split; [|split; [|split; [|split; [|split]]]].
  - intros T S relativeRole seedPoint referencePoint.
    split; [apply correctedSeedPoint_spec|].
    split; [apply mirrored_agreeOutside|].
    unfold mirrored, roleAxis.
    destruct (_ || _); [reflexivity|]. destruct (_ || _); reflexivity.
  - vm_compute. reflexivity.
  - eexists. split; [vm_compute; reflexivity|].
    vm_compute. repeat split; reflexivity.
  - intros l seedNode rel seed relativeNode relativeRole.
    apply updateRelativeSeedPosition_corrects.
  - vm_compute. reflexivity.
  - eexists. split; [vm_compute; reflexivity|].
    vm_compute. repeat split; reflexivity.
Qed.

Lemma directional_correction_mirrors_one_axis_witness :
  exists l' p,
    updateRelativeSeedPosition 1 (Some 2) ANTERIOR_OF_RELATIVE_ROLE
      (seedAndPlane [pt 0 1 0; pt 4 5 6])
    = Return tt l'
    /\ controlPoints <$> GetNodeByID (mrmlScene l') 1 = Some [p; pt 4 5 6]
    /\ veq p (pt 0 5 0).
Proof.
  destruct (proj1 (proj2 (proj2 (proj2 directional_correction_mirrors_one_axis)))
              (seedAndPlane [pt 0 1 0; pt 4 5 6]) 1 2 _ _
              ANTERIOR_OF_RELATIVE_ROLE eq_refl eq_refl)
    as (l' & Hrun & Hpoints & _).
  - discriminate.
  - discriminate.
  - discriminate.
  - exists l'. eexists. split; [exact Hrun|].
    split; [rewrite Hpoints; vm_compute; reflexivity|].
    vm_compute. repeat split; reflexivity.
Defined.

Example correctedSeedPoint_binary64 :
  @correctedSeedPoint float Scalar_binary64 ANTERIOR_OF_RELATIVE_ROLE
     (f3 0 5 0) (f3 0 3 0) = None
  /\ @correctedSeedPoint float Scalar_binary64 ANTERIOR_OF_RELATIVE_ROLE
       (f3 0 1 0) (f3 0 3 0) = Some (f3 0 5 0).
Proof. split; vm_compute; reflexivity. Qed.

(** The bound of the search is the binary64 number nearest to 1.0e+299,
    over the rationals as in binary64. *)
Example s_double_max_binary64 :
  Prim2SF (@s_double_max float Scalar_binary64)
  = S754_finite false 5379898476197808 941
  /\ (@s_double_max Q Scalar_Q == inject_Z (5379898476197808 * 2 ^ 941))%Q.
Proof. split; vm_compute; reflexivity. Qed.

(** ** The reference point on a curve *)

Section ClosestPoint.
Variables seedPoint lineEnd : point.

(** The loop keeps the first curve point of least distance below the
    initial minimum, and that point's projection. *)
Lemma closestPointLoop_spec (curvePoints : list point) (m0 : Q)
    (p0 : point) :
  (closestPointLoop curvePoints seedPoint lineEnd m0 p0 = (m0, p0)
   /\ forall v, In v curvePoints -> (m0 <= lineDistance seedPoint lineEnd v)%Q)
  \/ exists v, In v curvePoints
       /\ closestPointLoop curvePoints seedPoint lineEnd m0 p0
          = (lineDistance seedPoint lineEnd v, linePoint seedPoint lineEnd v)
       /\ (lineDistance seedPoint lineEnd v < m0)%Q
       /\ forall v', In v' curvePoints ->
            (lineDistance seedPoint lineEnd v <= lineDistance seedPoint lineEnd v')%Q.
Proof.
  revert m0 p0; induction curvePoints as [|v rest IH]; intros m0 p0.
  - left. split; [reflexivity | intros ? []].
  - cbn [closestPointLoop].
    destruct (vtkLine_DistanceToLine v seedPoint lineEnd) as [dist q]
      eqn:E.
    assert (Hd : lineDistance seedPoint lineEnd v = dist)
      by (unfold lineDistance; rewrite E; reflexivity).
    assert (Hc : linePoint seedPoint lineEnd v = q)
      by (unfold linePoint; rewrite E; reflexivity).
    change (@s_ltb Q Scalar_Q dist m0) with (Qltb dist m0).
    destruct (Qltb dist m0) eqn:L.
    + apply Qltb_lt in L. right.
      destruct (IH dist q) as [[-> Hall] | (w & Hin & -> & Hlt & Hall)].
      * exists v. rewrite Hd, Hc.
        repeat split; [left; reflexivity | assumption |].
        intros v' [<- | Hv'];
          [rewrite Hd; apply Qle_refl | apply Hall; assumption].
      * exists w. repeat split; [right; assumption | lra |].
        intros v' [<- | Hv']; [rewrite Hd; lra | apply Hall; assumption].
    + apply Qltb_ge in L.
      destruct (IH m0 p0) as [[-> Hall] | (w & Hin & -> & Hlt & Hall)].
      * left. split; [reflexivity |].
        intros v' [<- | Hv'];
          [rewrite Hd; assumption | apply Hall; assumption].
      * right. exists w. repeat split; [right; assumption | assumption |].
        intros v' [<- | Hv']; [rewrite Hd; lra | apply Hall; assumption].
Qed.

(** The loop keeps the first curve point of least distance, when that
    distance is below the initial minimum, and that point's projection;
    otherwise it keeps what it was given. *)
Lemma closestPointLoop_first (curvePoints : list point) (m0 : Q)
    (p0 : point) :
  (closestPointLoop curvePoints seedPoint lineEnd m0 p0 = (m0, p0)
   /\ forall v, In v curvePoints -> (m0 <= lineDistance seedPoint lineEnd v)%Q)
  \/ exists before v after,
       curvePoints = (before ++ v :: after)%list
       /\ closestPointLoop curvePoints seedPoint lineEnd m0 p0
          = (lineDistance seedPoint lineEnd v, linePoint seedPoint lineEnd v)
       /\ (lineDistance seedPoint lineEnd v < m0)%Q
       /\ (forall u, In u before ->
             (lineDistance seedPoint lineEnd v
              < lineDistance seedPoint lineEnd u)%Q)
       /\ (forall u, In u after ->
             (lineDistance seedPoint lineEnd v
              <= lineDistance seedPoint lineEnd u)%Q).
Proof.
  revert m0 p0; induction curvePoints as [|v rest IH]; intros m0 p0.
  - left. split; [reflexivity | intros ? []].
  - cbn [closestPointLoop].
    destruct (vtkLine_DistanceToLine v seedPoint lineEnd) as [dist q]
      eqn:E.
    assert (Hd : lineDistance seedPoint lineEnd v = dist)
      by (unfold lineDistance; rewrite E; reflexivity).
    assert (Hc : linePoint seedPoint lineEnd v = q)
      by (unfold linePoint; rewrite E; reflexivity).
    change (@s_ltb Q Scalar_Q dist m0) with (Qltb dist m0).
    destruct (Qltb dist m0) eqn:L.
    + apply Qltb_lt in L. right.
      destruct (IH dist q)
        as [[-> Hall] | (b & w & a & -> & -> & Hlt & Hb & Ha)].
      * exists [], v, rest. rewrite Hd, Hc.
        split; [reflexivity|]. split; [reflexivity|]. split; [assumption|].
        split; [intros ? [] | assumption].
      * exists (v :: b), w, a.
        split; [reflexivity|]. split; [reflexivity|]. split; [lra|].
        split; [|assumption].
        intros u [<- | Hu]; [rewrite Hd; assumption | apply Hb; assumption].
    + apply Qltb_ge in L.
      destruct (IH m0 p0)
        as [[-> Hall] | (b & w & a & -> & -> & Hlt & Hb & Ha)].
      * left. split; [reflexivity |].
        intros v' [<- | Hv'];
          [rewrite Hd; assumption | apply Hall; assumption].
      * right. exists (v :: b), w, a.
        split; [reflexivity|]. split; [reflexivity|]. split; [assumption|].
        split; [|assumption].
        intros u [<- | Hu]; [rewrite Hd; lra | apply Hb; assumption].
Qed.
End ClosestPoint.

(** The point [vtkLine::DistanceToLine] hands back lies on the finite
    line from [p1] to [p2]. *)
Lemma DistanceToLine_on_line (x p1 p2 : point) :
  exists t : Q, (0 <= t <= 1)%Q /\
    veq (snd (vtkLine_DistanceToLine x p1 p2))
        (vtkMath_Add p1 (vtkMath_MultiplyScalar (vtkMath_Subtract p2 p1) t)).
Proof.
  assert (Hp1 : exists t : Q, (0 <= t <= 1)%Q /\
    veq p1 (vtkMath_Add p1
              (vtkMath_MultiplyScalar (vtkMath_Subtract p2 p1) t))).
  { exists 0%Q. split; [lra|]. destruct p1, p2. vring. }
  assert (Hp2 : exists t : Q, (0 <= t <= 1)%Q /\
    veq p2 (vtkMath_Add p1
              (vtkMath_MultiplyScalar (vtkMath_Subtract p2 p1) t))).
  { exists 1%Q. split; [lra|]. destruct p1, p2. vring. }
  unfold vtkLine_DistanceToLine. cbn [snd]. cbv zeta.
  repeat match goal with
  | |- exists t, _ /\ veq (if ?b then _ else _) _ => destruct b eqn:?
  end; try assumption.
  change (@s_ltb Q Scalar_Q) with Qltb in *.
  repeat match goal with H : Qltb _ _ = false |- _ => apply Qltb_ge in H end.
  eexists. split; [split; eassumption|]. apply veq_refl.
Qed.

Lemma directionVector_opposite (seedPoint : point) :
  Forall (fun relativeRole =>
            exists direction,
              directionVector seedPoint relativeRole = Some direction
              /\ veq direction
                   (vscale (-1) (roleDirection seedPoint relativeRole)))
         RELATIVE_SEED_ROLES.
Proof.
  unfold RELATIVE_SEED_ROLES, directionVector, roleDirection.
  change (@s_ltb Q Scalar_Q (c0 seedPoint) (s_of_Z 0))
    with (Qltb (c0 seedPoint) 0).
  repeat constructor; cbn; destruct (Qltb (c0 seedPoint) 0);
    (eexists; split; [reflexivity|]); vm_compute; repeat split; reflexivity.
Qed.

(** [GetClosestPointOnPlaneWorld] is the foot of the perpendicular. *)
Lemma GetClosestPointOnPlaneWorld_on_plane (origin normal pos : point) :
  ~ (vtkMath_Dot normal normal == 0)%Q ->
  (vtkMath_Dot
     (vtkMath_Subtract (GetClosestPointOnPlaneWorld origin normal pos) origin)
     normal == 0)%Q.
Proof.
  destruct origin, normal, pos. unfold GetClosestPointOnPlaneWorld.
  cbn [c0 c1 c2 vtkMath_Dot vtkMath_Subtract vtkMath_MultiplyScalar
       s_add s_sub s_mul s_div Scalar_Q].
  intros Hn. field. exact Hn.
Qed.

Lemma sq_zero (a : Q) : (a * a <= 0 -> a == 0)%Q.
Proof. intros H. nra. Qed.

Lemma sum_squares_zero (a b c : Q) :
  (a * a + b * b + c * c <= 0 -> a == 0 /\ b == 0 /\ c == 0)%Q.
Proof.
  intros H.
  assert (0 <= a * a)%Q by nra.
  assert (0 <= b * b)%Q by nra.
  assert (0 <= c * c)%Q by nra.
  repeat split; apply sq_zero; lra.
Qed.

(** C9, as stated, fails: for a seed at the origin, role anterior_of and
    a curve discretized into the two points (-1,-2,0) and (3,-6,0), the
    segment between them crosses the posterior ray at (0,-3,0), while
    the reference point found is (0,-2,0), the projection of the first
    curve point. *)
Lemma reference_point_is_not_nearest_to_segments :
  exists r,
    getClosestPointOnCurveAlongLine (pt 0 0 0)
      [pt (-1) (-2) 0; pt 3 (-6) 0] ANTERIOR_OF_RELATIVE_ROLE vzero = r
    /\ veq r (pt 0 (-2) 0)
    /\ ~ rayPolylineNearestPoint (pt 0 0 0) (pt 0 (-1) 0)
           [pt (-1) (-2) 0; pt 3 (-6) 0] r.
Proof.
  eexists. split; [vm_compute; reflexivity|].
  split; [vm_compute; repeat split; reflexivity|].
  intros (_ & q & (i & a & b & Ha & Hb & s & Hs & Hq) & Hmin).
  destruct i as [|[|i]]; [|discriminate..].
  injection Ha as <-. injection Hb as <-.
  assert (Hray : onRay (pt 0 (-3) 0) (pt 0 0 0) (pt 0 (-1) 0)).
  { exists 3%Q. split; [lra|]. vm_compute. repeat split; reflexivity. }
  assert (Hpoly : onPolyline (pt 0 (-3) 0) [pt (-1) (-2) 0; pt 3 (-6) 0]).
  { exists 0%nat, (pt (-1) (-2) 0), (pt 3 (-6) 0).
    split; [reflexivity|]. split; [reflexivity|].
    exists (1 # 4)%Q. split; [lra|]. vm_compute. repeat split; reflexivity. }
  specialize (Hmin _ _ Hray Hpoly). clear Hray Hpoly.
  destruct q as [q0 q1 q2]. destruct Hq as (H0 & H1 & H2).
  cbn [c0 c1 c2 vtkMath_Add vtkMath_Subtract vtkMath_MultiplyScalar
       vtkMath_Distance2BetweenPoints pt s_add s_sub s_mul Scalar_Q] in *.
  match type of Hmin with
  | (?L <= ?R)%Q =>
      assert (Hz : (L <= 0)%Q)
        by (eapply Qle_trans; [exact Hmin | vm_compute; discriminate])
  end.
  apply sum_squares_zero in Hz. destruct Hz as (Ha & Hb & _). lra.
Qed.

(** C9, amended.  For a curve or closed curve the reference point comes
    from [getClosestPointOnCurveAlongLine], for a plane from the plane's
    own closest point.  On a curve the search runs along the direction
    opposite to the role's; every point of the discretized curve (not
    every segment) is projected onto the line of length 10000 from the
    seed in that direction, and the reference point is the projection of
    the first curve point whose squared distance to that line is least,
    when that distance is below [vtk.VTK_DOUBLE_MAX]; it lies on the ray.
    When the curve has no point, or no distance is below the bound, the
    reference point stays at the (0,0,0) it was given; so it does for a
    role that is none of the six. *)
Theorem reference_point_on_curve_along_line :
  (forall (relativeNode : mrmlNode) (relativeRole : string) (p : point),
     IsA relativeNode "vtkMRMLMarkupsCurveNode" = true ->
     closestPointOn relativeNode relativeRole p =
     getClosestPointOnCurveAlongLine p (curvePoints relativeNode)
       relativeRole vzero)
  /\ (forall (relativeNode : mrmlNode) (relativeRole : string) (p : point),
        IsA relativeNode "vtkMRMLMarkupsCurveNode" = false ->
        IsA relativeNode "vtkMRMLMarkupsPlaneNode" = true ->
        closestPointOn relativeNode relativeRole p =
        GetClosestPointOnPlaneWorld (planeOrigin relativeNode)
          (planeNormal relativeNode) p)
  /\ (forall seedPoint : point,
        Forall (fun relativeRole =>
                  exists direction,
                    directionVector seedPoint relativeRole = Some direction
                    /\ veq direction
                         (vscale (-1) (roleDirection seedPoint relativeRole)))
               RELATIVE_SEED_ROLES)
  /\ (forall (seedPoint : point) (curvePoints : list point)
             (relativeRole : string) (direction : point),
        directionVector seedPoint relativeRole = Some direction ->
        (getClosestPointOnCurveAlongLine seedPoint curvePoints relativeRole
           vzero = vzero
         /\ forall v, In v curvePoints ->
              (s_double_max
               <= lineDistance seedPoint (seedLineEnd seedPoint direction)
                    v)%Q)
        \/ exists before v after,
             curvePoints = (before ++ v :: after)%list
             /\ getClosestPointOnCurveAlongLine seedPoint curvePoints
                  relativeRole vzero
                = linePoint seedPoint (seedLineEnd seedPoint direction) v
             /\ (lineDistance seedPoint (seedLineEnd seedPoint direction) v
                 < s_double_max)%Q
             /\ (forall u, In u before ->
                   (lineDistance seedPoint (seedLineEnd seedPoint direction) v
                    < lineDistance seedPoint
                        (seedLineEnd seedPoint direction) u)%Q)
             /\ (forall u, In u after ->
                   (lineDistance seedPoint (seedLineEnd seedPoint direction) v
                    <= lineDistance seedPoint
                         (seedLineEnd seedPoint direction) u)%Q)
             /\ exists s : Q, (0 <= s <= 10000)%Q /\
                  veq (linePoint seedPoint (seedLineEnd seedPoint direction)
                         v)
                      (vtkMath_Add seedPoint
                         (vtkMath_MultiplyScalar direction s)))
  /\ (forall (seedPoint : point) (curvePoints : list point)
             (relativeRole : string) (closestPoint : point),
        directionVector seedPoint relativeRole = None ->
        getClosestPointOnCurveAlongLine seedPoint curvePoints relativeRole
          closestPoint = closestPoint)
  /\ (10 ^ 299 <= @s_double_max Q Scalar_Q < 10 ^ 299 + 10 ^ 283)%Q.
Proof.
  split; [|split; [|split; [|split; [|split]]]].
  - intros relativeNode relativeRole p Hcurve.
    unfold closestPointOn. rewrite Hcurve. reflexivity.
  - intros relativeNode relativeRole p Hcurve Hplane.
    unfold closestPointOn. rewrite Hcurve, Hplane. reflexivity.
  - exact directionVector_opposite.
  - intros seedPoint curvePoints relativeRole direction Hdir.
    unfold getClosestPointOnCurveAlongLine. rewrite Hdir.
    destruct (closestPointLoop_first seedPoint
                (seedLineEnd seedPoint direction) curvePoints
                s_double_max vzero)
      as [[Hloop Hall] | (b & v & a & Hsplit & Hloop & Hlt & Hb & Ha)].
    + left. rewrite Hloop. split; [reflexivity | exact Hall].
    + right. exists b, v, a. rewrite Hloop. cbn [snd].
      split; [assumption|]. split; [reflexivity|]. split; [assumption|].
      split; [assumption|]. split; [assumption|].
      unfold linePoint.
      destruct (DistanceToLine_on_line v seedPoint
                  (seedLineEnd seedPoint direction)) as (t & Ht & Hv).
      exists (10000 * t)%Q. split; [lra|].
      rewrite Hv. unfold seedLineEnd.
      destruct seedPoint, direction. vring.
  - intros seedPoint curvePoints relativeRole closestPoint Hdir.
    unfold getClosestPointOnCurveAlongLine. rewrite Hdir. reflexivity.
  - split; [vm_compute; discriminate | vm_compute; reflexivity].
Qed.

Lemma reference_point_on_curve_along_line_witness :
  exists before v after,
    [pt (-1) (-2) 0; pt 3 (-6) 0; pt 1 (-9) 0] = (before ++ v :: after)%list
    /\ getClosestPointOnCurveAlongLine (pt 0 0 0)
         [pt (-1) (-2) 0; pt 3 (-6) 0; pt 1 (-9) 0] ANTERIOR_OF_RELATIVE_ROLE
         vzero
       = linePoint (pt 0 0 0) (seedLineEnd (pt 0 0 0) (pt 0 (-1) 0)) v
    /\ (forall u, In u before ->
          (lineDistance (pt 0 0 0) (seedLineEnd (pt 0 0 0) (pt 0 (-1) 0)) v
           < lineDistance (pt 0 0 0) (seedLineEnd (pt 0 0 0) (pt 0 (-1) 0))
               u)%Q)
    /\ (forall u, In u after ->
          (lineDistance (pt 0 0 0) (seedLineEnd (pt 0 0 0) (pt 0 (-1) 0)) v
           <= lineDistance (pt 0 0 0) (seedLineEnd (pt 0 0 0) (pt 0 (-1) 0))
                u)%Q).
Proof.
  destruct (proj1 (proj2 (proj2 (proj2 reference_point_on_curve_along_line)))
              (pt 0 0 0) [pt (-1) (-2) 0; pt 3 (-6) 0; pt 1 (-9) 0]
              ANTERIOR_OF_RELATIVE_ROLE (pt 0 (-1) 0) eq_refl)
    as [[_ Hall] | (b & v & a & Hsplit & Hpoint & _ & Hb & Ha & _)].
  - exfalso. apply (Qle_not_lt _ _ (Hall (pt (-1) (-2) 0) (or_introl eq_refl))).
    vm_compute. reflexivity.
  - exists b, v, a. repeat split; assumption.
Defined.

(** ** Invariants of stateful code *)

Lemma inv_ret {S A} (P : S -> Prop) (a : A) : inv P (mret a).
Proof. intros s Hs. exact Hs. Qed.

Lemma inv_raise {S A} (P : S -> Prop) (e : pyexc) : inv P (@raise S A e).
Proof. intros s Hs. exact Hs. Qed.

Lemma inv_gets {S A} (P : S -> Prop) (f : S -> A) : inv P (gets f).
Proof. intros s Hs. exact Hs. Qed.

Lemma inv_modify {S} (P : S -> Prop) (f : S -> S) :
  (forall s, P s -> P (f s)) -> inv P (modify f).
Proof. intros Hf s Hs. apply Hf, Hs. Qed.

Lemma inv_bind {S A B} (P : S -> Prop) (c : py S A) (f : A -> py S B) :
  inv P c -> (forall a, inv P (f a)) -> inv P (c ≫= f).
Proof.
  intros Hc Hf s Hs. unfold mbind, py_bind.
  specialize (Hc s Hs). destruct (c s) as [a s'|e s']; cbn in *.
  - apply Hf, Hc.
  - exact Hc.
Qed.

Lemma inv_forM {S A} (P : S -> Prop) (l : list A) (f : A -> py S unit) :
  (forall a, inv P (f a)) -> inv P (forM_ l f).
Proof.
  intros Hf. induction l as [|a l IH]; cbn [forM_].
  - apply inv_ret.
  - apply inv_bind; [apply Hf | intros _; exact IH].
Qed.

Create HintDb inv.
#[local] Hint Resolve inv_ret inv_raise inv_gets inv_bind inv_forM : inv.

(** ** The manual freeze *)

Lemma writesPoints_keepsID (f : mrmlNode -> mrmlNode) :
  writesPoints f -> forall n, nodeID (f n) = nodeID n.
Proof. intros Hf n. destruct (Hf n) as [cps ->]. reflexivity. Qed.

(** A property of the logic that survives every write the derivation
    makes: new control points for nodes whose ID is [writable], and the
    updating flag. *)
Section DerivationInvariant.
Variables (P : logic -> Prop) (writable : nat -> Prop).
Hypothesis P_onNode :
  forall (f : mrmlNode -> mrmlNode) (id : nat) (l : logic),
    writable id -> writesPoints f ->
    P l -> P (set_mrmlScene (updateNode f id (mrmlScene l)) l).
Hypothesis P_updating :
  forall (b : bool) (l : logic), P l -> P (set_updatingSeedNodes b l).

Lemma inv_onNode (f : mrmlNode -> mrmlNode) (id : nat) :
  writable id -> writesPoints f -> inv P (onNode f id).
Proof. intros Hw Hid l Hl. apply P_onNode; assumption. Qed.

Hint Extern 1 (writesPoints _) => intros ?; eexists; reflexivity : inv.

Lemma inv_theNode (ref : option nat) (attr : string) :
  inv P (theNode ref attr).
Proof.
  intros l Hl. unfold theNode.
  destruct (ref ≫= GetNodeByID (mrmlScene l)); exact Hl.
Qed.

Lemma inv_getRelativeNodesOfRole (seedNode : nat) (role : string) :
  inv P (getRelativeNodesOfRole seedNode role).
Proof.
  intros l Hl. unfold getRelativeNodesOfRole.
  destruct (GetNodeByID (mrmlScene l) seedNode); exact Hl.
Qed.

Lemma inv_set_updatingSeedNodes (b : bool) :
  inv P (modify (set_updatingSeedNodes b)).
Proof. apply inv_modify. intros l Hl. apply P_updating, Hl. Qed.

Hint Resolve inv_onNode inv_theNode inv_getRelativeNodesOfRole
  inv_set_updatingSeedNodes : inv.

Lemma inv_allRelativeNodes (seedNode : nat) (roles : list string) :
  inv P (allRelativeNodes seedNode roles).
Proof.
  induction roles; cbn [allRelativeNodes]; auto 10 with inv.
Qed.

Lemma inv_relativeControlPoints (refs : list (option nat)) :
  inv P (relativeControlPoints refs).
Proof.
  induction refs; cbn [relativeControlPoints]; auto 10 with inv.
Qed.

Hint Resolve inv_allRelativeNodes inv_relativeControlPoints : inv.

Lemma inv_initializeSeedNode (seedNode : nat) :
  writable seedNode -> inv P (initializeSeedNode seedNode).
Proof.
  intros Hw. unfold initializeSeedNode.
  apply inv_bind; [auto with inv|]. intros refs.
  destruct (Nat.eqb _ _); [auto with inv|].
  apply inv_bind; [auto with inv|]. intros pointLists.
  destruct (initialSeedPoint pointLists); auto with inv.
Qed.

Lemma inv_updateRelativeSeedPositionAt (seedNode : nat)
    (relativeNode : option nat) (role : string) (i : nat) :
  writable seedNode ->
  inv P (updateRelativeSeedPositionAt seedNode relativeNode role i).
Proof.
  intros Hw. unfold updateRelativeSeedPositionAt.
  apply inv_bind; [auto with inv|]. intros s.
  apply inv_bind; [auto with inv|]. intros rel.
  destruct (correctedSeedPoint _ _ _); auto with inv.
Qed.

Lemma inv_updateRelativeSeedPosition (seedNode : nat)
    (relativeNode : option nat) (role : string) :
  writable seedNode ->
  inv P (updateRelativeSeedPosition seedNode relativeNode role).
Proof.
  intros Hw. unfold updateRelativeSeedPosition.
  apply inv_bind; [auto with inv|]. intros rel.
  destruct (Nat.eqb _ _); [auto with inv|].
  apply inv_bind; [auto with inv|]. intros s.
  apply inv_bind.
  { destruct (Nat.eqb _ _);
      [apply inv_initializeSeedNode; assumption | auto with inv]. }
  intros _. apply inv_bind; [auto with inv|]. intros s'.
  apply inv_forM. intros i.
  apply inv_updateRelativeSeedPositionAt; assumption.
Qed.

Lemma inv_snapSeedsToSurface (seedNode : nat) :
  writable seedNode -> inv P (snapSeedsToSurface seedNode).
Proof.
  intros Hw. unfold snapSeedsToSurface.
  apply inv_bind; [auto with inv|]. intros [dataSet|]; [|auto with inv].
  apply inv_bind; [auto with inv|]. intros s.
  apply inv_forM. intros i. auto with inv.
Qed.

Lemma inv_relativeSeedDerivation (seedNode : nat) :
  writable seedNode -> inv P (relativeSeedDerivation seedNode).
Proof.
  intros Hw. unfold relativeSeedDerivation.
  apply inv_bind; [auto with inv|]. intros was.
  apply inv_bind; [auto with inv|]. intros _.
  apply inv_bind; [auto with inv|]. intros s.
  apply inv_bind.
  { destruct (Nat.eqb _ _);
      [apply inv_initializeSeedNode; assumption | auto with inv]. }
  intros _. apply inv_bind.
  { apply inv_forM. intros role.
    apply inv_bind; [auto with inv|]. intros refs.
    apply inv_forM. intros r.
    apply inv_updateRelativeSeedPosition; assumption. }
  intros _. apply inv_bind;
    [apply inv_snapSeedsToSurface; assumption|].
  intros _. auto with inv.
Qed.
End DerivationInvariant.

Lemma frozen_relativeSeedDerivation (seed : nat) (node : mrmlNode)
    (seedNode : nat) :
  seedNode <> seed -> inv (frozen seed node) (relativeSeedDerivation seedNode).
Proof.
  intros Hne.
  apply (inv_relativeSeedDerivation (frozen seed node) (fun id => id <> seed));
    [| intros b l Hl; exact Hl | exact Hne].
  intros f id l Hw Hf Hl. unfold frozen in *. cbn [mrmlScene set_mrmlScene].
  rewrite GetNodeByID_updateNode_ne;
    [exact Hl | exact Hw | apply writesPoints_keepsID, Hf].
Qed.

Lemma assocSet_lookup {V} (l : list (string * V)) (name : string) (v : V) :
  snd <$> List.find (fun kv => String.eqb (fst kv) name) (assocSet l name v)
  = Some v.
Proof.
  induction l as [|[k w] l IH]; cbn [assocSet List.find fst].
  - rewrite String.eqb_refl. reflexivity.
  - destruct (String.eqb k name) eqn:E; cbn [List.find fst]; rewrite E.
    + reflexivity.
    + exact IH.
Qed.

Lemma GetAttribute_SetAttribute (n : mrmlNode) (name value : string) :
  GetAttribute (SetAttribute name value n) name = Some value.
Proof. apply assocSet_lookup. Qed.

Lemma frozen_updateRelativeSeedNode (seed : nat) (node : mrmlNode)
    (seedNode : option nat) :
  GetAttribute node MANUALLY_PLACED_ATTRIBUTE_NAME = Some "TRUE" ->
  inv (frozen seed node) (updateRelativeSeedNode seedNode).
Proof.
  intros Hattr l Hl. unfold updateRelativeSeedNode.
  destruct seedNode as [id|]; [|exact Hl]. cbn [mbind option_bind].
  destruct (GetNodeByID (mrmlScene l) id) as [s|] eqn:E; [|exact Hl].
  pose proof (GetNodeByID_nodeID _ _ _ E) as Hs.
  destruct (Nat.eq_dec id seed) as [->|Hne].
  - unfold frozen in Hl. rewrite Hl in E. injection E as <-.
    rewrite Hattr. exact Hl.
  - destruct (attributeIs _ _); [exact Hl|].
    destruct (_ && _); [exact Hl|].
    apply frozen_relativeSeedDerivation; [congruence | exact Hl].
Qed.

(** C6. While the manually-placed flag of a seed is TRUE, the derivation
    leaves the seed as it is, whether it is asked for directly or runs
    for the seeds of an edited marker.  Removing a control point while
    others remain keeps the flag; removing the last one sets it to FALSE,
    after which the derivation runs again. *)
Theorem manually_placed_seed_is_frozen
    (l : logic) (seed : nat) (node : mrmlNode) :
  GetNodeByID (mrmlScene l) seed = Some node ->
  GetAttribute node MANUALLY_PLACED_ATTRIBUTE_NAME = Some "TRUE" ->
  updateRelativeSeedNode (Some seed) l = Return tt l
  /\ (forall markupNode : nat,
        GetNodeByID
          (mrmlScene (finalState (updateRelativeSeedsForMarkup markupNode l)))
          seed = Some node)
  /\ (controlPoints node <> [] -> onSeedRemoved seed l = Return tt l)
  /\ (controlPoints node = [] ->
      exists l' node',
        onSeedRemoved seed l = Return tt l'
        /\ GetNodeByID (mrmlScene l') seed = Some node'
        /\ GetAttribute node' MANUALLY_PLACED_ATTRIBUTE_NAME = Some "FALSE"
        /\ controlPoints node' = []
        /\ updateRelativeSeedNode (Some seed) l'
           = relativeSeedDerivation seed l').
Proof.
  intros Hnode Hattr. split; [|split; [|split]].
  - unfold updateRelativeSeedNode. cbn [mbind option_bind].
    rewrite Hnode, Hattr. reflexivity.
  - intros markupNode. unfold updateRelativeSeedsForMarkup.
    assert (Hinv : inv (frozen seed node)
                     (seedNodes ← getRelativeSeedNodes markupNode;
                      forM_ seedNodes updateRelativeSeedNode)).
    { apply inv_bind.
      - intros s Hs. unfold getRelativeSeedNodes.
        destruct (GetNodeByID (mrmlScene s) markupNode); exact Hs.
      - intros seedNodes. apply inv_forM. intros seedNode.
        apply frozen_updateRelativeSeedNode. exact Hattr. }
    exact (Hinv l Hnode).
  - intros Hpoints. unfold onSeedRemoved. rewrite Hnode.
    destruct (controlPoints node); [contradiction|]. reflexivity.
  - intros Hpoints. unfold onSeedRemoved. rewrite Hnode, Hpoints.
    cbn [length Nat.eqb negb].
    eexists _, _. split; [reflexivity|].
    assert (Hnew : GetNodeByID
                     (updateNode
                        (SetAttribute MANUALLY_PLACED_ATTRIBUTE_NAME "FALSE")
                        seed (mrmlScene l)) seed
                   = Some (SetAttribute MANUALLY_PLACED_ATTRIBUTE_NAME "FALSE"
                             node)).
    { apply GetNodeByID_updateNode_eq; [reflexivity | exact Hnode]. }
    split; [exact Hnew|]. split; [apply GetAttribute_SetAttribute|].
    split; [exact Hpoints|].
    unfold updateRelativeSeedNode. cbn [mbind option_bind].
    cbn [mrmlScene set_mrmlScene]. rewrite Hnew.
    rewrite GetAttribute_SetAttribute. cbn [attributeIs].
    cbn [nodeID SetAttribute set_attributes].
    rewrite (GetNodeByID_nodeID _ _ _ Hnode). reflexivity.
Qed.

(** ** Running a job with incomplete borders *)

Section PreparationInvariant.
Variable P : logic -> Prop.
Hypothesis P_onNode :
  forall (f : mrmlNode -> mrmlNode) (id : nat) (l : logic),
    (forall n, nodeID (f n) = nodeID n) ->
    P l -> P (set_mrmlScene (updateNode f id (mrmlScene l)) l).
Hypothesis P_updating :
  forall (b : bool) (l : logic), P l -> P (set_updatingSeedNodes b l).



End PreparationInvariant.

Lemma GetNodeByID_updateNode_is_Some (f : mrmlNode -> mrmlNode)
    (id t : nat) (sc : scene) :
  (forall n, nodeID (f n) = nodeID n) ->
  is_Some (GetNodeByID sc t) -> is_Some (GetNodeByID (updateNode f id sc) t).
Proof.
  intros Hid [n Hn]. destruct (Nat.eq_dec id t) as [->|Hne].
  - exists (f n). apply GetNodeByID_updateNode_eq; assumption.
  - exists n. rewrite GetNodeByID_updateNode_ne; assumption.
Qed.









(** ** A worked scene *)

Lemma initializeSeedNode_two_level_mean_witness :
  exists seed p l',
    GetNodeByID
      (mrmlScene (exampleLogic [] [pt 7 7 7] [pt 0 0 0; pt 2 0 0] [pt 0 0 10]))
      1 = Some seed
    /\ initializeSeedNode 1
         (exampleLogic [] [pt 7 7 7] [pt 0 0 0; pt 2 0 0] [pt 0 0 10])
       = Return tt l'
    /\ controlPoints <$> GetNodeByID (mrmlScene l') 1
       = Some [pt 7 7 7; p]
    /\ veq p (twoLevelMean [[pt 0 0 0; pt 2 0 0]; [pt 0 0 10]]).
Proof.
  destruct (proj1 initializeSeedNode_two_level_mean 1
              (exampleLogic [] [pt 7 7 7] [pt 0 0 0; pt 2 0 0] [pt 0 0 10])
              [[pt 0 0 0; pt 2 0 0]; [pt 0 0 10]])
    as (seed & p & l' & Hseed & Hrun & Hpoints & Hp & _).
  - reflexivity.
  - discriminate.
  - repeat constructor; discriminate.
  - exists seed, p, l'. split; [exact Hseed|]. split; [exact Hrun|].
    split; [|exact Hp]. rewrite Hpoints. injection Hseed as <-. reflexivity.
Defined.

Lemma initializeSeedNode_counts_empty_markers_witness :
  exists seed p l',
    GetNodeByID (mrmlScene (exampleLogic [] [] [pt 2 0 0] [])) 1 = Some seed
    /\ initializeSeedNode 1 (exampleLogic [] [] [pt 2 0 0] [])
       = Return tt l'
    /\ controlPoints <$> GetNodeByID (mrmlScene l') 1 = Some [p]
    /\ veq p (vscale (weight 2)
                (vsum (centroid <$> List.filter hasPoints [[pt 2 0 0]; []]))).
Proof.
  destruct (proj1 initializeSeedNode_counts_empty_markers 1
              (exampleLogic [] [] [pt 2 0 0] []) [[pt 2 0 0]; []])
    as (seed & p & l' & Hseed & Hrun & Hpoints & Hp & _).
  - reflexivity.
  - discriminate.
  - exists seed, p, l'. split; [exact Hseed|]. split; [exact Hrun|].
    split; [|exact Hp]. rewrite Hpoints. injection Hseed as <-. reflexivity.
Defined.

Lemma manually_placed_seed_is_frozen_witness :
  updateRelativeSeedNode (Some 1)
    (exampleLogic placedByHand [] [pt 0 0 0; pt 2 0 0] [pt 0 0 10])
  = Return tt (exampleLogic placedByHand [] [pt 0 0 0; pt 2 0 0] [pt 0 0 10])
  /\ (forall markupNode : nat,
        GetNodeByID
          (mrmlScene
             (finalState
                (updateRelativeSeedsForMarkup markupNode
                   (exampleLogic placedByHand []
                      [pt 0 0 0; pt 2 0 0] [pt 0 0 10]))))
          1
        = Some (exampleNode 1 "vtkMRMLMarkupsFiducialNode" "P_SeedPoints"
                  placedByHand
                  [("Relative.anterior_of", 2); ("Relative.medial_of", 3)]
                  [] None))
  /\ (([] : list point) <> [] ->
      onSeedRemoved 1
        (exampleLogic placedByHand [] [pt 0 0 0; pt 2 0 0] [pt 0 0 10])
      = Return tt
          (exampleLogic placedByHand [] [pt 0 0 0; pt 2 0 0] [pt 0 0 10]))
  /\ (([] : list point) = [] ->
      exists l' node',
        onSeedRemoved 1
          (exampleLogic placedByHand [] [pt 0 0 0; pt 2 0 0] [pt 0 0 10])
        = Return tt l'
        /\ GetNodeByID (mrmlScene l') 1 = Some node'
        /\ GetAttribute node' MANUALLY_PLACED_ATTRIBUTE_NAME = Some "FALSE"
        /\ controlPoints node' = []
        /\ updateRelativeSeedNode (Some 1) l' = relativeSeedDerivation 1 l').
Proof.
  apply (manually_placed_seed_is_frozen
           (exampleLogic placedByHand [] [pt 0 0 0; pt 2 0 0] [pt 0 0 10]) 1
           (exampleNode 1 "vtkMRMLMarkupsFiducialNode" "P_SeedPoints"
              placedByHand
              [("Relative.anterior_of", 2); ("Relative.medial_of", 3)]
              [] None)).
  - reflexivity.
  - reflexivity.
Defined.

(** After the reset the derivation places the seed again: at the
    two-level mean (0.5, 0, 5), snapped to the nearest surface point. *)
Example derivation_after_reset :
  let l := exampleLogic placedByHand [] [pt 0 0 0; pt 2 0 0] [pt 0 0 10] in
  let l' := finalState (onSeedRemoved 1 l) in
  controlPoints <$> GetNodeByID (mrmlScene (finalState
                       (updateRelativeSeedNode (Some 1) l))) 1 = Some []
  /\ controlPoints <$> GetNodeByID (mrmlScene (finalState
                          (updateRelativeSeedNode (Some 1) l'))) 1
     = Some [pt 1 0 5].
Proof. split; vm_compute; reflexivity. Qed.


(** The job of the worked scene: with border B empty the solver is not
    run and the mesh of P is emptied; with both borders drawn it runs. *)
Example runDynamicModelerTool_examples :
  (let l := finalState (runDynamicModelerTool (Some 5)
                          (exampleLogic [] [] [pt 2 0 0] [])) in
   solverRuns l = []
   /\ modelPolyData <$> GetNodeByID (mrmlScene l) 4
      = Some (Some emptyPolyData))
  /\ (let l := finalState (runDynamicModelerTool (Some 5)
                             (exampleLogic [] [] [pt 2 0 0] [pt 0 0 10])) in
      solverRuns l = [5]
      /\ modelPolyData <$> GetNodeByID (mrmlScene l) 4
         = Some (Some (PolyData [pt 1 1 1] [] ["cellPedigree"]))).
Proof. split; vm_compute; split; reflexivity. Qed.

(** ** Scenes *)

Lemma append_ne_self (a b : string) : b <> "" -> a <> a ++ b.
Proof.
  intros Hb H. apply Hb. induction a as [|c a IH].
  - cbn in H. symmetry. exact H.
  - cbn in H. injection H as H. apply IH, H.
Qed.

Lemma find_app {A} (f : A -> bool) (a b : list A) :
  List.find f (a ++ b) =
  match List.find f a with
  | Some x => Some x
  | None => List.find f b
  end.
Proof.
  induction a as [|x a IH]; [reflexivity|]. cbn [app List.find].
  destruct (f x); [reflexivity | exact IH].
Qed.

Lemma GetNodeByID_In (sc : scene) (id : nat) (n : mrmlNode) :
  GetNodeByID sc id = Some n -> In n (nodes sc).
Proof. unfold GetNodeByID. intros H. apply find_some in H. apply H. Qed.

Lemma wellFormed_updateNode (f : mrmlNode -> mrmlNode) (id : nat)
    (sc : scene) :
  keepsID f -> wellFormed sc -> wellFormed (updateNode f id sc).
Proof.
  intros Hf [Hnd Hlt]. unfold wellFormed, updateNode. cbn [nodes nextID].
  assert (Hids : forall n,
            nodeID (if Nat.eqb (nodeID n) id then f n else n) = nodeID n)
    by (intros n; destruct (Nat.eqb (nodeID n) id); [apply Hf | reflexivity]).
  split.
  - rewrite <- list_fmap_compose.
    erewrite list_fmap_ext; [exact Hnd|].
    intros i n _. cbn. apply Hids.
  - apply Forall_fmap. eapply Forall_impl; [exact Hlt|].
    intros n Hn. cbn. rewrite Hids. exact Hn.
Qed.

Lemma wellFormed_AddNewNodeByClass (sc : scene) (cls name : string) :
  wellFormed sc -> wellFormed (AddNewNodeByClass sc cls name).1.
Proof.
  intros [Hnd Hlt]. unfold wellFormed, AddNewNodeByClass.
  cbn [fst nodes nextID]. split.
  - rewrite fmap_app. apply NoDup_app. split; [exact Hnd|].
    split; [|cbn; apply NoDup_singleton].
    intros x Hx Hnew. cbn in Hnew. apply list_elem_of_singleton in Hnew.
    subst x. apply list_elem_of_fmap in Hx. destruct Hx as (n & Hid & Hin).
    rewrite Forall_forall in Hlt. specialize (Hlt n Hin). lia.
  - apply Forall_app. split.
    + eapply Forall_impl; [exact Hlt|]. intros n Hn. cbn in *. lia.
    + constructor; [cbn; lia | constructor].
Qed.

Lemma GetNodeByID_lt (sc : scene) (id : nat) (n : mrmlNode) :
  wellFormed sc -> GetNodeByID sc id = Some n -> (id < nextID sc)%nat.
Proof.
  intros [_ Hlt] H. rewrite <- (GetNodeByID_nodeID _ _ _ H).
  rewrite Forall_forall in Hlt. apply Hlt, list_elem_of_In.
  apply (GetNodeByID_In _ _ _ H).
Qed.

Lemma GetNodeByID_AddNewNodeByClass (sc : scene) (cls name : string)
    (id : nat) (n : mrmlNode) :
  GetNodeByID sc id = Some n ->
  GetNodeByID (AddNewNodeByClass sc cls name).1 id = Some n.
Proof.
  unfold GetNodeByID, AddNewNodeByClass. cbn [fst nodes].
  induction (nodes sc) as [|m ns IH]; [discriminate|].
  cbn [app List.find]. destruct (Nat.eqb (nodeID m) id); auto.
Qed.

Lemma GetNodeByID_AddNewNodeByClass_ne (sc : scene) (cls name : string)
    (id : nat) :
  id <> nextID sc ->
  GetNodeByID (AddNewNodeByClass sc cls name).1 id = GetNodeByID sc id.
Proof.
  intros Hne. unfold GetNodeByID, AddNewNodeByClass. cbn [fst nodes].
  rewrite find_app. destruct (List.find _ (nodes sc)); [reflexivity|].
  cbn [List.find nodeID newNode].
  destruct (Nat.eqb_spec (nextID sc) id); [congruence | reflexivity].
Qed.

Lemma GetNodeByID_fresh (sc : scene) (cls name : string) :
  wellFormed sc ->
  GetNodeByID (AddNewNodeByClass sc cls name).1 (nextID sc)
  = Some (newNode (nextID sc) cls (GenerateUniqueName sc name)).
Proof.
  intros Hwf. unfold GetNodeByID, AddNewNodeByClass. cbn [fst nodes].
  rewrite find_app.
  destruct (List.find _ (nodes sc)) as [n|] eqn:E.
  - pose proof (GetNodeByID_lt sc (nextID sc) n Hwf E). lia.
  - cbn [List.find nodeID newNode]. rewrite Nat.eqb_refl. reflexivity.
Qed.

Lemma GetNodeByID_unused (sc : scene) (id : nat) :
  wellFormed sc -> (nextID sc <= id)%nat -> GetNodeByID sc id = None.
Proof.
  intros Hwf Hle. destruct (GetNodeByID sc id) as [n|] eqn:E; [|reflexivity].
  pose proof (GetNodeByID_lt sc id n Hwf E). lia.
Qed.

(** *** The names the host gives *)





Lemma append_inj_l (a b c : string) : a ++ b = a ++ c -> b = c.
Proof.
  induction a as [|x a IH]; cbn; [auto|]. intros [= H]. apply IH, H.
Qed.





Lemma getFirstNodeByClassByName_AddNewNodeByClass (sc : scene)
    (new newName cls name : string) :
  getFirstNodeByClassByName (AddNewNodeByClass sc new newName).1 cls name =
  match getFirstNodeByClassByName sc cls name with
  | Some n => Some n
  | None =>
      if IsA (newNode (nextID sc) new (GenerateUniqueName sc newName)) cls
         && String.eqb (GenerateUniqueName sc newName) name
      then Some (newNode (nextID sc) new (GenerateUniqueName sc newName))
      else None
  end.
Proof.
  unfold getFirstNodeByClassByName, AddNewNodeByClass. cbn [fst nodes].
  rewrite find_app. destruct (List.find _ (nodes sc)); [reflexivity|].
  cbn [List.find nodeName newNode]. reflexivity.
Qed.

Lemma In_updateNode (f : mrmlNode -> mrmlNode) (id : nat) (sc : scene)
    (n : mrmlNode) :
  In n (nodes sc) ->
  In (if Nat.eqb (nodeID n) id then f n else n) (nodes (updateNode f id sc)).
Proof.
  intros Hin. unfold updateNode. cbn [nodes].
  apply list_elem_of_In, list_elem_of_fmap. exists n.
  split; [reflexivity | apply list_elem_of_In, Hin].
Qed.

Lemma In_updateNode_eq (f : mrmlNode -> mrmlNode) (id : nat) (sc : scene)
    (n : mrmlNode) :
  In n (nodes sc) -> nodeID n = id -> In (f n) (nodes (updateNode f id sc)).
Proof.
  intros Hin Hid. pose proof (In_updateNode f id sc n Hin) as H.
  rewrite Hid, Nat.eqb_refl in H. exact H.
Qed.

(** ** The registry of markers *)

Lemma IsA_sameKind (a b : mrmlNode) (cls : string) :
  sameKind a b -> IsA a cls = IsA b cls.
Proof. intros (_ & Hc & _). unfold IsA. rewrite Hc. reflexivity. Qed.

Lemma keepsKind_CreateDefaultDisplayNodes : keepsKind CreateDefaultDisplayNodes.
Proof.
  intros n. unfold CreateDefaultDisplayNodes, sameKind.
  destruct (display n); auto.
Qed.

Lemma keepsKind_onDisplay f : keepsKind (onDisplay f).
Proof. intros n. unfold sameKind. auto. Qed.

Lemma keepsKind_SetAttribute k v : keepsKind (SetAttribute k v).
Proof. intros n. unfold sameKind. auto. Qed.

Lemma keepsKind_AddNodeReferenceID r i : keepsKind (AddNodeReferenceID r i).
Proof. intros n. unfold sameKind. auto. Qed.

Lemma keepsKind_set_curveType c : keepsKind (set_curveType c).
Proof. intros n. unfold sameKind. auto. Qed.

(** [getFirstNodeByClassByName] after method calls that keep the kind. *)
Lemma getFirstNodeByClassByName_updateNode (f : mrmlNode -> mrmlNode)
    (id : nat) (sc : scene) (cls name : string) :
  keepsKind f ->
  getFirstNodeByClassByName (updateNode f id sc) cls name =
  (fun n => if Nat.eqb (nodeID n) id then f n else n)
    <$> getFirstNodeByClassByName sc cls name.
Proof.
  intros Hf. unfold getFirstNodeByClassByName, updateNode. cbn [nodes].
  induction (nodes sc) as [|n ns IH]; [reflexivity|].
  cbn [fmap list_fmap List.find].
  change (list_fmap _ _ ?g ns) with (g <$> ns). rewrite IH.
  assert (Hn : IsA (if Nat.eqb (nodeID n) id then f n else n) cls
               && String.eqb
                    (nodeName (if Nat.eqb (nodeID n) id then f n else n)) name
               = IsA n cls && String.eqb (nodeName n) name).
  { destruct (Nat.eqb (nodeID n) id); [|reflexivity].
    destruct (Hf n) as (_ & Hc & Hname).
    rewrite (IsA_sameKind _ _ _ (Hf n)), Hname. reflexivity. }
  rewrite Hn. destruct (IsA n cls && String.eqb (nodeName n) name); reflexivity.
Qed.

Lemma IsA_refl (n : mrmlNode) : IsA n (className n) = true.
Proof. unfold IsA. rewrite String.eqb_refl. reflexivity. Qed.

Lemma getFirstNodeByClassByName_new (sc : scene) (cls name : string) :
  getFirstNodeByClassByName sc cls name = None ->
  GenerateUniqueName sc name = name ->
  getFirstNodeByClassByName (AddNewNodeByClass sc cls name).1 cls name
  = Some (newNode (nextID sc) cls name).
Proof.
  intros Hnone Hname.
  rewrite getFirstNodeByClassByName_AddNewNodeByClass, Hnone, Hname.
  unfold IsA. cbn [className nodeName newNode].
  rewrite !String.eqb_refl. reflexivity.
Qed.


Lemma getOrCreateInputNode_found (v : visitor) (cls name : string)
    (n : mrmlNode) :
  getFirstNodeByClassByName (v_scene v) cls name = Some n ->
  getOrCreateInputNode cls name v = Return n v.
Proof.
  intros H. unfold getOrCreateInputNode, mbind, py_bind, gets.
  rewrite H. reflexivity.
Qed.

Lemma getOrCreateInputNode_created (v : visitor) (cls name : string) :
  getFirstNodeByClassByName (v_scene v) cls name = None ->
  getOrCreateInputNode cls name v =
  Return (newNode (nextID (v_scene v)) cls
            (GenerateUniqueName (v_scene v) name))
    (Visitor
       (updateNode (onDisplay (glyphAndHandles cls)) (nextID (v_scene v))
          (updateNode CreateDefaultDisplayNodes (nextID (v_scene v))
             (AddNewNodeByClass (v_scene v) cls name).1))
       (v_parameterNode v) (distanceWeightingFunction v)).
Proof.
  intros H. unfold getOrCreateInputNode, mbind, py_bind, gets.
  rewrite H. reflexivity.
Qed.

Lemma keepsKind_keepsID (f : mrmlNode -> mrmlNode) : keepsKind f -> keepsID f.
Proof. intros Hf n. destruct (Hf n) as (H & _). exact H. Qed.



(** ** The weighting function of curves *)

Lemma weightedMarker_updateNode (f : mrmlNode -> mrmlNode) (id x : nat)
    (sc : scene) (name w : string) :
  keepsWeight w f ->
  weightedMarker sc x name w -> weightedMarker (updateNode f id sc) x name w.
Proof.
  intros [Hk Hw] (n & Hin & Hid & Hname & Hisa & Hattr).
  exists (if Nat.eqb (nodeID n) id then f n else n).
  split; [apply In_updateNode, Hin|].
  destruct (Nat.eqb (nodeID n) id); [|auto].
  destruct (Hk n) as (Hi & _ & Hn).
  rewrite Hi, Hn, (IsA_sameKind _ _ _ (Hk n)). auto.
Qed.

Lemma weightedMarker_AddNewNodeByClass (sc : scene) (cls new : string)
    (x : nat) (name w : string) :
  weightedMarker sc x name w ->
  weightedMarker (AddNewNodeByClass sc cls new).1 x name w.
Proof.
  intros (n & Hin & H). exists n. split; [|exact H].
  cbn [AddNewNodeByClass fst nodes]. apply in_or_app. left. exact Hin.
Qed.

Lemma keepsWeight_CreateDefaultDisplayNodes (w : string) :
  keepsWeight w CreateDefaultDisplayNodes.
Proof.
  split; [apply keepsKind_CreateDefaultDisplayNodes|].
  intros n. unfold CreateDefaultDisplayNodes. destruct (display n); auto.
Qed.

Lemma keepsWeight_onDisplay (w : string) f : keepsWeight w (onDisplay f).
Proof. split; [apply keepsKind_onDisplay | auto]. Qed.

Lemma keepsWeight_SetAttribute (w : string) :
  keepsWeight w (SetAttribute DWF w).
Proof.
  split; [apply keepsKind_SetAttribute|].
  intros n _. apply GetAttribute_SetAttribute.
Qed.

Lemma keepsWeight_AddNodeReferenceID (w : string) r i :
  keepsWeight w (AddNodeReferenceID r i).
Proof. split; [apply keepsKind_AddNodeReferenceID | auto]. Qed.

Lemma keepsWeight_set_curveType (w : string) c :
  keepsWeight w (set_curveType c).
Proof. split; [apply keepsKind_set_curveType | auto]. Qed.

(** Marking one node: the node gets the weight. *)
Lemma weightedMarker_SetAttribute (sc : scene) (n : mrmlNode)
    (name w : string) :
  In n (nodes sc) -> IsA n "vtkMRMLMarkupsCurveNode" = true ->
  (exists nameIndex, nodeName n = BuildName name nameIndex) ->
  weightedMarker (updateNode (SetAttribute DWF w) (nodeID n) sc) (nodeID n)
    name w.
Proof.
  intros Hin Hisa Hname. exists (SetAttribute DWF w n).
  split.
  - pose proof (In_updateNode (SetAttribute DWF w) (nodeID n) sc n Hin) as H.
    rewrite Nat.eqb_refl in H. exact H.
  - split; [reflexivity|]. split; [exact Hname|]. split; [exact Hisa|].
    apply GetAttribute_SetAttribute.
Qed.

Lemma IsA_curveClass (n : mrmlNode) (cls : string) :
  curveClass cls -> IsA n cls = true ->
  IsA n "vtkMRMLMarkupsCurveNode" = true.
Proof.
  intros [-> | ->]; [auto|]. unfold IsA, superclasses.
  destruct (String.eqb_spec (className n) "vtkMRMLMarkupsClosedCurveNode")
    as [-> | Hne]; [reflexivity|].
  cbn [orb].
  destruct (String.eqb (className n) "vtkMRMLMarkupsCurveNode"
            || String.eqb (className n) "vtkMRMLMarkupsPlaneNode"
            || String.eqb (className n) "vtkMRMLMarkupsFiducialNode");
    cbn; discriminate.
Qed.

Lemma getFirstNodeByClassByName_Some (sc : scene) (cls name : string)
    (n : mrmlNode) :
  getFirstNodeByClassByName sc cls name = Some n ->
  In n (nodes sc) /\ IsA n cls = true /\ nodeName n = name.
Proof.
  unfold getFirstNodeByClassByName. intros H. apply find_some in H.
  destruct H as [Hin H]. apply andb_true_iff in H. destruct H as [H1 H2].
  apply String.eqb_eq in H2. auto.
Qed.

(** The body of the loop of [process_InputNodes], for a curve class and
    with the weighting function set. *)
Lemma processInputNode_weight (cls name w : string) (v : visitor) :
  curveClass cls -> distanceWeightingFunction v = Some w ->
  exists id v',
    processInputNode cls name v = Return id v'
    /\ distanceWeightingFunction v' = Some w
    /\ weightedMarker (v_scene v') id name w
    /\ forall x other, weightedMarker (v_scene v) x other w ->
                       weightedMarker (v_scene v') x other w.
Proof.
  intros Hcls Hw. unfold processInputNode.
  unfold mbind at 1, py_bind at 1.
  destruct (getFirstNodeByClassByName (v_scene v) cls name) as [n|] eqn:E.
  - rewrite (getOrCreateInputNode_found _ _ _ _ E).
    destruct (getFirstNodeByClassByName_Some _ _ _ _ E) as (Hin & Hisa & Hn).
    rewrite (IsA_curveClass _ _ Hcls Hisa).
    unfold mbind, py_bind, gets, onSceneNode, modify, mret, py_ret.
    rewrite Hw. cbn [v_scene v_parameterNode distanceWeightingFunction].
    eexists _, _. split; [reflexivity|].
    cbn [v_scene v_parameterNode distanceWeightingFunction].
    split; [exact Hw|]. split.
    + apply weightedMarker_updateNode;
        [apply keepsWeight_AddNodeReferenceID|].
      apply weightedMarker_SetAttribute.
      * exact Hin.
      * exact (IsA_curveClass _ _ Hcls Hisa).
      * exists 0%nat. exact Hn.
    + intros x other Ho.
      apply weightedMarker_updateNode;
        [apply keepsWeight_AddNodeReferenceID|].
      apply weightedMarker_updateNode; [apply keepsWeight_SetAttribute|].
      exact Ho.
  - rewrite (getOrCreateInputNode_created _ _ _ E).
    set (id := nextID (v_scene v)).
    set (new := newNode id cls (GenerateUniqueName (v_scene v) name)).
    assert (Hnew : IsA new "vtkMRMLMarkupsCurveNode" = true)
      by (destruct Hcls as [-> | ->]; reflexivity).
    rewrite Hnew.
    unfold mbind, py_bind, gets, onSceneNode, modify, mret, py_ret.
    cbn [v_scene v_parameterNode distanceWeightingFunction].
    rewrite Hw.
    eexists _, _. split; [reflexivity|].
    cbn [v_scene v_parameterNode distanceWeightingFunction nodeID new newNode].
    split; [reflexivity|]. split.
    + apply weightedMarker_updateNode;
        [apply keepsWeight_AddNodeReferenceID|].
      set (m := onDisplay (glyphAndHandles cls)
                  (CreateDefaultDisplayNodes new)).
      assert (Hm : sameKind m new).
      { destruct (keepsKind_CreateDefaultDisplayNodes new)
          as (H1 & H2 & H3).
        unfold m, sameKind.
        cbn [nodeID className nodeName onDisplay set_display]. auto. }
      destruct Hm as (Hid & Hc & Hname).
      assert (Hin : In m (nodes
                 (updateNode (onDisplay (glyphAndHandles cls)) id
                    (updateNode CreateDefaultDisplayNodes id
                       (AddNewNodeByClass (v_scene v) cls name).1)))).
      { apply In_updateNode_eq.
        - apply In_updateNode_eq; [|reflexivity].
          cbn [AddNewNodeByClass fst nodes]. apply in_or_app. right.
          left. reflexivity.
        - destruct (keepsKind_CreateDefaultDisplayNodes new)
            as (H1 & _). exact H1. }
      assert (Hm : nodeID m = id) by exact Hid.
      rewrite <- Hm. apply weightedMarker_SetAttribute.
      * exact Hin.
      * unfold IsA. rewrite Hc. exact Hnew.
      * rewrite Hname. eexists. reflexivity.
    + intros x other Ho.
      apply weightedMarker_updateNode;
        [apply keepsWeight_AddNodeReferenceID|].
      apply weightedMarker_updateNode; [apply keepsWeight_SetAttribute|].
      apply weightedMarker_updateNode; [apply keepsWeight_onDisplay|].
      apply weightedMarker_updateNode;
        [apply keepsWeight_CreateDefaultDisplayNodes|].
      apply weightedMarker_AddNewNodeByClass. exact Ho.
Qed.

Lemma processInputNames_weight (cls w : string) (names : list string)
    (v : visitor) :
  curveClass cls -> distanceWeightingFunction v = Some w ->
  exists ids v',
    processInputNames cls names v = Return ids v'
    /\ distanceWeightingFunction v' = Some w
    /\ Forall2 (fun id name => weightedMarker (v_scene v') id name w)
         ids names
    /\ forall x other, weightedMarker (v_scene v) x other w ->
                       weightedMarker (v_scene v') x other w.
Proof.
  intros Hcls. revert v. induction names as [|name names IH]; intros v Hw.
  - exists [], v. split; [reflexivity|]. split; [exact Hw|].
    split; [constructor | auto].
  - destruct (processInputNode_weight cls name w v Hcls Hw)
      as (id & v1 & Hrun & Hw1 & Hname & Hmono).
    destruct (IH v1 Hw1) as (ids & v2 & Hrun2 & Hw2 & Hnames & Hmono2).
    exists (id :: ids), v2. cbn [processInputNames].
    unfold mbind, py_bind, mret, py_ret. rewrite Hrun, Hrun2.
    split; [reflexivity|]. split; [exact Hw2|]. split.
    + constructor; [apply Hmono2, Hname | exact Hnames].
    + intros x other Ho. apply Hmono2, Hmono, Ho.
Qed.

Lemma elementIds_names (names : list string) :
  elementIds (ast_Name <$> names) = Some names.
Proof.
  induction names as [|n names IH]; [reflexivity|].
  cbn [fmap list_fmap elementIds].
  change (list_fmap _ _ ast_Name names) with (ast_Name <$> names).
  rewrite IH. reflexivity.
Qed.

Lemma setCurveTypes_keeps (ids : list nat) (v : visitor) :
  exists v',
    setCurveTypes ids v = Return tt v'
    /\ distanceWeightingFunction v' = distanceWeightingFunction v
    /\ forall x name w, weightedMarker (v_scene v) x name w ->
                        weightedMarker (v_scene v') x name w.
Proof.
  revert v. induction ids as [|id ids IH]; intros v.
  - exists v. split; [reflexivity|]. auto.
  - unfold setCurveTypes. cbn [forM_].
    unfold mbind, py_bind, onSceneNode at 1, modify.
    destruct (IH (Visitor
                    (updateNode (set_curveType "ShortestDistanceOnSurface")
                       id (v_scene v))
                    (v_parameterNode v) (distanceWeightingFunction v)))
      as (v' & Hrun & Hw & Hmono).
    exists v'. split; [exact Hrun|]. split; [exact Hw|].
    intros x name w H. apply Hmono. cbn [v_scene].
    apply weightedMarker_updateNode;
      [apply keepsWeight_set_curveType|exact H].
Qed.

(** A declaration of curves: the class of its target. *)
Lemma visit_curves_unfold (v : visitor) (target cls : string)
    (names : list string) (lineno : nat) :
  (target = "_Curves" /\ cls = "vtkMRMLMarkupsCurveNode")
  \/ (target = "_ClosedCurves" /\ cls = "vtkMRMLMarkupsClosedCurveNode") ->
  curveClass cls
  /\ process_InputNodes (ast_List (ast_Name <$> names)) cls
     = processInputNames cls names
  /\ visit (ast_Assign [ast_Name target] (ast_List (ast_Name <$> names))
              lineno) v
     = (curveNodes ← processInputNames cls names;
        setCurveTypes curveNodes ;; mret PyNone) v.
Proof.
  intros [[-> ->] | [-> ->]].
  - split; [left; reflexivity|].
    unfold process_InputNodes. rewrite elementIds_names.
    split; [reflexivity|].
    cbn [visit]. unfold visit_Assign. cbn [length Nat.ltb Nat.leb].
    cbn [String.eqb Ascii.eqb Bool.eqb andb].
    unfold process_InputNodes. rewrite elementIds_names. reflexivity.
  - split; [right; reflexivity|].
    unfold process_InputNodes. rewrite elementIds_names.
    split; [reflexivity|].
    cbn [visit]. unfold visit_Assign. cbn [length Nat.ltb Nat.leb].
    cbn [String.eqb Ascii.eqb Bool.eqb andb].
    unfold process_InputNodes. rewrite elementIds_names. reflexivity.
Qed.

Lemma visit_curves_statement (v : visitor) (w target cls : string)
    (names : list string) (lineno : nat) :
  (target = "_Curves" /\ cls = "vtkMRMLMarkupsCurveNode")
  \/ (target = "_ClosedCurves" /\ cls = "vtkMRMLMarkupsClosedCurveNode") ->
  distanceWeightingFunction v = Some w ->
  exists ids v1 v',
    process_InputNodes (ast_List (ast_Name <$> names)) cls v = Return ids v1
    /\ visit (ast_Assign [ast_Name target] (ast_List (ast_Name <$> names))
                lineno) v = Return PyNone v'
    /\ distanceWeightingFunction v' = Some w
    /\ Forall2 (fun id name => weightedMarker (v_scene v') id name w)
         ids names.
Proof.
  intros Htarget Hw.
  destruct (visit_curves_unfold v target cls names lineno Htarget)
    as (Hcls & -> & ->).
  destruct (processInputNames_weight cls w names v Hcls Hw)
    as (ids & v1 & Hrun & Hw1 & Hnames & _).
  destruct (setCurveTypes_keeps ids v1) as (v2 & Hrun2 & Hw2 & Hmono).
  exists ids, v1, v2. unfold mbind, py_bind, mret, py_ret.
  rewrite Hrun, Hrun2.
  split; [reflexivity|]. split; [reflexivity|]. split; [congruence|].
  eapply Forall2_impl; [exact Hnames|]. intros id name H. apply Hmono, H.
Qed.


(** ** Function calls in a script *)

Lemma generic_visit_app (a b : list (py visitor pyvalue)) (v : visitor) :
  generic_visit (a ++ b)%list v = (generic_visit a ;; generic_visit b) v.
Proof.
  revert v. induction a as [|c a IH]; intros v; [reflexivity|].
  cbn [app generic_visit]. unfold mbind, py_bind in *.
  destruct (c v) as [x v1|e v1]; [apply IH | reflexivity].
Qed.

Lemma visit_call_statement (func : ast) (args : list ast) (lineno : nat)
    (v : visitor) :
  visit (ast_Expr (ast_Call func args lineno)) v = Return PyNone v.
Proof. reflexivity. Qed.

Lemma generic_visit_skips_call (pre post : list ast) (func : ast)
    (args : list ast) (lineno : nat) (v : visitor) :
  generic_visit (visit <$> (pre ++ ast_Expr (ast_Call func args lineno)
                                :: post)%list) v
  = generic_visit (visit <$> (pre ++ post)%list) v.
Proof.
  rewrite !fmap_app, !generic_visit_app. unfold mbind, py_bind.
  destruct (generic_visit (visit <$> pre) v) as [x v1|e v1];
    reflexivity.
Qed.

Lemma generic_visit_calls (body : list ast) (v : visitor) :
  Forall isCallStatement body ->
  generic_visit (visit <$> body) v = Return PyNone v.
Proof.
  induction 1 as [|node body Hnode _ IH]; [reflexivity|].
  destruct node as [| | value | | | | | | |]; try contradiction.
  destruct value; try contradiction.
  exact IH.
Qed.

Lemma set_mrmlScene_same (l : logic) : set_mrmlScene (mrmlScene l) l = l.
Proof. destruct l. reflexivity. Qed.

(** C2, as stated, fails: the script [foo()] on line 1 is interpreted
    with success, and no error is shown. *)
Lemma function_call_statement_does_not_fail :
  exists l',
    parseParcellationString (Some 0)
      (logicWithQuery (Parsed [ast_Expr (ast_Call (ast_Name "foo") [] 1)]))
    = Return (ResultList true "") l'
    /\ errorDisplay l' = [].
Proof. eexists. split; vm_compute; reflexivity. Qed.

(** C2, amended.  A function-call statement is passed over: the run of
    a script is the run of the script without it, and a script of such
    statements alone succeeds and changes nothing.  Interpreting never
    crashes: it hands back [None] or a success flag, with an error message
    that is empty in every case. *)
Theorem function_call_statements_are_skipped :
  (forall (pre post : list ast) (func : ast) (args : list ast)
          (lineno parameterNode : nat) (sc : scene),
     interpret
       (Parsed (pre ++ ast_Expr (ast_Call func args lineno) :: post)%list)
       parameterNode sc
     = interpret (Parsed (pre ++ post)%list) parameterNode sc)
  /\ (forall (l : logic) (p : nat) (body : list ast),
        getQueryString l (Some p) = Some (Parsed body) ->
        Forall isCallStatement body ->
        parseParcellationString (Some p) l = Return (ResultList true "") l)
  /\ (forall (parameterNode : option nat) (l : logic),
        exists r l',
          parseParcellationString parameterNode l = Return r l'
          /\ (r = ResultNone \/ exists success, r = ResultList success "")).
Proof.
  split; [|split].
  - intros pre post func args lineno parameterNode sc.
    unfold interpret. cbn [visit]. apply generic_visit_skips_call.
  - intros l p body Hquery Hcalls. unfold parseParcellationString.
    rewrite Hquery. unfold interpret. cbn [visit].
    rewrite (generic_visit_calls _ _ Hcalls). cbn [v_scene].
    rewrite set_mrmlScene_same. reflexivity.
  - intros parameterNode l. unfold parseParcellationString.
    destruct parameterNode as [p|];
      [|eexists _, _; split; [reflexivity | left; reflexivity]].
    destruct (getQueryString l (Some p)) as [queryString|];
      [|eexists _, _; split; [reflexivity | left; reflexivity]].
    destruct (interpret queryString p (mrmlScene l));
      (eexists _, _; split; [reflexivity | right; eexists; reflexivity]).
Qed.

Lemma function_call_statements_are_skipped_witness :
  parseParcellationString (Some 0)
    (logicWithQuery
       (Parsed [ast_Expr (ast_Call (ast_Name "foo") [ast_Name "A"] 1);
                ast_Expr (ast_Call (ast_Name "bar") [] 2)]))
  = Return (ResultList true "")
      (logicWithQuery
         (Parsed [ast_Expr (ast_Call (ast_Name "foo") [ast_Name "A"] 1);
                  ast_Expr (ast_Call (ast_Name "bar") [] 2)])).
Proof.
  apply (proj1 (proj2 function_call_statements_are_skipped) _ 0
           [ast_Expr (ast_Call (ast_Name "foo") [ast_Name "A"] 1);
            ast_Expr (ast_Call (ast_Name "bar") [] 2)]).
  - reflexivity.
  - repeat constructor.
Defined.

(** A call on the right-hand side of a parcel assignment, [P = f(A)] on
    line 2, fails the run; what is shown is a TypeError, and the nodes of
    the parcel made before it stay in the scene. *)
Example call_as_parcel_value :
  let l := finalState
             (parseParcellationString (Some 0)
                (logicWithQuery
                   (Parsed
                      [ast_Assign [ast_Name "_Planes"]
                         (ast_List [ast_Name "A"]) 1;
                       ast_Assign [ast_Name "P"]
                         (ast_Call (ast_Name "f") [ast_Name "A"] 2) 2]))) in
  errorDisplay l = [TypeError "iter"]
  /\ nodeName <$> nodes (mrmlScene l)
     = ["Parcellation"; "ParcellationQuery"; "A"; "P"; "P_SeedPoints";
        "P_BoundaryCut"].
Proof. split; vm_compute; reflexivity. Qed.

(** ** Loading one script after another *)

(** C3 fails on the code: after loading S1 (_Planes = [A]; P = A) and
    then S2 (_Planes = [B]; Q = B), the input-marker and output-parcel
    references are those of S2, but the tool reference of S1's job
    P_BoundaryCut is still recorded next to that of Q_BoundaryCut. *)
Theorem tool_references_survive_reload :
  let l1 := finalState (loadQuery (set_queryFile scriptS1 freshLogic)) in
  let l2 := finalState (loadQuery (set_queryFile scriptS2 l1)) in
  loadQuery (set_queryFile scriptS1 freshLogic)
    = Return (ResultList true "") l1
  /\ loadQuery (set_queryFile scriptS2 l1) = Return (ResultList true "") l2
  /\ referencedNames l1 TOOL_NODE_REFERENCE = ["P_BoundaryCut"]
  /\ referencedNames l2 INPUT_MARKUPS_REFERENCE = ["B"]
  /\ referencedNames l2 OUTPUT_MODEL_REFERENCE = ["Q"]
  /\ referencedNames l2 TOOL_NODE_REFERENCE
     = ["P_BoundaryCut"; "Q_BoundaryCut"].
Proof.
  cbv zeta.
  split; [vm_compute; reflexivity|]. split; [vm_compute; reflexivity|].
  split; [vm_compute; reflexivity|]. split; [vm_compute; reflexivity|].
  split; vm_compute; reflexivity.
Qed.

(** * Further properties of the code *)

(** ** Curves and the signed roles *)

Lemma violated_on_ray (relativeRole : string) (seedPoint direction r : point)
    (s : Q) :
  In relativeRole signedRoles ->
  directionVector seedPoint relativeRole = Some direction ->
  (0 <= s)%Q ->
  veq r (vtkMath_Add seedPoint (vtkMath_MultiplyScalar direction s)) ->
  violated relativeRole seedPoint r = false.
Proof.
  intros Hrole Hdir Hs Hr. destruct seedPoint as [x y z], r as [rx ry rz].
  unfold signedRoles in Hrole. cbn [In] in Hrole.
  destruct Hrole as [<- | [<- | [<- | [<- | []]]]];
    cbn in Hdir; injection Hdir as <-;
    destruct Hr as (H0 & H1 & H2);
    cbn [c0 c1 c2 vtkMath_Add vtkMath_MultiplyScalar s_add s_mul s_of_Z
         Scalar_Q] in H0, H1, H2;
    cbn [violated String.eqb Ascii.eqb Bool.eqb
         LATERAL_OF_RELATIVE_ROLE MEDIAL_OF_RELATIVE_ROLE
         ANTERIOR_OF_RELATIVE_ROLE POSTERIOR_OF_RELATIVE_ROLE
         SUPERIOR_OF_RELATIVE_ROLE INFERIOR_OF_RELATIVE_ROLE];
    cbn [c0 c1 c2 vtkMath_Subtract s_sub s_ltb s_of_Z Scalar_Q];
    apply Qltb_ge; change (inject_Z 0) with 0%Q;
    change (inject_Z 1) with 1%Q in *; change (inject_Z (-1)) with (-1)%Q in *;
    lra.
Qed.

Theorem signed_roles_never_correct_against_a_curve
    (relativeNode : mrmlNode) (relativeRole : string)
    (seedPoint direction : point) :
  IsA relativeNode "vtkMRMLMarkupsCurveNode" = true ->
  In relativeRole signedRoles ->
  directionVector seedPoint relativeRole = Some direction ->
  Exists (fun v =>
            (lineDistance seedPoint (seedLineEnd seedPoint direction) v
             < s_double_max)%Q) (curvePoints relativeNode) ->
  correctedSeedPoint relativeRole seedPoint
    (closestPointOn relativeNode relativeRole seedPoint) = None.
Proof.
  intros Hcurve Hrole Hdir Hex.
  rewrite correctedSeedPoint_spec.
  unfold closestPointOn. rewrite Hcurve.
  unfold getClosestPointOnCurveAlongLine. rewrite Hdir.
  destruct (closestPointLoop_spec seedPoint
              (seedLineEnd seedPoint direction) (curvePoints relativeNode)
              s_double_max vzero)
    as [[_ Hall] | (v & Hin & Hloop & _ & _)].
  - apply Exists_exists in Hex. destruct Hex as (v & Hin & Hlt).
    apply list_elem_of_In in Hin. specialize (Hall v Hin). lra.
  - rewrite Hloop. cbn [snd]. unfold linePoint.
    destruct (DistanceToLine_on_line v seedPoint
                (seedLineEnd seedPoint direction)) as (t & Ht & Hv).
    rewrite (violated_on_ray relativeRole seedPoint direction _ (10000 * t)
               Hrole Hdir); [reflexivity | lra |].
    rewrite Hv. unfold seedLineEnd. destruct seedPoint, direction. vring.
Qed.

Lemma curve_position_update_at (l : logic) (seedNode rel : nat)
    (seed relativeNode : mrmlNode) (relativeRole : string) (i : nat)
    (seedPoint direction : point) :
  GetNodeByID (mrmlScene l) seedNode = Some seed ->
  GetNodeByID (mrmlScene l) rel = Some relativeNode ->
  controlPoints seed !! i = Some seedPoint ->
  IsA relativeNode "vtkMRMLMarkupsCurveNode" = true ->
  In relativeRole signedRoles ->
  directionVector seedPoint relativeRole = Some direction ->
  Exists (fun v =>
            (lineDistance seedPoint (seedLineEnd seedPoint direction) v
             < s_double_max)%Q) (curvePoints relativeNode) ->
  updateRelativeSeedPositionAt seedNode (Some rel) relativeRole i l
  = Return tt l.
Proof.
  intros Hseed Hrel Hi Hcurve Hrole Hdir Hex.
  pose proof (signed_roles_never_correct_against_a_curve relativeNode
                relativeRole seedPoint direction Hcurve Hrole Hdir Hex) as H.
  unfold updateRelativeSeedPositionAt, mbind, py_bind, theNode.
  cbn [mbind option_bind]. rewrite Hseed, Hrel, Hi. cbn [default from_option id].
  match goal with |- match ?c with _ => _ end _ = _ => replace c with (@None point) end.
  reflexivity.
Qed.

Lemma forM_unchanged {S A} (items : list A) (f : A -> py S unit) (s : S) :
  (forall a, In a items -> f a s = Return tt s) ->
  forM_ items f s = Return tt s.
Proof.
  induction items as [|a items IH]; intros H; [reflexivity|].
  cbn [forM_]. unfold mbind, py_bind. rewrite (H a (or_introl eq_refl)).
  apply IH. intros b Hb. apply H. right. exact Hb.
Qed.

(** X1. Against a curve marker the roles anterior_of, posterior_of,
    superior_of and inferior_of never move a seed: the reference point is
    looked for on the ray that leaves the seed against the role, so the
    difference to it never has the sign that counts as a violation, and
    [updateRelativeSeedPosition] returns with nothing changed.  (Every
    seed point is asked to have a curve point whose squared distance from
    its search line is below [vtk.VTK_DOUBLE_MAX], which is 1.0e+299.) *)
Theorem curve_position_update_is_noop
    (l : logic) (seedNode rel : nat) (seed relativeNode : mrmlNode)
    (relativeRole : string) :
  GetNodeByID (mrmlScene l) seedNode = Some seed ->
  GetNodeByID (mrmlScene l) rel = Some relativeNode ->
  controlPoints seed <> [] ->
  IsA relativeNode "vtkMRMLMarkupsCurveNode" = true ->
  In relativeRole signedRoles ->
  (forall seedPoint direction,
     In seedPoint (controlPoints seed) ->
     directionVector seedPoint relativeRole = Some direction ->
     Exists (fun v =>
               (lineDistance seedPoint (seedLineEnd seedPoint direction) v
                < s_double_max)%Q) (curvePoints relativeNode)) ->
  updateRelativeSeedPosition seedNode (Some rel) relativeRole l
  = Return tt l.
Proof.
  intros Hseed Hrel Hpoints Hcurve Hrole Hex.
  unfold updateRelativeSeedPosition.
  unfold mbind at 1, py_bind at 1, theNode at 1.
  cbn [mbind option_bind]. rewrite Hrel.
  destruct (Nat.eqb (length (controlPoints relativeNode)) 0); [reflexivity|].
  unfold mbind at 1, py_bind at 1, theNode at 1.
  cbn [mbind option_bind]. rewrite Hseed.
  destruct (controlPoints seed) as [|p0 ps] eqn:Hcps; [contradiction|].
  cbn [length Nat.eqb].
  unfold mbind at 1, py_bind at 1. cbn [mret py_ret].
  unfold mbind at 1, py_bind at 1, theNode at 1.
  cbn [mbind option_bind]. rewrite Hseed.
  apply forM_unchanged. intros i Hi. apply in_seq in Hi.
  rewrite ?Hcps in Hi.
  destruct ((p0 :: ps) !! i) as [seedPoint|] eqn:Hp;
    [|apply lookup_ge_None in Hp; lia].
  assert (Hin : In seedPoint (p0 :: ps))
    by (apply list_elem_of_In; eapply list_elem_of_lookup_2; exact Hp).
  assert (Hdir : exists direction,
            directionVector seedPoint relativeRole = Some direction).
  { unfold signedRoles in Hrole. cbn [In] in Hrole.
    destruct Hrole as [<- | [<- | [<- | [<- | []]]]]; eexists; reflexivity. }
  destruct Hdir as [direction Hdir].
  apply (curve_position_update_at l seedNode rel seed relativeNode
           relativeRole i seedPoint direction); try assumption.
  - etransitivity; [exact (f_equal (fun c => c !! i) Hcps) | exact Hp].
  - apply Hex; [exact Hin | exact Hdir].
Qed.

Lemma Qabs_mirror (s r : Q) :
  (Qabs s < Qabs r -> Qabs r <= Qabs (r - (s - r)))%Q.
Proof.
  intros H. revert H.
  apply (Qabs_case s); apply (Qabs_case r);
    apply (Qabs_case (r - (s - r))); intros; lra.
Qed.

(** X2. For every role but medial_of the corrected position satisfies the
    constraint: correcting it again changes nothing.  For medial_of it
    need not: with the reference at x = 1 a seed at x = 5 is sent to
    x = -3, which is violated as well, and the next correction sends it
    back to x = 5. *)
Theorem correction_restores_the_constraint :
  (forall (relativeRole : string) (seedPoint referencePoint corrected : point),
     relativeRole <> MEDIAL_OF_RELATIVE_ROLE ->
     correctedSeedPoint relativeRole seedPoint referencePoint
       = Some corrected ->
     correctedSeedPoint relativeRole corrected referencePoint = None)
  /\ (exists p,
        correctedSeedPoint MEDIAL_OF_RELATIVE_ROLE (pt 5 0 0) (pt 1 0 0)
          = Some p
        /\ veq p (pt (-3) 0 0)
        /\ exists p', correctedSeedPoint MEDIAL_OF_RELATIVE_ROLE p (pt 1 0 0)
                        = Some p'
                      /\ veq p' (pt 5 0 0)).
Proof.
  split.
  - intros relativeRole [x y z] [rx ry rz] corrected Hrole.
    rewrite !correctedSeedPoint_spec.
    destruct (violated relativeRole (Vec3 x y z) (Vec3 rx ry rz)) eqn:Hv;
      [|discriminate].
    intros [= <-].
    assert (Hgoal : violated relativeRole
                      (mirrored relativeRole (Vec3 x y z) (Vec3 rx ry rz))
                      (Vec3 rx ry rz) = false); [|rewrite Hgoal; reflexivity].
    revert Hv. unfold violated, mirrored, roleAxis.
    destruct (String.eqb_spec relativeRole LATERAL_OF_RELATIVE_ROLE)
      as [->|_].
    { cbn. change (@s_ltb Q Scalar_Q) with Qltb.
      rewrite Qltb_lt, Qltb_ge. apply Qabs_mirror. }
    destruct (String.eqb_spec relativeRole MEDIAL_OF_RELATIVE_ROLE)
      as [->|_]; [contradiction|].
    cbn [orb].
    destruct (String.eqb_spec relativeRole ANTERIOR_OF_RELATIVE_ROLE)
      as [->|_].
    { cbn. rewrite Qltb_lt, Qltb_ge. change (inject_Z 0) with 0%Q. lra. }
    destruct (String.eqb_spec relativeRole POSTERIOR_OF_RELATIVE_ROLE)
      as [->|_].
    { cbn. rewrite Qltb_lt, Qltb_ge. change (inject_Z 0) with 0%Q. lra. }
    destruct (String.eqb_spec relativeRole SUPERIOR_OF_RELATIVE_ROLE)
      as [->|_].
    { cbn. rewrite Qltb_lt, Qltb_ge. change (inject_Z 0) with 0%Q. lra. }
    destruct (String.eqb_spec relativeRole INFERIOR_OF_RELATIVE_ROLE)
      as [->|_].
    { cbn. rewrite Qltb_lt, Qltb_ge. change (inject_Z 0) with 0%Q. lra. }
    discriminate.
  - eexists. split; [vm_compute; reflexivity|].
    split; [vm_compute; repeat split; reflexivity|].
    eexists. split; [vm_compute; reflexivity|].
    vm_compute. repeat split; reflexivity.
Qed.

(** ** References, snapping, the updating flag and pedigree arrays *)

Lemma resolve_updateNode (f : mrmlNode -> mrmlNode) (id x : nat)
    (sc : scene) :
  keepsID f ->
  nodeID <$> GetNodeByID (updateNode f id sc) x = nodeID <$> GetNodeByID sc x.
Proof.
  intros Hid. rewrite GetNodeByID_updateNode by exact Hid.
  destruct (GetNodeByID sc x) as [n|]; [|reflexivity]. cbn.
  destruct (Nat.eqb (nodeID n) id); [rewrite Hid|]; reflexivity.
Qed.

Lemma nodeReferences_updateNode (f : mrmlNode -> mrmlNode) (id : nat)
    (sc : scene) (n : mrmlNode) (role : string) :
  keepsID f ->
  nodeReferences (updateNode f id sc) n role = nodeReferences sc n role.
Proof.
  intros Hid. unfold nodeReferences. apply list_fmap_ext.
  intros _ x _. apply resolve_updateNode, Hid.
Qed.

Lemma referenceIDs_AddNodeReferenceID (role role' : string) (id : nat)
    (n : mrmlNode) :
  referenceIDs (AddNodeReferenceID role id n) role' =
  if String.eqb role role' then (referenceIDs n role' ++ [id])%list
  else referenceIDs n role'.
Proof.
  unfold referenceIDs, AddNodeReferenceID. cbn [references set_references].
  rewrite List.filter_app, fmap_app. cbn [List.filter fst].
  destruct (String.eqb role role'); [reflexivity | apply app_nil_r].
Qed.

(** X3. After [addRelativeSeed] the relative node is the last of the
    seed's relative nodes of that role, the seed is the last of the
    relative node's seeds, and the seed's relative nodes of the other roles
    are as before. *)
Theorem addRelativeSeed_round_trip (l : logic) (seedNode relativeNode : nat)
    (seed relative : mrmlNode) (relativeRole : string) :
  GetNodeByID (mrmlScene l) seedNode = Some seed ->
  GetNodeByID (mrmlScene l) relativeNode = Some relative ->
  exists l1,
    addRelativeSeed seedNode relativeNode relativeRole l = Return tt l1
    /\ (exists before,
          getRelativeNodesOfRole seedNode relativeRole l = Return before l
          /\ getRelativeNodesOfRole seedNode relativeRole l1
             = Return (before ++ [Some relativeNode])%list l1)
    /\ (exists before,
          getRelativeSeedNodes relativeNode l = Return before l
          /\ getRelativeSeedNodes relativeNode l1
             = Return (before ++ [Some seedNode])%list l1)
    /\ (forall other, other <> relativeRole ->
          exists nodesOfRole,
            getRelativeNodesOfRole seedNode other l = Return nodesOfRole l
            /\ getRelativeNodesOfRole seedNode other l1
               = Return nodesOfRole l1).
Proof.
  intros Hseed Hrel.
  set (role := RELATIVE_NODE_REFERENCE ++ "." ++ relativeRole).
  set (f := AddNodeReferenceID role relativeNode).
  set (g := AddNodeReferenceID RELATIVE_NODE_REFERENCE seedNode).
  assert (Hf : keepsID f) by (intros n; reflexivity).
  assert (Hg : keepsID g) by (intros n; reflexivity).
  set (sc2 := updateNode g relativeNode (updateNode f seedNode (mrmlScene l))).
  exists (set_mrmlScene sc2 l). split; [reflexivity|].
  assert (Hseed2 : GetNodeByID sc2 seedNode
                   = Some (if Nat.eqb seedNode relativeNode
                           then g (f seed) else f seed)).
  { unfold sc2. rewrite !GetNodeByID_updateNode, Hseed by assumption. cbn.
    rewrite (GetNodeByID_nodeID _ _ _ Hseed), Nat.eqb_refl.
    rewrite Hf, (GetNodeByID_nodeID _ _ _ Hseed). reflexivity. }
  assert (Hrel2 : GetNodeByID sc2 relativeNode
                  = Some (g (if Nat.eqb relativeNode seedNode
                             then f relative else relative))).
  { unfold sc2. rewrite !GetNodeByID_updateNode, Hrel by assumption. cbn.
    rewrite (GetNodeByID_nodeID _ _ _ Hrel).
    destruct (Nat.eqb relativeNode seedNode);
      [rewrite Hf|]; rewrite (GetNodeByID_nodeID _ _ _ Hrel), Nat.eqb_refl;
      reflexivity. }
  assert (Hres : forall x, nodeID <$> GetNodeByID sc2 x
                           = nodeID <$> GetNodeByID (mrmlScene l) x).
  { intros x. unfold sc2. rewrite !resolve_updateNode by assumption.
    reflexivity. }
  assert (Hrefs : forall n r,
            nodeReferences sc2 n r = nodeReferences (mrmlScene l) n r).
  { intros n r. unfold sc2.
    rewrite !nodeReferences_updateNode by assumption. reflexivity. }
  assert (HresRel : nodeID <$> GetNodeByID (mrmlScene l) relativeNode
                    = Some relativeNode)
    by (rewrite Hrel; cbn; f_equal; apply (GetNodeByID_nodeID _ _ _ Hrel)).
  assert (HresSeed : nodeID <$> GetNodeByID (mrmlScene l) seedNode
                     = Some seedNode)
    by (rewrite Hseed; cbn; f_equal; apply (GetNodeByID_nodeID _ _ _ Hseed)).
  assert (Hne1 : forall r, String.eqb RELATIVE_NODE_REFERENCE
                             (RELATIVE_NODE_REFERENCE ++ "." ++ r) = false)
    by reflexivity.
  assert (Hne2 : forall r, String.eqb (RELATIVE_NODE_REFERENCE ++ "." ++ r)
                             RELATIVE_NODE_REFERENCE = false)
    by reflexivity.
  split; [|split].
  - eexists. unfold getRelativeNodesOfRole.
    cbn [mrmlScene set_mrmlScene]. rewrite Hseed, Hseed2.
    split; [reflexivity|]. f_equal. fold role.
    unfold nodeReferences at 1.
    assert (E : referenceIDs
                  (if Nat.eqb seedNode relativeNode then g (f seed)
                   else f seed) role
                = (referenceIDs seed role ++ [relativeNode])%list).
    { destruct (Nat.eqb seedNode relativeNode); unfold g, f;
        rewrite ?referenceIDs_AddNodeReferenceID; unfold role at 1;
        rewrite ?Hne1, ?String.eqb_refl; reflexivity. }
    rewrite E, fmap_app. cbn [fmap list_fmap]. rewrite !Hres, HresRel.
    f_equal. apply list_fmap_ext. intros _ x _. apply Hres.
  - eexists. unfold getRelativeSeedNodes.
    cbn [mrmlScene set_mrmlScene]. rewrite Hrel, Hrel2.
    split; [reflexivity|]. f_equal.
    unfold nodeReferences at 1.
    assert (E : referenceIDs
                  (g (if Nat.eqb relativeNode seedNode then f relative
                      else relative)) RELATIVE_NODE_REFERENCE
                = (referenceIDs relative RELATIVE_NODE_REFERENCE
                   ++ [seedNode])%list).
    { unfold g. rewrite referenceIDs_AddNodeReferenceID, String.eqb_refl.
      destruct (Nat.eqb relativeNode seedNode); [|reflexivity].
      unfold f. rewrite referenceIDs_AddNodeReferenceID. unfold role.
      rewrite Hne2. reflexivity. }
    rewrite E, fmap_app. cbn [fmap list_fmap]. rewrite !Hres, HresSeed.
    f_equal. apply list_fmap_ext. intros _ x _. apply Hres.
  - intros other Hother. eexists. unfold getRelativeNodesOfRole.
    cbn [mrmlScene set_mrmlScene]. rewrite Hseed, Hseed2.
    split; [reflexivity|]. f_equal.
    unfold nodeReferences at 1.
    assert (E : referenceIDs
                  (if Nat.eqb seedNode relativeNode then g (f seed)
                   else f seed)
                  (RELATIVE_NODE_REFERENCE ++ "." ++ other)
                = referenceIDs seed (RELATIVE_NODE_REFERENCE ++ "." ++ other)).
    { assert (Hr : String.eqb role (RELATIVE_NODE_REFERENCE ++ "." ++ other)
                   = false).
      { apply String.eqb_neq. unfold role. intros H.
        apply append_inj_l, append_inj_l in H. congruence. }
      destruct (Nat.eqb seedNode relativeNode); unfold g, f;
        rewrite ?referenceIDs_AddNodeReferenceID, ?Hne1, ?Hr; reflexivity. }
    rewrite E. apply list_fmap_ext. intros _ x _. apply Hres.
Qed.

Lemma forM_onNode (A : Type) (g : A -> mrmlNode -> mrmlNode) (id : nat)
    (items : list A) (l : logic) (node : mrmlNode) :
  (forall a, keepsID (g a)) ->
  GetNodeByID (mrmlScene l) id = Some node ->
  exists l1,
    forM_ items (fun a => onNode (g a) id) l = Return tt l1
    /\ GetNodeByID (mrmlScene l1) id
       = Some (foldl (fun n a => g a n) node items)
    /\ (forall other, other <> id ->
          GetNodeByID (mrmlScene l1) other = GetNodeByID (mrmlScene l) other)
    /\ set_mrmlScene (mrmlScene l) l1 = l.
Proof.
  intros Hg. revert l node. induction items as [|a items IH]; intros l node Hn.
  - exists l. split; [reflexivity|]. split; [exact Hn|].
    split; [reflexivity | apply set_mrmlScene_same].
  - cbn [forM_ foldl]. unfold mbind, py_bind, onNode at 1, modify.
    destruct (IH (set_mrmlScene (updateNode (g a) id (mrmlScene l)) l)
                (g a node)) as (l1 & Hrun & Hnode & Hother & Hrest).
    { cbn [mrmlScene set_mrmlScene].
      apply GetNodeByID_updateNode_eq; [apply Hg | exact Hn]. }
    exists l1. split; [exact Hrun|]. split; [exact Hnode|]. split.
    + intros other Hne. rewrite (Hother other Hne).
      cbn [mrmlScene set_mrmlScene].
      apply GetNodeByID_updateNode_ne; [congruence | apply Hg].
    + destruct l1, l. cbn in *. injection Hrest as -> -> -> -> -> ->.
      reflexivity.
Qed.

Lemma closestDataSetPoint_In (points : list point) (p best : point) :
  closestDataSetPoint points p best = best
  \/ In (closestDataSetPoint points p best) points.
Proof.
  revert best. induction points as [|q rest IH]; intros best; [left; reflexivity|].
  cbn [closestDataSetPoint].
  destruct (s_ltb _ _).
  - destruct (IH q) as [-> | Hin]; right; [left; reflexivity | right; exact Hin].
  - destruct (IH best) as [-> | Hin]; [left; reflexivity | right; right; exact Hin].
Qed.

Lemma closestDataSetPoint_min (points : list point) (p best : point) :
  (vtkMath_Distance2BetweenPoints (closestDataSetPoint points p best) p
   <= vtkMath_Distance2BetweenPoints best p)%Q
  /\ forall q, In q points ->
       (vtkMath_Distance2BetweenPoints (closestDataSetPoint points p best) p
        <= vtkMath_Distance2BetweenPoints q p)%Q.
Proof.
  revert best. induction points as [|q rest IH]; intros best.
  - split; [apply Qle_refl | intros ? []].
  - cbn [closestDataSetPoint].
    change (@s_ltb Q Scalar_Q) with Qltb.
    destruct (Qltb _ _) eqn:L.
    + apply Qltb_lt in L. destruct (IH q) as [H1 H2]. split; [lra|].
      intros q' [<- | Hin]; [exact H1 | apply H2, Hin].
    + apply Qltb_ge in L. destruct (IH best) as [H1 H2]. split; [exact H1|].
      intros q' [<- | Hin]; [lra | apply H2, Hin].
Qed.

Lemma FindClosestPoint_nearest (dataSet : list point) (p : point) :
  dataSet <> [] ->
  In (FindClosestPoint dataSet p) dataSet
  /\ forall q, In q dataSet ->
       (vtkMath_Distance2BetweenPoints (FindClosestPoint dataSet p) p
        <= vtkMath_Distance2BetweenPoints q p)%Q.
Proof.
  destruct dataSet as [|q0 rest]; [contradiction|]. intros _.
  cbn [FindClosestPoint]. split.
  - destruct (closestDataSetPoint_In rest p q0) as [-> | Hin];
      [left; reflexivity | right; exact Hin].
  - destruct (closestDataSetPoint_min rest p q0) as [H1 H2].
    intros q [<- | Hin]; [exact H1 | apply H2, Hin].
Qed.

(** X4. Without a point locator [snapSeedsToSurface] changes nothing.
    With one, every control point of the seed is replaced by the point of
    the data set found for it, the other nodes stay as they are, and for a
    data set that is not empty the point found is a point of the data set
    that no other is nearer than. *)
Theorem snapSeedsToSurface_snaps_every_point (l : logic) (seedNode : nat)
    (seed : mrmlNode) :
  GetNodeByID (mrmlScene l) seedNode = Some seed ->
  (origPointLocator l = None -> snapSeedsToSurface seedNode l = Return tt l)
  /\ (forall dataSet, origPointLocator l = Some dataSet ->
        exists l1,
          snapSeedsToSurface seedNode l = Return tt l1
          /\ GetNodeByID (mrmlScene l1) seedNode
             = Some (set_controlPoints
                       (FindClosestPoint dataSet <$> controlPoints seed) seed)
          /\ (forall other, other <> seedNode ->
                GetNodeByID (mrmlScene l1) other
                = GetNodeByID (mrmlScene l) other)
          /\ (dataSet <> [] ->
              forall p,
                In (FindClosestPoint dataSet p) dataSet
                /\ forall q, In q dataSet ->
                     (vtkMath_Distance2BetweenPoints
                        (FindClosestPoint dataSet p) p
                      <= vtkMath_Distance2BetweenPoints q p)%Q)).
Proof.
  intros Hseed. split.
  - intros Hnone. unfold snapSeedsToSurface, mbind, py_bind, gets.
    rewrite Hnone. reflexivity.
  - intros dataSet Hsome.
    set (g := fun (i : nat) (n : mrmlNode) =>
                set_controlPoints
                  (<[i:=FindClosestPoint dataSet
                          (default vzero (controlPoints n !! i))]>
                     (controlPoints n)) n).
    destruct (forM_onNode nat g seedNode (seq 0 (length (controlPoints seed)))
                l seed) as (l1 & Hrun & Hnode & Hother & _);
      [intros a n; reflexivity | exact Hseed |].
    exists l1. split; [|split; [|split]].
    + unfold snapSeedsToSurface, mbind, py_bind, gets, theNode.
      rewrite Hsome. cbn [mbind option_bind]. rewrite Hseed. exact Hrun.
    + rewrite Hnode. f_equal.
      assert (E : forall (idx : list nat) (n : mrmlNode),
                foldl (fun n a => g a n) n idx
                = set_controlPoints
                    (foldl (fun cps i =>
                              <[i := FindClosestPoint dataSet
                                       (default vzero (cps !! i))]> cps)
                       (controlPoints n) idx) n).
      { induction idx as [|i idx IH]; intros n; cbn [foldl].
        - destruct n; reflexivity.
        - rewrite IH. unfold g. cbn [controlPoints set_controlPoints].
          reflexivity. }
      rewrite E, snap_fold. reflexivity.
    + exact Hother.
    + intros Hne p. apply FindClosestPoint_nearest, Hne.
Qed.

Lemma resetsUpdating_bind {A} (was : bool) (a : py logic A)
    (f : A -> py logic unit) :
  inv isUpdating a -> (forall x, resetsUpdating was (f x)) ->
  resetsUpdating was (a ≫= f).
Proof.
  intros Ha Hf l Hl. unfold mbind, py_bind.
  specialize (Ha l Hl). destruct (a l) as [x l1 | e l1]; cbn in Ha.
  - apply Hf, Ha.
  - exact Ha.
Qed.

Lemma isUpdating_onNode (f : mrmlNode -> mrmlNode) (id : nat) (l : logic) :
  True -> writesPoints f ->
  isUpdating l -> isUpdating (set_mrmlScene (updateNode f id (mrmlScene l)) l).
Proof. intros _ _ H. exact H. Qed.

Lemma relativeSeedDerivation_flag (seedNode : nat) (l : logic) :
  match relativeSeedDerivation seedNode l with
  | Return _ l' => updatingSeedNodes l' = updatingSeedNodes l
  | Raise _ l' => isUpdating l'
  end.
Proof.
  unfold relativeSeedDerivation.
  unfold mbind at 1, py_bind at 1, gets at 1.
  unfold mbind at 1, py_bind at 1, modify at 1.
  set (was := updatingSeedNodes l).
  assert (Hstart : isUpdating (set_updatingSeedNodes true l)) by reflexivity.
  revert Hstart. generalize (set_updatingSeedNodes true l). intros l0 Hl0.
  pose proof isUpdating_onNode as Hw.
  refine (resetsUpdating_bind was _ _ _ _ l0 Hl0);
    [apply inv_theNode | intros seed].
  apply resetsUpdating_bind.
  { destruct (Nat.eqb _ _);
      [apply (inv_initializeSeedNode isUpdating (fun _ => True) Hw); exact I
      | apply inv_ret]. }
  intros _. apply resetsUpdating_bind.
  { apply inv_forM. intros role.
    apply inv_bind; [apply inv_getRelativeNodesOfRole|]. intros refs.
    apply inv_forM. intros r.
    apply (inv_updateRelativeSeedPosition isUpdating (fun _ => True) Hw).
    exact I. }
  intros _. apply resetsUpdating_bind.
  { apply (inv_snapSeedsToSurface isUpdating (fun _ => True) Hw). exact I. }
  intros _ l1 _. reflexivity.
Qed.

(** X5. [updateRelativeSeedNode] puts the flag [updatingSeedNodes] back
    when it returns, but not when the derivation raises: the flag is then
    left set, and from then on [onSeedNodeModified] no longer marks a seed
    as placed by hand.  A seed whose constraint refers to a node that is
    gone is such a case. *)
Theorem failed_derivation_leaves_updating_set :
  (forall (seedNode : option nat) (l : logic),
     match updateRelativeSeedNode seedNode l with
     | Return _ l' => updatingSeedNodes l' = updatingSeedNodes l
     | Raise _ l' =>
         updatingSeedNodes l' = true
         /\ forall seed, onSeedNodeModified seed l' = Return tt l'
     end)
  /\ (exists l',
        updatingSeedNodes danglingConstraint = false
        /\ updateRelativeSeedNode (Some 1) danglingConstraint
           = Raise (AttributeError "GetNumberOfControlPoints") l'
        /\ updatingSeedNodes l' = true).
Proof.
  split.
  - intros seedNode l. unfold updateRelativeSeedNode.
    destruct (seedNode ≫= GetNodeByID (mrmlScene l)) as [seed|];
      [|reflexivity].
    destruct (attributeIs _ _); [reflexivity|].
    destruct (_ && _); [reflexivity|].
    pose proof (relativeSeedDerivation_flag (nodeID seed) l) as H.
    destruct (relativeSeedDerivation (nodeID seed) l) as [[] l'|e l'];
      [exact H|].
    split; [exact H|]. intros s.
    unfold onSeedNodeModified, mbind, py_bind, gets.
    unfold isUpdating in H. rewrite H. reflexivity.
  - eexists. split; [reflexivity|].
    split; [vm_compute; reflexivity | reflexivity].
Qed.

Lemma addArray_In (name : string) (arrays : list string) :
  In name (addArray name arrays)
  /\ (forall a, In a arrays -> In a (addArray name arrays)).
Proof.
  unfold addArray. destruct (existsb (String.eqb name) arrays) eqn:E.
  - split; [|auto]. apply existsb_exists in E. destruct E as (x & Hin & Hx).
    apply String.eqb_eq in Hx. subst. exact Hin.
  - split; [apply in_or_app; right; left; reflexivity|].
    intros a Ha. apply in_or_app. left. exact Ha.
Qed.

Lemma addArray_idempotent (name : string) (arrays : list string) :
  addArray name (addArray name arrays) = addArray name arrays.
Proof.
  unfold addArray at 1.
  assert (H : existsb (String.eqb name) (addArray name arrays) = true).
  { apply existsb_exists. exists name.
    split; [apply (proj1 (addArray_In _ _)) | apply String.eqb_refl]. }
  rewrite H. reflexivity.
Qed.

Lemma updateNode_twice (f : mrmlNode -> mrmlNode) (id : nat) (sc : scene) :
  keepsID f -> (forall n, f (f n) = f n) ->
  updateNode f id (updateNode f id sc) = updateNode f id sc.
Proof.
  intros Hid Hf. unfold updateNode. cbn [nodes nextID]. f_equal.
  rewrite <- list_fmap_compose. apply list_fmap_ext. intros _ n _. cbn.
  destruct (Nat.eqb (nodeID n) id) eqn:E; [|rewrite E; reflexivity].
  rewrite Hid, E. apply Hf.
Qed.

(** X6. [initializePedigreeIds] always returns, and calling it again
    changes nothing more.  When the parameter node refers to an orig
    surface with a mesh, that mesh has the arrays pointPedigree and
    cellPedigree afterwards, with its points and the arrays it had. *)
Theorem initializePedigreeIds_idempotent (parameterNode : option nat)
    (l : logic) :
  exists l1,
    initializePedigreeIds parameterNode l = Return tt l1
    /\ initializePedigreeIds parameterNode l1 = Return tt l1
    /\ forall p origModelNode pd,
         parameterNode ≫= GetNodeByID (mrmlScene l) = Some p ->
         GetNodeReference (mrmlScene l) p ORIG_MODEL_REFERENCE
           = Some origModelNode ->
         modelPolyData origModelNode = Some pd ->
         exists pd1,
           modelPolyData <$> GetNodeByID (mrmlScene l1) (nodeID origModelNode)
             = Some (Some pd1)
           /\ pdPoints pd1 = pdPoints pd
           /\ In "pointPedigree" (pdPointArrays pd1)
           /\ In "cellPedigree" (pdCellArrays pd1)
           /\ (forall a, In a (pdPointArrays pd) -> In a (pdPointArrays pd1))
           /\ (forall a, In a (pdCellArrays pd) -> In a (pdCellArrays pd1)).
Proof.
  unfold initializePedigreeIds.
  destruct parameterNode as [pid|];
    [|exists l; repeat split; try reflexivity; intros ? ? ? [=]].
  cbn [mbind option_bind].
  destruct (GetNodeByID (mrmlScene l) pid) as [p|] eqn:Hp;
    [|exists l; rewrite Hp; repeat split; try reflexivity; intros ? ? ? [=]].
  destruct (GetNodeReference (mrmlScene l) p ORIG_MODEL_REFERENCE)
    as [orig|] eqn:Horig;
    [|exists l; rewrite Hp, Horig; repeat split; try reflexivity;
      intros ? ? ? [= <-]; rewrite Horig; intros [=]].
  destruct (modelPolyData orig) as [pd|] eqn:Hpd;
    [|exists l; rewrite Hp, Horig, Hpd; repeat split; try reflexivity;
      intros ? ? ? [= <-]; rewrite Horig; intros [= <-]; rewrite Hpd;
      intros [=]].
  set (pd1 := PolyData (pdPoints pd)
                (addArray "pointPedigree" (pdPointArrays pd))
                (addArray "cellPedigree" (pdCellArrays pd))).
  set (f := set_modelPolyData (Some pd1)).
  assert (Hf : keepsID f) by (intros n; reflexivity).
  set (g := fun n => if Nat.eqb (nodeID n) (nodeID orig) then f n else n).
  unfold GetNodeReference, GetNthNodeReference in Horig.
  destruct (referenceIDs p ORIG_MODEL_REFERENCE !! 0) as [oid|] eqn:Hoid;
    [|discriminate].
  cbn [mbind option_bind] in Horig.
  pose proof (GetNodeByID_nodeID _ _ _ Horig) as Hnid. subst oid.
  exists (set_mrmlScene (updateNode f (nodeID orig) (mrmlScene l)) l).
  split; [reflexivity|].
  cbn [mrmlScene set_mrmlScene].
  assert (Hp1 : GetNodeByID (updateNode f (nodeID orig) (mrmlScene l)) pid
                = Some (g p))
    by (rewrite GetNodeByID_updateNode, Hp by exact Hf; reflexivity).
  assert (Ho1 : GetNodeByID (updateNode f (nodeID orig) (mrmlScene l))
                  (nodeID orig)
                = Some (f orig)).
  { rewrite GetNodeByID_updateNode, Horig by exact Hf. cbn.
    rewrite Nat.eqb_refl. reflexivity. }
  assert (Hrefs : referenceIDs (g p) ORIG_MODEL_REFERENCE
                  = referenceIDs p ORIG_MODEL_REFERENCE)
    by (unfold g; destruct (Nat.eqb _ _); reflexivity).
  split.
  - rewrite Hp1. unfold GetNodeReference, GetNthNodeReference.
    rewrite Hrefs, Hoid. cbn [mbind option_bind]. rewrite Ho1.
    cbn [modelPolyData f set_modelPolyData pd1 pdPoints pdPointArrays
         pdCellArrays nodeID].
    rewrite !addArray_idempotent. fold pd1. fold f.
    unfold onNode, modify. cbn [mrmlScene set_mrmlScene].
    rewrite updateNode_twice; [reflexivity | exact Hf | reflexivity].
  - intros p' orig' pd' [= <-]. unfold GetNodeReference, GetNthNodeReference.
    rewrite Hoid. cbn [mbind option_bind]. rewrite Horig.
    intros [= <-]. rewrite Hpd. intros [= <-].
    exists pd1. rewrite Ho1.
    split; [reflexivity|]. split; [reflexivity|].
    split; [apply (proj1 (addArray_In _ _))|].
    split; [apply (proj1 (addArray_In _ _))|].
    split; intros a; apply (proj2 (addArray_In _ _)).
Qed.

(** ** What the visitor keeps *)

Section AstInduction.

Variable Q : ast -> Prop.

Hypothesis Q_Module : forall body, Forall Q body -> Q (ast_Module body).

Hypothesis Q_Assign :
  forall targets value lineno, Q value -> Q (ast_Assign targets value lineno).

Hypothesis Q_Expr : forall value, Q value -> Q (ast_Expr value).

Hypothesis Q_Name : forall id, Q (ast_Name id).

Hypothesis Q_Str : forall s, Q (ast_Str s).

Hypothesis Q_List : forall elts, Forall Q elts -> Q (ast_List elts).

Hypothesis Q_BinOp :
  forall leftValue rightValue,
    Q leftValue -> Q rightValue -> Q (ast_BinOp leftValue rightValue).

Hypothesis Q_UnaryOp : forall operand, Q (ast_UnaryOp operand).

Hypothesis Q_Call : forall func args lineno, Q (ast_Call func args lineno).

Hypothesis Q_Other :
  forall children, Forall Q children -> Q (ast_Other children).

Lemma ast_visited_ind (node : ast) : Q node.
Proof.
  revert node.
  exact
    (fix visited (node : ast) : Q node :=
       let all :=
         fix all (l : list ast) : Forall Q l :=
           match l with
           | [] => ListDef.Forall_nil Q
           | x :: rest => ListDef.Forall_cons Q x rest (visited x) (all rest)
           end in
       match node with
       | ast_Module body => Q_Module body (all body)
       | ast_Assign targets value lineno =>
           Q_Assign targets value lineno (visited value)
       | ast_Expr value => Q_Expr value (visited value)
       | ast_Name id => Q_Name id
       | ast_Str s => Q_Str s
       | ast_List elts => Q_List elts (all elts)
       | ast_BinOp leftValue rightValue =>
           Q_BinOp leftValue rightValue (visited leftValue)
             (visited rightValue)
       | ast_UnaryOp operand => Q_UnaryOp operand
       | ast_Call func args lineno => Q_Call func args lineno
       | ast_Other children => Q_Other children (all children)
       end).
Qed.

End AstInduction.

Lemma visitorWrite_CreateDefaultDisplayNodes :
  visitorWrite CreateDefaultDisplayNodes.
Proof.
  intros n. unfold CreateDefaultDisplayNodes, sameContent.
  destruct (display n); auto 10.
Qed.

Lemma visitorWrite_onDisplay f : visitorWrite (onDisplay f).
Proof. intros n. unfold sameContent. auto 10. Qed.

Lemma visitorWrite_SetAttribute k v : visitorWrite (SetAttribute k v).
Proof. intros n. unfold sameContent. auto 10. Qed.

Lemma visitorWrite_set_curveType c : visitorWrite (set_curveType c).
Proof. intros n. unfold sameContent. auto 10. Qed.

Lemma visitorWrite_set_toolName c : visitorWrite (set_toolName c).
Proof. intros n. unfold sameContent. auto 10. Qed.

Lemma visitorWrite_set_continuousUpdate c :
  visitorWrite (set_continuousUpdate c).
Proof. intros n. unfold sameContent. auto 10. Qed.

Lemma visitorWrite_AddNodeReferenceID (role : string) (id : nat) :
  role <> INPUT_QUERY_REFERENCE -> visitorWrite (AddNodeReferenceID role id).
Proof.
  intros Hrole n. split; [unfold sameContent; auto 10|].
  rewrite referenceIDs_AddNodeReferenceID.
  destruct (String.eqb_spec role INPUT_QUERY_REFERENCE); [contradiction|].
  reflexivity.
Qed.

Lemma assocSet_filter_ne {V} (l : list (string * V)) (name other : string)
    (v : V) :
  name <> other ->
  List.filter (fun r => String.eqb (fst r) other) (assocSet l name v)
  = List.filter (fun r => String.eqb (fst r) other) l.
Proof.
  intros Hne. induction l as [|[k w] l IH]; cbn [assocSet List.filter fst].
  - destruct (String.eqb_spec name other); [contradiction|reflexivity].
  - destruct (String.eqb_spec k name) as [->|Hk]; cbn [List.filter fst].
    + destruct (String.eqb_spec name other); [contradiction|reflexivity].
    + rewrite IH. reflexivity.
Qed.

Lemma referenceIDs_SetNodeReferenceID_ne (role other : string) (id : nat)
    (n : mrmlNode) :
  role <> other ->
  referenceIDs (SetNodeReferenceID role id n) other = referenceIDs n other.
Proof.
  intros Hne. unfold referenceIDs, SetNodeReferenceID.
  cbn [references set_references]. rewrite assocSet_filter_ne by exact Hne.
  reflexivity.
Qed.

Lemma visitorWrite_SetNodeReferenceID (role : string) (id : nat) :
  role <> INPUT_QUERY_REFERENCE -> visitorWrite (SetNodeReferenceID role id).
Proof.
  intros Hrole n. split; [unfold sameContent; auto 10|].
  apply referenceIDs_SetNodeReferenceID_ne, Hrole.
Qed.

Create HintDb visitor.

(** A property of the visitor's state that survives what the visitor
    does: its writes to nodes, the nodes it adds, and a change of the
    weighting function. *)
Section VisitorInvariant.

Variable P : visitor -> Prop.

Hypothesis P_write :
  forall (f : mrmlNode -> mrmlNode) (id : nat) (v : visitor),
    visitorWrite f -> P v ->
    P (Visitor (updateNode f id (v_scene v)) (v_parameterNode v)
         (distanceWeightingFunction v)).

Hypothesis P_add :
  forall (cls name : string) (v : visitor),
    P v ->
    P (Visitor (AddNewNodeByClass (v_scene v) cls name).1 (v_parameterNode v)
         (distanceWeightingFunction v)).

Hypothesis P_weight :
  forall (w : string) (v : visitor),
    P v -> P (Visitor (v_scene v) (v_parameterNode v) (Some w)).

Lemma inv_onSceneNode (f : mrmlNode -> mrmlNode) (id : nat) :
  visitorWrite f -> inv P (onSceneNode f id).
Proof. intros Hf v Hv. apply P_write; assumption. Qed.

Lemma inv_addNewNodeByClass (cls name : string) :
  inv P (addNewNodeByClass cls name).
Proof. intros v Hv. apply P_add, Hv. Qed.

#[local] Hint Resolve inv_ret inv_raise inv_gets inv_bind inv_forM
  inv_onSceneNode inv_addNewNodeByClass
  visitorWrite_CreateDefaultDisplayNodes visitorWrite_onDisplay
  visitorWrite_SetAttribute visitorWrite_set_curveType
  visitorWrite_set_toolName visitorWrite_set_continuousUpdate : visitor.

Lemma inv_getOrCreateInputNode (cls name : string) :
  inv P (getOrCreateInputNode cls name).
Proof.
  unfold getOrCreateInputNode.
  apply inv_bind; [apply inv_gets|]. intros sc.
  destruct (getFirstNodeByClassByName sc cls name); auto 10 with visitor.
Qed.

Lemma inv_processInputNode (cls name : string) :
  inv P (processInputNode cls name).
Proof.
  unfold processInputNode.
  apply inv_bind; [apply inv_getOrCreateInputNode|]. intros inputNode.
  apply inv_bind.
  { destruct (IsA inputNode _); [|apply inv_ret].
    apply inv_bind; [apply inv_gets|]. intros [w|]; auto with visitor. }
  intros _. apply inv_bind; [apply inv_gets|]. intros p.
  apply inv_bind; [|auto with visitor].
  apply inv_onSceneNode, visitorWrite_AddNodeReferenceID. discriminate.
Qed.

Lemma inv_processInputNames (cls : string) (names : list string) :
  inv P (processInputNames cls names).
Proof.
  induction names as [|name names IH]; cbn [processInputNames];
    [apply inv_ret|].
  apply inv_bind; [apply inv_processInputNode|]. intros id.
  apply inv_bind; [exact IH|]. intros ids. apply inv_ret.
Qed.

Lemma inv_process_InputNodes (node : ast) (cls : string) :
  inv P (process_InputNodes node cls).
Proof.
  unfold process_InputNodes, logging_error.
  destruct node; try apply inv_raise.
  destruct (elementIds elts); [apply inv_processInputNames | apply inv_raise].
Qed.

Lemma inv_setCurveTypes (ids : list nat) : inv P (setCurveTypes ids).
Proof. unfold setCurveTypes. auto with visitor. Qed.

Lemma inv_declareParcel (targetId : string) (visitValue : py visitor pyvalue) :
  inv P visitValue -> inv P (declareParcel targetId visitValue).
Proof.
  intros Hvalue. unfold declareParcel.
  apply inv_bind; [exact Hvalue|]. intros nodes.
  apply inv_bind; [apply inv_gets|]. intros p.
  apply inv_bind; [apply inv_gets|]. intros sc.
  apply inv_bind.
  { destruct (getFirstNodeByClassByName sc _ _); auto with visitor. }
  intros outputModel.
  apply inv_bind; [apply inv_gets|]. intros sc1.
  apply inv_bind.
  { destruct (display <$> GetNodeByID sc1 outputModel) as [[d|]|];
      auto 10 with visitor. }
  intros _. apply inv_bind.
  { apply inv_onSceneNode, visitorWrite_AddNodeReferenceID. discriminate. }
  intros _. apply inv_bind; [apply inv_gets|]. intros sc2.
  apply inv_bind.
  { destruct (getFirstNodeByClassByName sc2 _ _); auto 10 with visitor. }
  intros inputSeed.
  apply inv_bind; [apply inv_gets|]. intros sc3.
  apply inv_bind.
  { destruct (getFirstNodeByClassByName sc3 _ _); auto with visitor. }
  intros toolNode.
  apply inv_bind; [auto with visitor|]. intros _.
  apply inv_bind.
  { apply inv_onSceneNode, visitorWrite_SetNodeReferenceID. discriminate. }
  intros _. apply inv_bind.
  { apply inv_onSceneNode, visitorWrite_SetNodeReferenceID. discriminate. }
  intros _. apply inv_bind.
  { destruct nodes as [|ids]; [apply inv_raise|].
    apply inv_forM. intros inputNode.
    apply inv_onSceneNode, visitorWrite_AddNodeReferenceID. discriminate. }
  intros _. apply inv_bind; [auto with visitor|]. intros _.
  apply inv_onSceneNode, visitorWrite_AddNodeReferenceID. discriminate.
Qed.

Lemma inv_visit_Assign (targets : list ast) (value : ast)
    (visitValue : py visitor pyvalue) :
  inv P visitValue -> inv P (visit_Assign targets value visitValue).
Proof.
  intros Hvalue. unfold visit_Assign, logging_error.
  destruct (Nat.ltb 1 (length targets)); [apply inv_raise|].
  destruct targets as [|target targets]; [apply inv_raise|].
  destruct target; try apply inv_raise.
  destruct (String.eqb id "_Planes").
  { apply inv_bind; [apply inv_process_InputNodes | intros; apply inv_ret]. }
  destruct (String.eqb id "_Curves").
  { apply inv_bind; [apply inv_process_InputNodes|]. intros ids.
    apply inv_bind; [apply inv_setCurveTypes | intros; apply inv_ret]. }
  destruct (String.eqb id "_ClosedCurves").
  { apply inv_bind; [apply inv_process_InputNodes|]. intros ids.
    apply inv_bind; [apply inv_setCurveTypes | intros; apply inv_ret]. }
  destruct (String.eqb id "_DistanceWeightingFunction").
  { destruct value; try apply inv_raise.
    apply inv_bind; [|intros; apply inv_ret].
    apply inv_modify. intros v Hv. apply P_weight, Hv. }
  apply inv_bind; [apply inv_declareParcel, Hvalue | intros; apply inv_ret].
Qed.

Lemma inv_generic_visit (children : list (py visitor pyvalue)) :
  Forall (inv P) children -> inv P (generic_visit children).
Proof.
  induction 1 as [|c cs Hc _ IH]; cbn [generic_visit]; [apply inv_ret|].
  apply inv_bind; [exact Hc | intros _; exact IH].
Qed.

Lemma inv_visit (node : ast) : inv P (visit node).
Proof.
  induction node using ast_visited_ind; cbn [visit].
  - apply inv_generic_visit, Forall_fmap. assumption.
  - apply inv_visit_Assign. assumption.
  - apply inv_generic_visit. constructor; [assumption | constructor].
  - unfold visit_Name. apply inv_bind; [apply inv_gets|]. intros sc.
    destruct (getNode sc id); [apply inv_ret | apply inv_raise].
  - apply inv_ret.
  - apply inv_generic_visit, Forall_fmap. assumption.
  - unfold visit_BinOp. apply inv_bind; [assumption|]. intros l.
    apply inv_bind; [assumption|]. intros r.
    destruct l, r; (apply inv_ret || apply inv_raise).
  - apply inv_raise.
  - apply inv_ret.
  - apply inv_generic_visit, Forall_fmap. assumption.
Qed.

Lemma inv_interpret (queryString : script) (p : nat) (sc : scene) :
  P (Visitor sc p None) -> P (finalState (interpret queryString p sc)).
Proof.
  intros H. unfold interpret. destruct queryString as [body|lineno].
  - apply (inv_visit (ast_Module body)), H.
  - exact H.
Qed.

End VisitorInvariant.

Lemma sameContent_refl (n : mrmlNode) : sameContent n n.
Proof. unfold sameContent. auto 10. Qed.

Lemma sameContent_trans (a b c : mrmlNode) :
  sameContent a b -> sameContent b c -> sameContent a c.
Proof.
  unfold sameContent.
  intros (?&?&?&?&?&?) (?&?&?&?&?&?). repeat split; congruence.
Qed.

Lemma visitorWrite_keepsID (f : mrmlNode -> mrmlNode) :
  visitorWrite f -> keepsID f.
Proof. intros Hf n. destruct (Hf n) as ((H & _) & _). exact H. Qed.

Lemma keeps_updateNode (f : mrmlNode -> mrmlNode) (id x : nat)
    (n : mrmlNode) (sc : scene) :
  visitorWrite f -> keeps x n sc -> keeps x n (updateNode f id sc).
Proof.
  intros Hf (n' & Hn & Hc). unfold keeps.
  rewrite GetNodeByID_updateNode by (apply visitorWrite_keepsID, Hf).
  rewrite Hn. cbn. eexists. split; [reflexivity|].
  destruct (Nat.eqb (nodeID n') id); [|exact Hc].
  eapply sameContent_trans; [apply Hf | exact Hc].
Qed.

Lemma keeps_interpret (queryString : script) (p : nat) (sc : scene)
    (id : nat) (n : mrmlNode) :
  keeps id n sc ->
  keeps id n (v_scene (finalState (interpret queryString p sc))).
Proof.
  intros H.
  apply (inv_interpret (fun v => keeps id n (v_scene v))); cbn [v_scene].
  - intros f x v Hf Hv. apply keeps_updateNode; assumption.
  - intros cls name v (n' & Hn & Hc). exists n'.
    split; [apply GetNodeByID_AddNewNodeByClass, Hn | exact Hc].
  - intros w v Hv. exact Hv.
  - exact H.
Qed.

Lemma parseParcellationString_scene (parameterNode : option nat) (l : logic) :
  mrmlScene (finalState (parseParcellationString parameterNode l))
  = match parameterNode, getQueryString l parameterNode with
    | Some p, Some queryString =>
        v_scene (finalState (interpret queryString p (mrmlScene l)))
    | _, _ => mrmlScene l
    end.
Proof.
  unfold parseParcellationString.
  destruct parameterNode as [p|]; [|reflexivity].
  destruct (getQueryString l (Some p)) as [q|]; [|reflexivity].
  destruct (interpret q p (mrmlScene l)); reflexivity.
Qed.

(** X7. Interpreting a script removes no node and keeps, for every node
    of the scene, its class, its name, its control points, its mesh and
    its text, however the run ends; the same holds for
    [parseParcellationString]. *)
Theorem interpreting_keeps_the_nodes_of_the_scene :
  (forall (queryString : script) (p : nat) (sc : scene) (id : nat)
          (n : mrmlNode),
     GetNodeByID sc id = Some n ->
     exists n',
       GetNodeByID (v_scene (finalState (interpret queryString p sc))) id
         = Some n'
       /\ className n' = className n /\ nodeName n' = nodeName n
       /\ controlPoints n' = controlPoints n
       /\ modelPolyData n' = modelPolyData n
       /\ text n' = text n)
  /\ (forall (parameterNode : option nat) (l : logic) (id : nat)
             (n : mrmlNode),
        GetNodeByID (mrmlScene l) id = Some n ->
        exists n',
          GetNodeByID
            (mrmlScene (finalState (parseParcellationString parameterNode l)))
            id = Some n'
          /\ className n' = className n /\ nodeName n' = nodeName n
          /\ controlPoints n' = controlPoints n
          /\ modelPolyData n' = modelPolyData n
          /\ text n' = text n).
Proof.
  split.
  - intros queryString p sc id n Hn.
    destruct (keeps_interpret queryString p sc id n) as (n' & Hn' & Hc).
    { exists n. split; [exact Hn | apply sameContent_refl]. }
    exists n'. split; [exact Hn'|]. destruct Hc as (_ & Hc). exact Hc.
  - intros parameterNode l id n Hn.
    rewrite parseParcellationString_scene.
    destruct parameterNode as [p|];
      [|exists n; split; [exact Hn | auto 10]].
    destruct (getQueryString l (Some p)) as [q|];
      [|exists n; split; [exact Hn | auto 10]].
    destruct (keeps_interpret q p (mrmlScene l) id n) as (n' & Hn' & Hc).
    { exists n. split; [exact Hn | apply sameContent_refl]. }
    exists n'. split; [exact Hn'|]. destruct Hc as (_ & Hc). exact Hc.
Qed.

(** ** The weighting function in force *)

Lemma weightFree_keeps (w0 : option string) (node : ast) :
  weightFree node = true ->
  inv (fun v => distanceWeightingFunction v = w0) (visit node).
Proof.
  set (P := fun v : visitor => distanceWeightingFunction v = w0).
  assert (P_write :
    forall (f : mrmlNode -> mrmlNode) (id : nat) (v : visitor),
      visitorWrite f -> P v ->
      P (Visitor (updateNode f id (v_scene v)) (v_parameterNode v)
           (distanceWeightingFunction v))) by (intros f id v _ H; exact H).
  assert (P_add :
    forall (cls name : string) (v : visitor),
      P v ->
      P (Visitor (AddNewNodeByClass (v_scene v) cls name).1
           (v_parameterNode v) (distanceWeightingFunction v)))
    by (intros cls name v H; exact H).
  induction node using ast_visited_ind; cbn [visit weightFree]; intros Hfree.
  - apply inv_generic_visit, Forall_fmap.
    rewrite forallb_forall in Hfree. rewrite List.Forall_forall in *.
    intros x Hx. apply H; [exact Hx | apply Hfree, Hx].
  - apply andb_true_iff in Hfree. destruct Hfree as [Htarget Hvalue].
    specialize (IHnode Hvalue).
    unfold visit_Assign, logging_error.
    destruct (Nat.ltb 1 (length targets)); [apply inv_raise|].
    destruct targets as [|target targets]; [apply inv_raise|].
    destruct target; try apply inv_raise.
    destruct (String.eqb id "_Planes").
    { apply inv_bind; [apply inv_process_InputNodes; assumption|].
      intros; apply inv_ret. }
    destruct (String.eqb id "_Curves").
    { apply inv_bind; [apply inv_process_InputNodes; assumption|].
      intros ids.
      apply inv_bind; [apply inv_setCurveTypes; assumption|].
      intros; apply inv_ret. }
    destruct (String.eqb id "_ClosedCurves").
    { apply inv_bind; [apply inv_process_InputNodes; assumption|].
      intros ids.
      apply inv_bind; [apply inv_setCurveTypes; assumption|].
      intros; apply inv_ret. }
    destruct (String.eqb id "_DistanceWeightingFunction"); [discriminate|].
    apply inv_bind; [apply inv_declareParcel; assumption|].
    intros; apply inv_ret.
  - apply inv_generic_visit. constructor; [auto | constructor].
  - unfold visit_Name. apply inv_bind; [apply inv_gets|]. intros sc.
    destruct (getNode sc id); [apply inv_ret | apply inv_raise].
  - apply inv_ret.
  - apply inv_generic_visit, Forall_fmap.
    rewrite forallb_forall in Hfree. rewrite List.Forall_forall in *.
    intros x Hx. apply H; [exact Hx | apply Hfree, Hx].
  - apply andb_true_iff in Hfree. destruct Hfree as [Hl Hr].
    unfold visit_BinOp. apply inv_bind; [auto|]. intros l.
    apply inv_bind; [auto|]. intros r.
    destruct l, r; (apply inv_ret || apply inv_raise).
  - apply inv_raise.
  - apply inv_ret.
  - apply inv_generic_visit, Forall_fmap.
    rewrite forallb_forall in Hfree. rewrite List.Forall_forall in *.
    intros x Hx. apply H; [exact Hx | apply Hfree, Hx].
Qed.

Lemma weightFree_frame (node : ast) (v : visitor) :
  weightFree node = true ->
  distanceWeightingFunction (finalState (visit node v))
  = distanceWeightingFunction v.
Proof.
  intros Hfree.
  exact (weightFree_keeps (distanceWeightingFunction v) node Hfree v eq_refl).
Qed.

Lemma weighting_reaches (pre mid : list ast) (w : string) (lineno : nat)
    (v v1 : visitor) (r : pyvalue) :
  forallb weightFree mid = true ->
  generic_visit
    (visit <$> (pre ++ ast_Assign [ast_Name "_DistanceWeightingFunction"]
                         (ast_Str w) lineno :: mid)%list) v
  = Return r v1 ->
  distanceWeightingFunction v1 = Some w.
Proof.
  intros Hmid. rewrite fmap_app, generic_visit_app.
  unfold mbind at 1, py_bind at 1.
  destruct (generic_visit (visit <$> pre) v) as [x va|e va]; [|discriminate].
  cbn [fmap list_fmap generic_visit]. unfold mbind at 1, py_bind at 1.
  change (visit (ast_Assign [ast_Name "_DistanceWeightingFunction"]
                   (ast_Str w) lineno) va)
    with (Return (S := visitor) PyNone
            (Visitor (v_scene va) (v_parameterNode va) (Some w))).
  change (list_fmap _ _ visit mid) with (visit <$> mid).
  intros Hrun.
  pose proof (weightFree_frame (ast_Module mid)
                (Visitor (v_scene va) (v_parameterNode va) (Some w)) Hmid)
    as Hframe.
  cbn [visit] in Hframe. rewrite Hrun in Hframe. exact Hframe.
Qed.

(** C8. A _DistanceWeightingFunction statement sets the weighting text.
    Every statement that is not such an assignment (declarations of
    markers and of parcels, expression statements) leaves the text as it
    is, whether it returns or raises.  So when the run reaches a _Curves
    or _ClosedCurves statement, after an assignment of [w] and statements
    that assign no weighting function in between, the statement returns
    and every marker it names is in the scene as a curve of that kind
    with [w] as its weighting attribute, and [w] stays in force.  In the
    script of the specification X gets "a" and Y gets "b". *)
Theorem weighting_function_follows_script_order :
  (forall (v : visitor) (w : string) (lineno : nat),
     visit (ast_Assign [ast_Name "_DistanceWeightingFunction"] (ast_Str w)
              lineno) v
     = Return PyNone (Visitor (v_scene v) (v_parameterNode v) (Some w)))
  /\ (forall (node : ast) (v : visitor),
        weightFree node = true ->
        distanceWeightingFunction (finalState (visit node v))
        = distanceWeightingFunction v)
  /\ (forall (pre mid : list ast) (w target cls : string)
             (names : list string) (lineno lineno' : nat) (v v1 : visitor)
             (r : pyvalue),
        (target = "_Curves" /\ cls = "vtkMRMLMarkupsCurveNode")
        \/ (target = "_ClosedCurves"
            /\ cls = "vtkMRMLMarkupsClosedCurveNode") ->
        forallb weightFree mid = true ->
        generic_visit
          (visit <$> (pre ++ ast_Assign [ast_Name "_DistanceWeightingFunction"]
                               (ast_Str w) lineno :: mid)%list) v
        = Return r v1 ->
        exists ids v1' v2,
          process_InputNodes (ast_List (ast_Name <$> names)) cls v1
          = Return ids v1'
          /\ visit
               (ast_Module
                  (pre ++ ast_Assign [ast_Name "_DistanceWeightingFunction"]
                            (ast_Str w) lineno
                       :: mid
                       ++ [ast_Assign [ast_Name target]
                             (ast_List (ast_Name <$> names)) lineno'])%list) v
             = Return PyNone v2
          /\ distanceWeightingFunction v2 = Some w
          /\ Forall2 (fun id name => weightedMarker (v_scene v2) id name w)
               ids names)
  /\ (exists v,
        interpret weightingScript 0 emptyScene = Return PyNone v
        /\ attributeOf (v_scene v) "X" DWF = Some "a"
        /\ attributeOf (v_scene v) "Y" DWF = Some "b").
Proof.
  split; [|split; [|split]].
  - intros v w lineno. reflexivity.
  - intros node v. apply weightFree_frame.
  - intros pre mid w target cls names lineno lineno' v v1 r Htarget Hmid Hrun.
    pose proof (weighting_reaches pre mid w lineno v v1 r Hmid Hrun) as Hw.
    destruct (visit_curves_statement v1 w target cls names lineno' Htarget Hw)
      as (ids & v1' & v2 & Hids & Hvisit & Hw2 & Hmarked).
    exists ids, v1', v2. split; [exact Hids|].
    split; [|split; [exact Hw2 | exact Hmarked]].
    cbn [visit].
    replace (pre ++ ast_Assign [ast_Name "_DistanceWeightingFunction"]
                      (ast_Str w) lineno
                 :: mid ++ [ast_Assign [ast_Name target]
                              (ast_List (ast_Name <$> names)) lineno'])%list
      with ((pre ++ ast_Assign [ast_Name "_DistanceWeightingFunction"]
                      (ast_Str w) lineno :: mid)
            ++ [ast_Assign [ast_Name target]
                  (ast_List (ast_Name <$> names)) lineno'])%list
      by (rewrite <- app_assoc; reflexivity).
    rewrite fmap_app, generic_visit_app. unfold mbind at 1, py_bind at 1.
    rewrite Hrun. cbn [fmap list_fmap generic_visit].
    unfold mbind, py_bind. rewrite Hvisit. reflexivity.
  - eexists. split; [vm_compute; reflexivity|].
    split; vm_compute; reflexivity.
Qed.

Lemma weighting_function_follows_script_order_witness :
  exists ids v1' v2,
    process_InputNodes (ast_List (ast_Name <$> ["X"; "A"]))
      "vtkMRMLMarkupsCurveNode"
      (finalState
         (generic_visit (visit <$> weightingPrefix)
            (Visitor planeScene 0 None)))
    = Return ids v1'
    /\ visit
         (ast_Module
            (weightingPrefix
             ++ [ast_Assign [ast_Name "_Curves"]
                   (ast_List (ast_Name <$> ["X"; "A"])) 5])%list)
         (Visitor planeScene 0 None)
       = Return PyNone v2
    /\ distanceWeightingFunction v2 = Some "a"
    /\ Forall2 (fun id name => weightedMarker (v_scene v2) id name "a")
         ids ["X"; "A"].
Proof.
  apply (proj1 (proj2 (proj2 weighting_function_follows_script_order))
           [] (List.tl weightingPrefix) "a" "_Curves"
           "vtkMRMLMarkupsCurveNode" ["X"; "A"] 1 5
           (Visitor planeScene 0 None) _ PyNone).
  - left. split; reflexivity.
  - reflexivity.
  - vm_compute. reflexivity.
Defined.

(** ** Statements that end the run *)

Lemma generic_visit_abort (pre post : list ast) (bad : ast) (v v1 v2 : visitor)
    (r : pyvalue) (e : pyexc) :
  generic_visit (visit <$> pre) v = Return r v1 ->
  visit bad v1 = Raise e v2 ->
  generic_visit (visit <$> (pre ++ bad :: post)%list) v = Raise e v2.
Proof.
  intros Hpre Hbad. rewrite fmap_app, generic_visit_app.
  unfold mbind, py_bind. rewrite Hpre. cbn [fmap list_fmap generic_visit].
  unfold mbind, py_bind. rewrite Hbad. reflexivity.
Qed.

Lemma visit_reportedForm (node : ast) (v : visitor) :
  reportedForm node -> visit node v = Raise (NameError "logging") v.
Proof.
  intros H. destruct H as [targets value lineno Hlen | target value lineno Ht
    | id value lineno Hid Hvalue | operand | id operand lineno Hid].
  - cbn [visit]. unfold visit_Assign.
    destruct (Nat.ltb_spec 1 (length targets)); [reflexivity | lia].
  - cbn [visit]. unfold visit_Assign. cbn [length Nat.ltb Nat.leb].
    destruct target; try reflexivity. exfalso. eapply Ht. reflexivity.
  - cbn [visit]. unfold visit_Assign. cbn [length Nat.ltb Nat.leb].
    assert (Hp : forall cls, process_InputNodes value cls v
                             = Raise (NameError "logging") v).
    { intros cls. unfold process_InputNodes.
      destruct value; try reflexivity. exfalso. eapply Hvalue. reflexivity. }
    unfold markerDeclarations in Hid. cbn [In] in Hid.
    destruct Hid as [<- | [<- | [<- | []]]];
      cbn [String.eqb Ascii.eqb Bool.eqb andb];
      unfold mbind, py_bind; rewrite Hp; reflexivity.
  - reflexivity.
  - cbn [visit]. unfold visit_Assign. cbn [length Nat.ltb Nat.leb].
    unfold reservedNames in Hid. cbn [In] in Hid.
    destruct (String.eqb_spec id "_Planes");
      [subst; exfalso; apply Hid; auto 10|].
    destruct (String.eqb_spec id "_Curves");
      [subst; exfalso; apply Hid; auto 10|].
    destruct (String.eqb_spec id "_ClosedCurves");
      [subst; exfalso; apply Hid; auto 10|].
    destruct (String.eqb_spec id "_DistanceWeightingFunction");
      [subst; exfalso; apply Hid; auto 10|].
    reflexivity.
Qed.

(** X8. When a statement of the script raises, the run ends there: the
    statements after it are not visited, what the statements before it and
    the failing one did to the scene stays, the exception is displayed and
    the result is failure with an empty message. *)
Theorem failing_statement_ends_the_run (l : logic) (p : nat)
    (pre post : list ast) (bad : ast) (v1 v2 : visitor) (r : pyvalue)
    (e : pyexc) :
  getQueryString l (Some p) = Some (Parsed (pre ++ bad :: post)%list) ->
  generic_visit (visit <$> pre) (Visitor (mrmlScene l) p None)
    = Return r v1 ->
  visit bad v1 = Raise e v2 ->
  parseParcellationString (Some p) l
  = Return (ResultList false "")
      (set_errorDisplay (errorDisplay l ++ [e])%list
         (set_mrmlScene (v_scene v2) l)).
Proof.
  intros Hq Hpre Hbad. unfold parseParcellationString. rewrite Hq.
  unfold interpret. cbn [visit].
  rewrite (generic_visit_abort pre post bad _ v1 v2 r e Hpre Hbad).
  reflexivity.
Qed.

(** X9. The visitor module does not import [logging], so every form it
    means to report (several targets, a target that is no name, a marker
    declaration that is no list, a unary operator, also as the value of a
    parcel) raises NameError with the state as it was, and the run ends
    with that error displayed. *)
Theorem reported_forms_raise_NameError :
  (forall (node : ast) (v : visitor),
     reportedForm node -> visit node v = Raise (NameError "logging") v)
  /\ (forall (l : logic) (p : nat) (pre post : list ast) (node : ast)
             (v1 : visitor) (r : pyvalue),
        getQueryString l (Some p) = Some (Parsed (pre ++ node :: post)%list) ->
        generic_visit (visit <$> pre) (Visitor (mrmlScene l) p None)
          = Return r v1 ->
        reportedForm node ->
        parseParcellationString (Some p) l
        = Return (ResultList false "")
            (set_errorDisplay (errorDisplay l ++ [NameError "logging"])%list
               (set_mrmlScene (v_scene v1) l))).
Proof.
  split.
  - intros node v. apply visit_reportedForm.
  - intros l p pre post node v1 r Hq Hpre Hnode.
    unfold parseParcellationString. rewrite Hq.
    unfold interpret. cbn [visit].
    rewrite (generic_visit_abort pre post node _ v1 v1 r _ Hpre
               (visit_reportedForm node v1 Hnode)).
    reflexivity.
Qed.

Lemma IsA_plane_not_curve (n : mrmlNode) :
  IsA n "vtkMRMLMarkupsPlaneNode" = true ->
  IsA n "vtkMRMLMarkupsCurveNode" = false.
Proof.
  unfold IsA, superclasses. intros H.
  destruct (String.eqb_spec (className n) "vtkMRMLMarkupsPlaneNode")
    as [-> | Hne]; [reflexivity|].
  destruct (String.eqb (className n) "vtkMRMLMarkupsClosedCurveNode");
    [cbn in H; discriminate|].
  destruct (String.eqb (className n) "vtkMRMLMarkupsCurveNode");
    [cbn in H; discriminate|].
  destruct (String.eqb (className n) "vtkMRMLMarkupsFiducialNode");
    cbn in H; discriminate.
Qed.

Lemma processInputNames_planes (names : list string) (v : visitor) :
  exists ids v',
    processInputNames "vtkMRMLMarkupsPlaneNode" names v = Return ids v'
    /\ distanceWeightingFunction v' = distanceWeightingFunction v
    /\ length ids = length names.
Proof.
  revert v. induction names as [|name names IH]; intros v.
  - exists [], v. auto.
  - cbn [processInputNames]. unfold mbind at 1, py_bind at 1.
    assert (Hone : exists id v1,
              processInputNode "vtkMRMLMarkupsPlaneNode" name v = Return id v1
              /\ distanceWeightingFunction v1 = distanceWeightingFunction v).
    { unfold processInputNode. unfold mbind at 1, py_bind at 1.
      destruct (getFirstNodeByClassByName (v_scene v)
                  "vtkMRMLMarkupsPlaneNode" name) as [n|] eqn:E.
      - rewrite (getOrCreateInputNode_found _ _ _ _ E).
        destruct (getFirstNodeByClassByName_Some _ _ _ _ E) as (_ & Hisa & _).
        rewrite (IsA_plane_not_curve n Hisa).
        eexists _, _. split; reflexivity.
      - rewrite (getOrCreateInputNode_created _ _ _ E).
        eexists _, _. split; reflexivity. }
    destruct Hone as (id & v1 & -> & Hw1).
    destruct (IH v1) as (ids & v2 & Hrun & Hw2 & Hlen).
    unfold mbind, py_bind. rewrite Hrun.
    exists (id :: ids), v2. split; [reflexivity|].
    split; [congruence | cbn; congruence].
Qed.

(** X10. The visitor has no weighting function until the script assigns
    one.  A declaration of curves or closed curves before that raises
    AttributeError at its first name, after that node has been looked up
    or created (an existing node leaves the state unchanged); a
    declaration with no names, and every declaration of planes, returns. *)
Theorem curves_need_a_weighting_function :
  (forall (v : visitor) (target cls name : string) (names : list string)
          (lineno : nat),
     (target = "_Curves" /\ cls = "vtkMRMLMarkupsCurveNode")
     \/ (target = "_ClosedCurves" /\ cls = "vtkMRMLMarkupsClosedCurveNode") ->
     distanceWeightingFunction v = None ->
     exists v',
       visit (ast_Assign [ast_Name target]
                (ast_List (ast_Name <$> (name :: names))) lineno) v
       = Raise (AttributeError "distanceWeightingFunction") v'
       /\ (exists n, In n (nodes (v_scene v')) /\ IsA n cls = true
                     /\ exists nameIndex,
                          nodeName n = BuildName name nameIndex)
       /\ (is_Some (getFirstNodeByClassByName (v_scene v) cls name)
           \/ GenerateUniqueName (v_scene v) name = name ->
           is_Some (getFirstNodeByClassByName (v_scene v') cls name))
       /\ (is_Some (getFirstNodeByClassByName (v_scene v) cls name) ->
           v' = v))
  /\ (forall (v : visitor) (target : string) (lineno : nat),
        In target markerDeclarations ->
        visit (ast_Assign [ast_Name target] (ast_List []) lineno) v
        = Return PyNone v)
  /\ (forall (v : visitor) (names : list string) (lineno : nat),
        exists v',
          visit (ast_Assign [ast_Name "_Planes"]
                   (ast_List (ast_Name <$> names)) lineno) v
          = Return PyNone v').
Proof.
  split; [|split].
  - intros v target cls name names lineno Htarget Hw.
    assert (Hcls : curveClass cls)
      by (destruct Htarget as [[_ ->] | [_ ->]];
          [left | right]; reflexivity).
    assert (Hvisit :
      visit (ast_Assign [ast_Name target]
               (ast_List (ast_Name <$> (name :: names))) lineno) v
      = (curveNodes ← processInputNames cls (name :: names);
         setCurveTypes curveNodes ;; mret PyNone) v).
    { destruct Htarget as [[-> ->] | [-> ->]];
        cbn [visit]; unfold visit_Assign; cbn [length Nat.ltb Nat.leb];
        cbn [String.eqb Ascii.eqb Bool.eqb andb];
        unfold process_InputNodes; rewrite elementIds_names; reflexivity. }
    rewrite Hvisit. cbn [processInputNames].
    unfold mbind at 1, py_bind at 1. unfold mbind at 1, py_bind at 1.
    unfold processInputNode. unfold mbind at 1, py_bind at 1.
    destruct (getFirstNodeByClassByName (v_scene v) cls name) as [n|] eqn:E.
    + rewrite (getOrCreateInputNode_found _ _ _ _ E).
      destruct (getFirstNodeByClassByName_Some _ _ _ _ E)
        as (Hin & Hisa & Hn).
      rewrite (IsA_curveClass _ _ Hcls Hisa).
      unfold mbind, py_bind, gets. rewrite Hw.
      exists v. split; [reflexivity|].
      split; [exists n; split; [exact Hin|]; split; [exact Hisa|];
              exists 0%nat; exact Hn|].
      split; [rewrite E; eauto | reflexivity].
    + rewrite (getOrCreateInputNode_created _ _ _ E).
      set (id := nextID (v_scene v)).
      set (new := newNode id cls (GenerateUniqueName (v_scene v) name)).
      assert (Hnew : IsA new "vtkMRMLMarkupsCurveNode" = true)
        by (destruct Hcls as [-> | ->]; reflexivity).
      rewrite Hnew. unfold mbind, py_bind, gets.
      cbn [distanceWeightingFunction]. rewrite Hw.
      eexists. split; [reflexivity|]. cbn [v_scene].
      split; [|split].
      * exists (onDisplay (glyphAndHandles cls)
                  (CreateDefaultDisplayNodes new)).
        destruct (keepsKind_CreateDefaultDisplayNodes new)
          as (H1 & H2 & H3).
        split.
        { apply In_updateNode_eq; [|exact H1].
          apply In_updateNode_eq; [|reflexivity].
          cbn [AddNewNodeByClass fst nodes]. apply in_or_app. right.
          left. reflexivity. }
        split.
        { unfold IsA. cbn [className onDisplay set_display]. rewrite H2.
          apply IsA_refl. }
        cbn [nodeName onDisplay set_display]. rewrite H3.
        eexists. reflexivity.
      * intros [[n Hn] | Hname]; [discriminate|].
        rewrite !getFirstNodeByClassByName_updateNode
          by (apply keepsKind_onDisplay
              || apply keepsKind_CreateDefaultDisplayNodes).
        rewrite (getFirstNodeByClassByName_new _ _ _ E Hname). cbn. eauto.
      * intros [n Hn]. discriminate.
  - intros v target lineno Hin. unfold markerDeclarations in Hin.
    cbn [In] in Hin. destruct Hin as [<- | [<- | [<- | []]]]; reflexivity.
  - intros v names lineno. cbn [visit]. unfold visit_Assign.
    cbn [length Nat.ltb Nat.leb String.eqb Ascii.eqb Bool.eqb andb].
    unfold process_InputNodes. rewrite elementIds_names.
    destruct (processInputNames_planes names v) as (ids & v' & Hrun & _).
    unfold mbind, py_bind. rewrite Hrun. eexists. reflexivity.
Qed.

(** ** Borders and jobs *)

Lemma lookupAll_app (sc : scene) (a b : list string) :
  lookupAll sc (a ++ b) =
  match lookupAll sc a with
  | inl e => inl e
  | inr ids =>
      match lookupAll sc b with
      | inl e => inl e
      | inr more => inr (ids ++ more)%list
      end
  end.
Proof.
  induction a as [|name a IH]; cbn [app lookupAll].
  - destruct (lookupAll sc b); reflexivity.
  - destruct (getNode sc name); [|reflexivity]. rewrite IH.
    destruct (lookupAll sc a); [reflexivity|].
    destruct (lookupAll sc b); reflexivity.
Qed.

Lemma visit_borders (b : borders) (v : visitor) :
  visit (borderAst b) v =
  match lookupAll (v_scene v) (borderNames b) with
  | inr ids => Return (PyList ids) v
  | inl e => Raise e v
  end.
Proof.
  induction b as [name | l IHl r IHr]; cbn [borderAst borderNames visit].
  - unfold visit_Name, mbind, py_bind, gets. cbn [lookupAll].
    destruct (getNode (v_scene v) name); reflexivity.
  - unfold visit_BinOp, mbind, py_bind. rewrite IHl, lookupAll_app.
    destruct (lookupAll (v_scene v) (borderNames l)); [reflexivity|].
    rewrite IHr.
    destruct (lookupAll (v_scene v) (borderNames r)); reflexivity.
Qed.

(** An assignment to a name that is not reserved declares a parcel. *)
Lemma visit_parcel (id : string) (value : ast) (lineno : nat) :
  ~ In id reservedNames ->
  visit (ast_Assign [ast_Name id] value lineno)
  = (declareParcel id (visit value) ;; mret PyNone).
Proof.
  intros Hid. cbn [visit]. unfold visit_Assign.
  cbn [length Nat.ltb Nat.leb].
  unfold reservedNames in Hid. cbn [In] in Hid.
  destruct (String.eqb_spec id "_Planes");
    [subst; exfalso; apply Hid; auto 10|].
  destruct (String.eqb_spec id "_Curves");
    [subst; exfalso; apply Hid; auto 10|].
  destruct (String.eqb_spec id "_ClosedCurves");
    [subst; exfalso; apply Hid; auto 10|].
  destruct (String.eqb_spec id "_DistanceWeightingFunction");
    [subst; exfalso; apply Hid; auto 10|].
  reflexivity.
Qed.

(** X11. The borders of a parcel, [A | B | C], are looked up by name from
    left to right and change nothing; the first name without a node
    raises.  A parcel declaration with such a name fails before anything
    is created. *)
Theorem borders_are_looked_up_left_to_right :
  (forall (b : borders) (v : visitor),
     visit (borderAst b) v =
     match lookupAll (v_scene v) (borderNames b) with
     | inr ids => Return (PyList ids) v
     | inl e => Raise e v
     end)
  /\ (forall (id : string) (b : borders) (lineno : nat) (v : visitor)
             (e : pyexc),
        ~ In id reservedNames ->
        lookupAll (v_scene v) (borderNames b) = inl e ->
        visit (ast_Assign [ast_Name id] (borderAst b) lineno) v = Raise e v).
Proof.
  split; [exact visit_borders|].
  intros id b lineno v e Hid He. rewrite (visit_parcel id _ lineno Hid).
  unfold declareParcel, mbind, py_bind. rewrite visit_borders, He.
  reflexivity.
Qed.

Section Adds.

Variable cls : string.

Lemma adds_ret {A} (a : A) : adds cls 0 (mret a).
Proof. intros v r v' [= _ <-]. reflexivity. Qed.

Lemma adds_gets {A} (f : visitor -> A) : adds cls 0 (gets f).
Proof. intros v r v' [= _ <-]. reflexivity. Qed.

Lemma adds_raise {A} (k : nat) (e : pyexc) : adds cls k (@raise visitor A e).
Proof. intros v r v' [=]. Qed.

Lemma adds_bind {A B} (j k : nat) (a : py visitor A) (f : A -> py visitor B) :
  adds cls j a -> (forall x, adds cls k (f x)) -> adds cls (k + j) (a ≫= f).
Proof.
  intros Ha Hf v r v'. unfold mbind, py_bind.
  destruct (a v) as [x v1|e v1] eqn:E; [|discriminate].
  intros Hrun. rewrite (Hf x v1 r v' Hrun), (Ha v x v1 E). lia.
Qed.

Lemma adds_bind0 {A B} (k : nat) (a : py visitor A) (f : A -> py visitor B) :
  adds cls 0 a -> (forall x, adds cls k (f x)) -> adds cls k (a ≫= f).
Proof.
  intros Ha Hf. replace k with (k + 0)%nat by lia. apply adds_bind; assumption.
Qed.

Lemma countClass_updateNode (f : mrmlNode -> mrmlNode) (id : nat)
    (sc : scene) :
  keepsKind f -> countClass cls (updateNode f id sc) = countClass cls sc.
Proof.
  intros Hf. unfold countClass, updateNode. cbn [nodes].
  induction (nodes sc) as [|n ns IH]; [reflexivity|].
  cbn [fmap list_fmap List.filter].
  change (list_fmap _ _ ?g ns) with (g <$> ns).
  assert (E : className (if Nat.eqb (nodeID n) id then f n else n)
              = className n).
  { destruct (Nat.eqb (nodeID n) id); [|reflexivity].
    destruct (Hf n) as (_ & H & _). exact H. }
  rewrite E. destruct (String.eqb (className n) cls); cbn [length];
    rewrite IH; reflexivity.
Qed.

Lemma adds_onSceneNode (f : mrmlNode -> mrmlNode) (id : nat) :
  keepsKind f -> adds cls 0 (onSceneNode f id).
Proof.
  intros Hf v r v' [= _ <-]. cbn [v_scene].
  apply countClass_updateNode, Hf.
Qed.

Lemma adds_addNewNodeByClass (new name : string) :
  adds cls (if String.eqb new cls then 1 else 0)
    (addNewNodeByClass new name).
Proof.
  intros v r v' [= _ <-]. cbn [v_scene]. unfold countClass.
  cbn [nodes]. rewrite List.filter_app, length_app.
  cbn [List.filter className newNode].
  destruct (String.eqb new cls); cbn [length]; lia.
Qed.

Lemma adds_forM {A} (items : list A) (f : A -> py visitor unit) :
  (forall a, adds cls 0 (f a)) -> adds cls 0 (forM_ items f).
Proof.
  intros Hf. induction items as [|a items IH]; cbn [forM_].
  - apply adds_ret.
  - apply adds_bind0; [apply Hf | intros _; exact IH].
Qed.

End Adds.

Lemma keepsKind_set_toolName c : keepsKind (set_toolName c).
Proof. intros n. unfold sameKind. auto. Qed.

Lemma keepsKind_set_continuousUpdate c : keepsKind (set_continuousUpdate c).
Proof. intros n. unfold sameKind. auto. Qed.

Lemma keepsKind_SetNodeReferenceID r i : keepsKind (SetNodeReferenceID r i).
Proof. intros n. unfold sameKind. auto. Qed.

Lemma adds_declareParcel (targetId : string)
    (visitValue : py visitor pyvalue) :
  adds DynamicModelerNode 0 visitValue ->
  adds DynamicModelerNode 1 (declareParcel targetId visitValue).
Proof.
  intros Hvalue. unfold declareParcel.
  apply adds_bind0; [exact Hvalue|]. intros nodes.
  apply adds_bind0; [apply adds_gets|]. intros p.
  apply adds_bind0; [apply adds_gets|]. intros sc.
  apply adds_bind0.
  { destruct (getFirstNodeByClassByName sc _ _);
      [apply adds_ret
      | exact (adds_addNewNodeByClass DynamicModelerNode
                 "vtkMRMLModelNode" _)]. }
  intros outputModel.
  apply adds_bind0; [apply adds_gets|]. intros sc1.
  apply adds_bind0.
  { destruct (display <$> GetNodeByID sc1 outputModel) as [[d|]|];
      try apply adds_ret.
    apply adds_bind0; [|intros _];
      apply adds_onSceneNode;
      [apply keepsKind_CreateDefaultDisplayNodes | apply keepsKind_onDisplay]. }
  intros _. apply adds_bind0.
  { apply adds_onSceneNode, keepsKind_AddNodeReferenceID. }
  intros _. apply adds_bind0; [apply adds_gets|]. intros sc2.
  apply adds_bind0.
  { destruct (getFirstNodeByClassByName sc2 _ _); [apply adds_ret|].
    apply adds_bind0;
      [exact (adds_addNewNodeByClass DynamicModelerNode
                "vtkMRMLMarkupsFiducialNode" _)|].
    intros inputSeed. apply adds_bind0; [|intros _; apply adds_ret].
    apply adds_onSceneNode, keepsKind_CreateDefaultDisplayNodes. }
  intros inputSeed.
  apply adds_bind0; [apply adds_gets|]. intros sc3.
  apply (adds_bind DynamicModelerNode 1 0).
  { destruct (getFirstNodeByClassByName sc3 _ _); [apply adds_raise|].
    exact (adds_addNewNodeByClass DynamicModelerNode
             "vtkMRMLDynamicModelerNode" _). }
  intros toolNode.
  apply adds_bind0; [apply adds_onSceneNode, keepsKind_set_toolName|].
  intros _.
  apply adds_bind0; [apply adds_onSceneNode, keepsKind_SetNodeReferenceID|].
  intros _.
  apply adds_bind0; [apply adds_onSceneNode, keepsKind_SetNodeReferenceID|].
  intros _. apply adds_bind0.
  { destruct nodes as [|ids]; [apply adds_raise|].
    apply adds_forM. intros inputNode.
    apply adds_onSceneNode, keepsKind_AddNodeReferenceID. }
  intros _.
  apply adds_bind0;
    [apply adds_onSceneNode, keepsKind_set_continuousUpdate|].
  intros _. apply adds_onSceneNode, keepsKind_AddNodeReferenceID.
Qed.

(** X12. A parcel declaration that returns has added exactly one job
    node: the job is looked for among the model nodes, where a job node is
    never found.  Loading the same script twice leaves two jobs for the
    parcel P, wired to the same output model, seed and border; the host
    names the second one P_BoundaryCut_1. *)
Theorem every_parcel_declaration_adds_a_job :
  (forall (v v' : visitor) (id : string) (b : borders) (lineno : nat),
     ~ In id reservedNames ->
     visit (ast_Assign [ast_Name id] (borderAst b) lineno) v
       = Return PyNone v' ->
     countClass DynamicModelerNode (v_scene v')
     = S (countClass DynamicModelerNode (v_scene v)))
  /\ className <$> nodes (mrmlScene loadedTwice)
     = [ "vtkMRMLScriptedModuleNode"; "vtkMRMLTextNode";
         "vtkMRMLMarkupsPlaneNode"; "vtkMRMLModelNode";
         "vtkMRMLMarkupsFiducialNode"; "vtkMRMLDynamicModelerNode";
         "vtkMRMLDynamicModelerNode" ]
  /\ (fun n => (nodeID n, nodeName n, references n))
     <$> List.filter (fun n => String.eqb (className n) DynamicModelerNode)
           (nodes (mrmlScene loadedTwice))
     = [ (6%nat, "P_BoundaryCut",
          [ (BOUNDARY_CUT_OUTPUT_MODEL_REFERENCE, 4%nat);
            (BOUNDARY_CUT_INPUT_SEED_REFERENCE, 5%nat);
            (BOUNDARY_CUT_INPUT_BORDER_REFERENCE, 3%nat) ]);
         (8%nat, "P_BoundaryCut_1",
          [ (BOUNDARY_CUT_OUTPUT_MODEL_REFERENCE, 4%nat);
            (BOUNDARY_CUT_INPUT_SEED_REFERENCE, 5%nat);
            (BOUNDARY_CUT_INPUT_BORDER_REFERENCE, 3%nat) ]) ].
Proof.
  split.
  - intros v v' id b lineno Hid. rewrite (visit_parcel id _ lineno Hid).
    intros Hrun.
    assert (Hadds : adds DynamicModelerNode 1
                      (declareParcel id (visit (borderAst b)) ;;
                       mret PyNone)).
    { replace 1%nat with (0 + 1)%nat by reflexivity.
      apply adds_bind; [|intros _; apply adds_ret].
      apply adds_declareParcel. intros w r w' Hw.
      rewrite visit_borders in Hw.
      destruct (lookupAll _ _); [discriminate|].
      injection Hw as _ <-. reflexivity. }
    exact (Hadds v PyNone v' Hrun).
  - split; vm_compute; reflexivity.
Qed.

(** ** Loading a query file *)

Lemma wellFormed_RemoveNode (id : nat) (sc : scene) :
  wellFormed sc -> wellFormed (RemoveNode id sc).
Proof.
  intros [Hnd Hlt]. unfold wellFormed, RemoveNode. cbn [nodes nextID].
  split.
  - refine (sublist_NoDup _ _ Hnd _).
    apply fmap_sublist. clear Hnd Hlt.
    induction (nodes sc) as [|n ns IH]; [constructor|].
    cbn [List.filter].
    destruct (negb _); [apply sublist_skip | apply sublist_cons]; exact IH.
  - rewrite Forall_forall in *. intros n Hn. apply Hlt.
    apply list_elem_of_In in Hn. apply List.filter_In in Hn.
    apply list_elem_of_In, Hn.
Qed.

Lemma GetNodeByID_RemoveNode_ne (sc : scene) (id x : nat) :
  x <> id -> GetNodeByID (RemoveNode id sc) x = GetNodeByID sc x.
Proof.
  intros Hne. unfold GetNodeByID, RemoveNode. cbn [nodes].
  induction (nodes sc) as [|n ns IH]; [reflexivity|].
  cbn [List.filter List.find].
  destruct (Nat.eqb_spec (nodeID n) id) as [E|E]; cbn [negb List.find].
  - destruct (Nat.eqb_spec (nodeID n) x); [congruence | exact IH].
  - destruct (Nat.eqb (nodeID n) x); [reflexivity | exact IH].
Qed.

Lemma referenceIDs_RemoveNodeReferenceIDs (role other : string)
    (n : mrmlNode) :
  referenceIDs (RemoveNodeReferenceIDs role n) other =
  if String.eqb role other then [] else referenceIDs n other.
Proof.
  unfold referenceIDs, RemoveNodeReferenceIDs.
  cbn [references set_references].
  induction (references n) as [|[k i] refs IH]; cbn [List.filter fst].
  - destruct (String.eqb role other); reflexivity.
  - destruct (String.eqb_spec k role) as [->|Hk]; cbn [negb List.filter fst].
    + rewrite IH. destruct (String.eqb role other); reflexivity.
    + destruct (String.eqb_spec k other) as [->|Hko]; cbn [fmap list_fmap].
      * change (list_fmap _ _ snd ?l) with (snd <$> l). rewrite IH.
        destruct (String.eqb_spec role other); [congruence | reflexivity].
      * exact IH.
Qed.

Lemma referenceIDs_SetNodeReferenceID_head (role : string) (id : nat)
    (n : mrmlNode) :
  referenceIDs (SetNodeReferenceID role id n) role !! 0 = Some id.
Proof.
  unfold referenceIDs, SetNodeReferenceID. cbn [references set_references].
  induction (references n) as [|[k i] refs IH]; cbn [assocSet List.filter fst].
  - rewrite String.eqb_refl. reflexivity.
  - destruct (String.eqb k role) eqn:E; cbn [List.filter fst]; rewrite E.
    + reflexivity.
    + exact IH.
Qed.

Lemma visitorWrite_RemoveNodeReferenceIDs (role : string) :
  role <> INPUT_QUERY_REFERENCE -> visitorWrite (RemoveNodeReferenceIDs role).
Proof.
  intros Hrole n. split; [unfold sameContent; auto 10|].
  rewrite referenceIDs_RemoveNodeReferenceIDs.
  destruct (String.eqb_spec role INPUT_QUERY_REFERENCE); [contradiction|].
  reflexivity.
Qed.

Lemma queryStored_getQueryString (l : logic) (p qid : nat) (file : script) :
  queryStored p qid file (mrmlScene l) ->
  getQueryString l (Some p) = Some file.
Proof.
  intros (pn & qn & Hp & Hq & Hqn & Ht). unfold getQueryString.
  cbn [mbind option_bind]. rewrite Hp. cbn [mbind option_bind].
  unfold GetNodeReference, GetNthNodeReference. rewrite Hq.
  cbn [mbind option_bind]. rewrite Hqn. cbn. rewrite Ht. reflexivity.
Qed.

Lemma queryStored_updateNode (f : mrmlNode -> mrmlNode) (id p qid : nat)
    (file : script) (sc : scene) :
  visitorWrite f ->
  queryStored p qid file sc -> queryStored p qid file (updateNode f id sc).
Proof.
  intros Hf (pn & qn & Hp & Hq & Hqn & Ht).
  pose proof (visitorWrite_keepsID f Hf) as Hid.
  exists (if Nat.eqb (nodeID pn) id then f pn else pn),
         (if Nat.eqb (nodeID qn) id then f qn else qn).
  rewrite !GetNodeByID_updateNode, Hp, Hqn by exact Hid.
  split; [reflexivity|]. split; [|split; [reflexivity|]].
  - destruct (Nat.eqb (nodeID pn) id); [|exact Hq].
    destruct (Hf pn) as [_ Hr]. rewrite Hr. exact Hq.
  - destruct (Nat.eqb (nodeID qn) id); [|exact Ht].
    destruct (Hf qn) as [(_ & _ & _ & _ & _ & Htext) _]. congruence.
Qed.

Lemma queryStored_interpret (queryString : script) (p0 p qid : nat)
    (file : script) (sc : scene) :
  queryStored p qid file sc ->
  queryStored p qid file
    (v_scene (finalState (interpret queryString p0 sc))).
Proof.
  intros H.
  apply (inv_interpret (fun v => queryStored p qid file (v_scene v)));
    cbn [v_scene].
  - intros f x v Hf Hv. apply queryStored_updateNode; assumption.
  - intros cls name v (pn & qn & Hp & Hq & Hqn & Ht). exists pn, qn.
    split; [apply GetNodeByID_AddNewNodeByClass, Hp|].
    split; [exact Hq|].
    split; [apply GetNodeByID_AddNewNodeByClass, Hqn | exact Ht].
  - intros w v Hv. exact Hv.
  - exact H.
Qed.

Lemma loadQuery_unfold (l : logic) (p : nat) :
  parameterNode l = Some p ->
  loadQuery l =
  parseParcellationString (Some p)
    (set_mrmlScene (sceneBeforeParsing p (queryFile l) (mrmlScene l)) l).
Proof.
  intros Hp. unfold loadQuery, sceneBeforeParsing, sceneWithQueryNode,
    queryNodeOf.
  unfold mbind at 1, py_bind at 1, gets at 1. rewrite Hp.
  unfold mbind at 1, py_bind at 1, gets at 1.
  unfold mbind at 1, py_bind at 1.
  destruct (GetNodeByID (mrmlScene l) p ≫=
              (fun n => GetNodeReference (mrmlScene l) n
                          INPUT_QUERY_REFERENCE)) as [queryNode|];
    reflexivity.
Qed.

Lemma queryNodeIs_sceneWithQueryNode (p : nat) (pn : mrmlNode) (sc : scene) :
  wellFormed sc -> GetNodeByID sc p = Some pn ->
  wellFormed (sceneWithQueryNode p sc)
  /\ queryNodeIs p (queryNodeOf p sc) (sceneWithQueryNode p sc).
Proof.
  intros Hwf Hp. unfold sceneWithQueryNode, queryNodeOf.
  rewrite Hp. cbn [mbind option_bind].
  destruct (GetNodeReference sc pn INPUT_QUERY_REFERENCE) as [qn|] eqn:Hq.
  - split; [exact Hwf|]. exists pn, qn. split; [exact Hp|].
    unfold GetNodeReference, GetNthNodeReference in Hq.
    destruct (referenceIDs pn INPUT_QUERY_REFERENCE !! 0) as [qid|];
      [|discriminate].
    cbn [mbind option_bind] in Hq.
    rewrite (GetNodeByID_nodeID _ _ _ Hq). auto.
  - assert (Hf : keepsID (SetNodeReferenceID INPUT_QUERY_REFERENCE
                            (nextID sc))) by (intros n; reflexivity).
    pose proof (GetNodeByID_lt sc p pn Hwf Hp) as Hlt.
    split.
    + apply wellFormed_updateNode; [exact Hf|].
      apply wellFormed_AddNewNodeByClass, Hwf.
    + exists (SetNodeReferenceID INPUT_QUERY_REFERENCE (nextID sc) pn),
             (newNode (nextID sc) "vtkMRMLTextNode"
                (GenerateUniqueName sc "ParcellationQuery")).
      rewrite !GetNodeByID_updateNode by exact Hf.
      rewrite GetNodeByID_AddNewNodeByClass_ne by lia.
      rewrite Hp, GetNodeByID_fresh by exact Hwf. cbn.
      rewrite (GetNodeByID_nodeID _ _ _ Hp), Nat.eqb_refl.
      split; [reflexivity|].
      split; [apply referenceIDs_SetNodeReferenceID_head|].
      destruct (Nat.eqb_spec (nextID sc) p); [lia | reflexivity].
Qed.

Lemma sceneBeforeParsing_spec (p : nat) (pn : mrmlNode) (file : script)
    (sc : scene) :
  wellFormed sc -> GetNodeByID sc p = Some pn ->
  queryStored p (queryNodeOf p sc) file (sceneBeforeParsing p file sc)
  /\ exists pn',
       GetNodeByID (sceneBeforeParsing p file sc) p = Some pn'
       /\ referenceIDs pn' INPUT_MARKUPS_REFERENCE = []
       /\ referenceIDs pn' OUTPUT_MODEL_REFERENCE = []
       /\ referenceIDs pn' TOOL_NODE_REFERENCE
          = referenceIDs pn TOOL_NODE_REFERENCE.
Proof.
  intros Hwf Hp.
  destruct (queryNodeIs_sceneWithQueryNode p pn sc Hwf Hp)
    as (Hwf1 & pn1 & qn1 & Hp1 & Hq1 & Hqn1).
  assert (Htool1 : referenceIDs pn1 TOOL_NODE_REFERENCE
                   = referenceIDs pn TOOL_NODE_REFERENCE).
  { revert Hp1. unfold sceneWithQueryNode. rewrite Hp.
    cbn [mbind option_bind].
    destruct (GetNodeReference sc pn INPUT_QUERY_REFERENCE).
    - rewrite Hp. intros [= <-]. reflexivity.
    - rewrite GetNodeByID_updateNode by (intros n; reflexivity).
      rewrite GetNodeByID_AddNewNodeByClass_ne
        by (pose proof (GetNodeByID_lt sc p pn Hwf Hp); lia).
      rewrite Hp. cbn. rewrite (GetNodeByID_nodeID _ _ _ Hp), Nat.eqb_refl.
      intros [= <-].
      apply referenceIDs_SetNodeReferenceID_ne. discriminate. }
  unfold sceneBeforeParsing.
  set (s1 := sceneWithQueryNode p sc) in *.
  set (qid := queryNodeOf p sc) in *.
  set (s2 := (AddNewNodeByClass s1 "vtkMRMLTextStorageNode" "TextStorage").1).
  set (s3 := updateNode (set_text file) qid s2).
  set (s4 := RemoveNode (nextID s1) s3).
  pose proof (GetNodeByID_lt s1 p pn1 Hwf1 Hp1) as Hplt.
  pose proof (GetNodeByID_lt s1 qid qn1 Hwf1 Hqn1) as Hqlt.
  assert (Htext : keepsID (set_text file)) by (intros n; reflexivity).
  assert (Hp4 : GetNodeByID s4 p
                = Some (if Nat.eqb (nodeID pn1) qid then set_text file pn1
                        else pn1)).
  { unfold s4, s3, s2. rewrite GetNodeByID_RemoveNode_ne by lia.
    rewrite GetNodeByID_updateNode by exact Htext.
    rewrite GetNodeByID_AddNewNodeByClass_ne by lia.
    rewrite Hp1. reflexivity. }
  assert (Hq4 : GetNodeByID s4 qid = Some (set_text file qn1)).
  { unfold s4, s3, s2. rewrite GetNodeByID_RemoveNode_ne by lia.
    rewrite GetNodeByID_updateNode by exact Htext.
    rewrite GetNodeByID_AddNewNodeByClass_ne by lia.
    rewrite Hqn1. cbn. rewrite (GetNodeByID_nodeID _ _ _ Hqn1), Nat.eqb_refl.
    reflexivity. }
  set (pn4 := if Nat.eqb (nodeID pn1) qid then set_text file pn1 else pn1)
    in *.
  assert (Hrefs4 : forall role, referenceIDs pn4 role = referenceIDs pn1 role)
    by (intros role; unfold pn4; destruct (Nat.eqb _ _); reflexivity).
  assert (Hid4 : nodeID pn4 = p).
  { unfold pn4. destruct (Nat.eqb _ _); cbn;
      apply (GetNodeByID_nodeID _ _ _ Hp1). }
  split.
  - apply queryStored_updateNode;
      [apply visitorWrite_RemoveNodeReferenceIDs; discriminate|].
    apply queryStored_updateNode;
      [apply visitorWrite_RemoveNodeReferenceIDs; discriminate|].
    exists pn4, (set_text file qn1).
    split; [exact Hp4|]. split; [rewrite Hrefs4; exact Hq1|].
    split; [exact Hq4 | reflexivity].
  - eexists.
    rewrite !GetNodeByID_updateNode by (intros n; reflexivity).
    rewrite Hp4. cbn. rewrite Hid4, Nat.eqb_refl. cbn [nodeID
      RemoveNodeReferenceIDs set_references]. rewrite Hid4, Nat.eqb_refl.
    split; [reflexivity|].
    rewrite !referenceIDs_RemoveNodeReferenceIDs. cbn.
    rewrite Hrefs4. auto.
Qed.

(** X13. In a scene whose nodes have IDs of their own, [loadQuery] with a
    parameter node returns and the query string of the parameter node is
    the text of the file afterwards.  When the file does not parse, the
    result is failure, the syntax error is displayed, and the parameter
    node has lost its input marker and output model references while its
    job references are as before. *)
Theorem loadQuery_stores_the_file_and_clears_bindings (l : logic) (p : nat)
    (pn : mrmlNode) :
  parameterNode l = Some p ->
  GetNodeByID (mrmlScene l) p = Some pn ->
  wellFormed (mrmlScene l) ->
  exists success l',
    loadQuery l = Return (ResultList success "") l'
    /\ getQueryString l' (Some p) = Some (queryFile l)
    /\ forall lineno, queryFile l = Unparsable lineno ->
         success = false
         /\ errorDisplay l' = (errorDisplay l ++ [SyntaxError lineno])%list
         /\ exists pn',
              GetNodeByID (mrmlScene l') p = Some pn'
              /\ referenceIDs pn' INPUT_MARKUPS_REFERENCE = []
              /\ referenceIDs pn' OUTPUT_MODEL_REFERENCE = []
              /\ referenceIDs pn' TOOL_NODE_REFERENCE
                 = referenceIDs pn TOOL_NODE_REFERENCE.
Proof.
  intros Hparam Hp Hwf. rewrite (loadQuery_unfold l p Hparam).
  destruct (sceneBeforeParsing_spec p pn (queryFile l) (mrmlScene l) Hwf Hp)
    as (Hstored & Hcleared).
  set (s := sceneBeforeParsing p (queryFile l) (mrmlScene l)) in *.
  pose proof (queryStored_getQueryString (set_mrmlScene s l) p _ _ Hstored)
    as Hq.
  pose proof (queryStored_interpret (queryFile l) p p _ _ s Hstored) as Hend.
  unfold parseParcellationString. rewrite Hq. cbn [mrmlScene set_mrmlScene].
  destruct (interpret (queryFile l) p s) as [r v|e v] eqn:Hrun;
    cbn [finalState] in Hend.
  - exists true. eexists. split; [reflexivity|].
    split; [eapply queryStored_getQueryString; exact Hend|].
    intros lineno Hfile. rewrite Hfile in Hrun. discriminate.
  - exists false. eexists. split; [reflexivity|].
    split; [eapply queryStored_getQueryString; exact Hend|].
    intros lineno Hfile. rewrite Hfile in Hrun. cbn in Hrun.
    injection Hrun as <- <-. split; [reflexivity|].
    split; [reflexivity | exact Hcleared].
Qed.

(** ** The job of a parcel *)

Lemma returns_bind {S A B} (a : py S A) (f : A -> py S B) (v : S)
    (Q : A -> S -> Prop) (R : B -> S -> Prop) :
  returns a v Q ->
  (forall x v1, Q x v1 -> returns (f x) v1 R) ->
  returns (a ≫= f) v R.
Proof.
  intros (x & v1 & Ha & HQ) Hf. destruct (Hf x v1 HQ) as (y & v2 & Hb & HR).
  exists y, v2. split; [|exact HR].
  unfold mbind, py_bind. rewrite Ha. exact Hb.
Qed.

Lemma returns_gets {S A} (f : S -> A) (v : S) :
  returns (gets f) v (fun a v' => a = f v /\ v' = v).
Proof. exists (f v), v. auto. Qed.

Lemma returns_ret {S A} (a : A) (v : S) :
  returns (mret a) v (fun x v' => x = a /\ v' = v).
Proof. exists a, v. auto. Qed.

Lemma returns_onSceneNode (f : mrmlNode -> mrmlNode) (id : nat)
    (v : visitor) :
  returns (onSceneNode f id) v
    (fun _ v' => v_scene v' = updateNode f id (v_scene v)).
Proof. eexists tt, _. split; reflexivity. Qed.

Lemma returns_addNewNodeByClass (cls name : string) (v : visitor) :
  returns (addNewNodeByClass cls name) v
    (fun id v' =>
       id = nextID (v_scene v)
       /\ v_scene v' = (AddNewNodeByClass (v_scene v) cls name).1).
Proof. eexists _, _. split; [reflexivity|]. split; reflexivity. Qed.

Lemma returns_weaken {S A} (c : py S A) (v : S) (Q R : A -> S -> Prop) :
  returns c v Q -> (forall a v', Q a v' -> R a v') -> returns c v R.
Proof.
  intros (a & v' & Hc & HQ) H. exists a, v'. split; [exact Hc | apply H, HQ].
Qed.

Lemma GetNodeByID_of_In (sc : scene) (n : mrmlNode) :
  wellFormed sc -> In n (nodes sc) -> GetNodeByID sc (nodeID n) = Some n.
Proof.
  intros [Hnd _]. unfold GetNodeByID.
  induction (nodes sc) as [|m ns IH]; [intros []|].
  cbn [fmap list_fmap] in Hnd. apply NoDup_cons in Hnd.
  destruct Hnd as [Hm Hnd]. intros [->|Hin]; cbn [List.find].
  - rewrite Nat.eqb_refl. reflexivity.
  - destruct (Nat.eqb_spec (nodeID m) (nodeID n)) as [E|E];
      [|apply IH; assumption].
    exfalso. apply Hm. rewrite E. apply list_elem_of_In.
    apply in_map. exact Hin.
Qed.

Lemma parcelState_write (f : mrmlNode -> mrmlNode) (x p : nat)
    (refs : list (string * nat)) (job : string) (base : nat) (sc : scene) :
  keepsKind f ->
  x <> p \/ (forall n, references (f n) = references n) ->
  parcelState p refs job base sc ->
  parcelState p refs job base (updateNode f x sc).
Proof.
  intros Hf Hx (Hwf & Hbase & (pn & Hp & Hrefs) & Hjob).
  pose proof (keepsKind_keepsID f Hf) as Hid.
  split; [apply wellFormed_updateNode; assumption|].
  split; [exact Hbase|]. split.
  - rewrite GetNodeByID_updateNode, Hp by exact Hid. cbn.
    eexists. split; [reflexivity|].
    destruct (Nat.eqb_spec (nodeID pn) x) as [E|E]; [|exact Hrefs].
    destruct Hx as [Hx | Hx]; [|rewrite Hx; exact Hrefs].
    rewrite (GetNodeByID_nodeID _ _ _ Hp) in E. congruence.
  - rewrite getFirstNodeByClassByName_updateNode, Hjob by exact Hf.
    reflexivity.
Qed.

Lemma parcelState_add (new newName : string) (p : nat)
    (refs : list (string * nat)) (job : string) (base : nat) (sc : scene) :
  IsA (newNode (nextID sc) new (GenerateUniqueName sc newName))
      "vtkMRMLModelNode"
    && String.eqb (GenerateUniqueName sc newName) job = false ->
  parcelState p refs job base sc ->
  parcelState p refs job base (AddNewNodeByClass sc new newName).1.
Proof.
  intros Hnew (Hwf & Hbase & (pn & Hp & Hrefs) & Hjob).
  split; [apply wellFormed_AddNewNodeByClass, Hwf|].
  split; [cbn; lia|]. split.
  - exists pn. split; [apply GetNodeByID_AddNewNodeByClass, Hp | exact Hrefs].
  - rewrite getFirstNodeByClassByName_AddNewNodeByClass, Hjob, Hnew.
    reflexivity.
Qed.

Lemma parcelState_reference (role : string) (id p : nat)
    (refs : list (string * nat)) (job : string) (base : nat) (sc : scene) :
  parcelState p refs job base sc ->
  parcelState p (refs ++ [(role, id)]) job base
    (updateNode (AddNodeReferenceID role id) p sc).
Proof.
  intros (Hwf & Hbase & (pn & Hp & Hrefs) & Hjob).
  split; [apply wellFormed_updateNode; [intros n; reflexivity | exact Hwf]|].
  split; [exact Hbase|]. split.
  - exists (AddNodeReferenceID role id pn).
    split; [apply GetNodeByID_updateNode_eq; [reflexivity | exact Hp]|].
    cbn. rewrite Hrefs. reflexivity.
  - rewrite getFirstNodeByClassByName_updateNode, Hjob
      by apply keepsKind_AddNodeReferenceID.
    reflexivity.
Qed.

Lemma present_write (f : mrmlNode -> mrmlNode) (x : nat) (cls name : string)
    (id : nat) (sc : scene) :
  keepsKind f -> present cls name id sc ->
  present cls name id (updateNode f x sc).
Proof.
  intros Hf (n & Hn & Hcls & Hname). unfold present.
  rewrite GetNodeByID_updateNode, Hn by (apply keepsKind_keepsID, Hf).
  cbn. eexists. split; [reflexivity|].
  destruct (Nat.eqb (nodeID n) x); [|auto].
  rewrite (IsA_sameKind (f n) n cls (Hf n)).
  destruct (Hf n) as (_ & _ & ->). auto.
Qed.

Lemma present_add (new newName cls name : string) (id : nat) (sc : scene) :
  present cls name id sc ->
  present cls name id (AddNewNodeByClass sc new newName).1.
Proof.
  intros (n & Hn & H). exists n.
  split; [apply GetNodeByID_AddNewNodeByClass, Hn | exact H].
Qed.

Lemma present_first (cls name : string) (n : mrmlNode) (sc : scene) :
  wellFormed sc -> getFirstNodeByClassByName sc cls name = Some n ->
  present cls name (nodeID n) sc.
Proof.
  intros Hwf H. apply getFirstNodeByClassByName_Some in H.
  destruct H as (Hin & Hcls & Hname). exists n.
  split; [apply GetNodeByID_of_In; assumption | auto].
Qed.

Lemma present_new (cls name : string) (sc : scene) :
  wellFormed sc ->
  present cls (GenerateUniqueName sc name) (nextID sc)
    (AddNewNodeByClass sc cls name).1.
Proof.
  intros Hwf. eexists. split; [apply GetNodeByID_fresh, Hwf|].
  split; [apply IsA_refl | reflexivity].
Qed.

Lemma sameFirst_write (f : mrmlNode -> mrmlNode) (x : nat) (cls name : string)
    (sc0 sc : scene) :
  keepsKind f -> sameFirst cls name sc0 sc ->
  sameFirst cls name sc0 (updateNode f x sc).
Proof.
  intros Hf H. unfold sameFirst in *. rewrite <- H.
  rewrite getFirstNodeByClassByName_updateNode by exact Hf.
  destruct (getFirstNodeByClassByName sc cls name) as [n|]; [|reflexivity].
  cbn. destruct (Nat.eqb (nodeID n) x); [|reflexivity].
  destruct (Hf n) as (-> & _). reflexivity.
Qed.

Lemma sameFirst_add (new newName cls name : string) (sc0 sc : scene) :
  IsA (newNode (nextID sc) new (GenerateUniqueName sc newName)) cls = false ->
  sameFirst cls name sc0 sc ->
  sameFirst cls name sc0 (AddNewNodeByClass sc new newName).1.
Proof.
  intros Hnew H. unfold sameFirst in *. rewrite <- H.
  rewrite getFirstNodeByClassByName_AddNewNodeByClass, Hnew.
  destruct (getFirstNodeByClassByName sc cls name); reflexivity.
Qed.

(** Writes to one node of the visitor's scene, one after another. *)
Lemma returns_forM_onSceneNode {A} (g : A -> mrmlNode -> mrmlNode)
    (id : nat) (items : list A) (v : visitor) :
  returns (forM_ items (fun a => onSceneNode (g a) id)) v
    (fun _ v' =>
       v_scene v' = foldl (fun sc a => updateNode (g a) id sc) (v_scene v)
                      items).
Proof.
  revert v. induction items as [|a items IH]; intros v.
  - eexists tt, v. split; reflexivity.
  - cbn [forM_ foldl]. eapply returns_bind; [apply returns_onSceneNode|].
    intros u1 v1 H1. eapply returns_weaken; [apply IH|].
    intros u2 v2 H2. cbn beta in *. rewrite H2, H1. reflexivity.
Qed.

Lemma references_fold_AddNodeReferenceID (role : string) (ids : list nat)
    (n : mrmlNode) :
  references (foldl (fun n i => AddNodeReferenceID role i n) n ids)
  = (references n ++ ((fun i => (role, i)) <$> ids))%list.
Proof.
  revert n. induction ids as [|i ids IH]; intros n; cbn [foldl fmap list_fmap].
  - rewrite app_nil_r. reflexivity.
  - rewrite IH. cbn [references AddNodeReferenceID set_references].
    rewrite <- app_assoc. reflexivity.
Qed.

Lemma wired_tool (f : mrmlNode -> mrmlNode) (p : nat)
    (refs : list (string * nat)) (omName seedName : string)
    (om seed tool : nat) (t : mrmlNode) (sc : scene) :
  keepsKind f -> tool <> p ->
  wired p refs omName seedName om seed tool t sc ->
  wired p refs omName seedName om seed tool (f t) (updateNode f tool sc).
Proof.
  intros Hf Hne ((pn & Hp & Hrefs) & Hom & Hseed & Ht).
  pose proof (keepsKind_keepsID f Hf) as Hid.
  split; [|split; [|split]].
  - exists pn. split; [|exact Hrefs].
    rewrite GetNodeByID_updateNode_ne; [exact Hp | exact Hne | exact Hid].
  - apply present_write; assumption.
  - apply present_write; assumption.
  - apply GetNodeByID_updateNode_eq; assumption.
Qed.

Lemma wired_fold {A} (g : A -> mrmlNode -> mrmlNode) (items : list A)
    (p : nat) (refs : list (string * nat)) (omName seedName : string)
    (om seed tool : nat) (t : mrmlNode) (sc : scene) :
  (forall a, keepsKind (g a)) -> tool <> p ->
  wired p refs omName seedName om seed tool t sc ->
  wired p refs omName seedName om seed tool (foldl (fun n a => g a n) t items)
    (foldl (fun sc a => updateNode (g a) tool sc) sc items).
Proof.
  intros Hg Hne. revert t sc.
  induction items as [|a items IH]; intros t sc H; cbn [foldl]; [exact H|].
  apply IH, wired_tool; [apply Hg | exact Hne | exact H].
Qed.

Lemma wired_reference (role : string) (i p : nat)
    (refs : list (string * nat)) (omName seedName : string)
    (om seed tool : nat) (t : mrmlNode) (sc : scene) :
  tool <> p ->
  wired p refs omName seedName om seed tool t sc ->
  wired p (refs ++ [(role, i)]) omName seedName om seed tool t
    (updateNode (AddNodeReferenceID role i) p sc).
Proof.
  intros Hne ((pn & Hp & Hrefs) & Hom & Hseed & Ht).
  split; [|split; [|split]].
  - exists (AddNodeReferenceID role i pn).
    split; [apply GetNodeByID_updateNode_eq; [reflexivity | exact Hp]|].
    cbn. rewrite Hrefs. reflexivity.
  - apply present_write; [apply keepsKind_AddNodeReferenceID | exact Hom].
  - apply present_write; [apply keepsKind_AddNodeReferenceID | exact Hseed].
  - rewrite GetNodeByID_updateNode_ne;
      [exact Ht | congruence | reflexivity].
Qed.

Lemma declareParcel_wires (v : visitor) (name : string) (ids : list nat)
    (visitValue : py visitor pyvalue) (refs : list (string * nat)) :
  visitValue v = Return (PyList ids) v ->
  parcelState (v_parameterNode v) refs
    (outputModelName (v_scene v) name ++ "_BoundaryCut")
    (nextID (v_scene v)) (v_scene v) ->
  returns (declareParcel name visitValue) v
    (fun _ v' =>
       exists om seed tool seedName jobName,
         wired (v_parameterNode v)
           (refs ++ [(OUTPUT_MODEL_REFERENCE, om);
                     (TOOL_NODE_REFERENCE, tool)])
           (outputModelName (v_scene v) name) seedName om seed tool
           (boundaryCutJob tool jobName om seed ids) (v_scene v')
         /\ match getFirstNodeByClassByName (v_scene v) "vtkMRMLModelNode"
                    name with
            | Some n => om = nodeID n
            | None => om = nextID (v_scene v)
            end
         /\ match getFirstNodeByClassByName (v_scene v)
                    "vtkMRMLMarkupsFiducialNode" (name ++ "_SeedPoints") with
            | Some n => seed = nodeID n
            | None => (nextID (v_scene v) <= seed)%nat
            end
         /\ (exists k, seedName = BuildName (name ++ "_SeedPoints") k)
         /\ (nextID (v_scene v) <= tool)%nat
         /\ (exists k,
               jobName
               = BuildName (outputModelName (v_scene v) name ++ "_BoundaryCut")
                   k)).
Proof.
  intros Hvalue HJ. unfold declareParcel.
  set (p := v_parameterNode v) in *.
  set (sc0 := v_scene v) in *.
  set (base := nextID sc0) in *.
  set (omName := outputModelName sc0 name) in *.
  set (job := omName ++ "_BoundaryCut") in *.
  set (seedBase := name ++ "_SeedPoints").
  set (fiducial := "vtkMRMLMarkupsFiducialNode").
  eapply (returns_bind _ _ _ (fun x v1 => x = PyList ids /\ v1 = v)).
  { exists (PyList ids), v. auto. }
  intros x v0 [-> ->].
  eapply returns_bind; [apply returns_gets|]. intros p' v0 [-> ->].
  eapply returns_bind; [apply returns_gets|]. intros sc v0 [-> ->].
  fold p sc0 omName job.
  (* the output model *)
  eapply (returns_bind _ _ _
            (fun om v1 =>
               parcelState p refs job base (v_scene v1)
               /\ sameFirst fiducial seedBase sc0 (v_scene v1)
               /\ present "vtkMRMLModelNode" omName om (v_scene v1)
               /\ match getFirstNodeByClassByName sc0 "vtkMRMLModelNode"
                          name with
                  | Some n => om = nodeID n
                  | None => om = base
                  end)).
  { subst omName job. unfold outputModelName in *.
    destruct (getFirstNodeByClassByName sc0 "vtkMRMLModelNode" name)
      as [m|] eqn:E.
    - exists (nodeID m), v. split; [reflexivity|]. split; [exact HJ|].
      split; [reflexivity|]. split; [|reflexivity].
      destruct (getFirstNodeByClassByName_Some _ _ _ _ E) as (_ & _ & Hname).
      rewrite Hname. apply present_first; [apply HJ | exact E].
    - eapply returns_weaken; [apply returns_addNewNodeByClass|].
      intros om v1 [-> Hsc]. fold sc0 in Hsc. rewrite Hsc.
      split; [|split; [|split; [|reflexivity]]].
      + apply parcelState_add; [|exact HJ].
        apply andb_false_iff. right. apply String.eqb_neq.
        apply append_ne_self. discriminate.
      + apply sameFirst_add; reflexivity.
      + apply present_new, HJ. }
  intros om v1 (HJ1 & Hsf1 & Hom & Hom0).
  eapply returns_bind; [apply returns_gets|]. intros sc1 v1' [-> ->].
  eapply (returns_bind _ _ _
            (fun _ v2 =>
               parcelState p refs job base (v_scene v2)
               /\ sameFirst fiducial seedBase sc0 (v_scene v2)
               /\ present "vtkMRMLModelNode" omName om (v_scene v2))).
  { destruct (display <$> GetNodeByID (v_scene v1) om) as [[d|]|];
      try (exists tt, v1; split; [reflexivity | auto]).
    eapply returns_bind; [apply returns_onSceneNode|].
    intros u v2 H2. eapply returns_weaken; [apply returns_onSceneNode|].
    intros u' v3 H3. cbn beta in *. rewrite H3, H2.
    split; [|split].
    - apply parcelState_write;
        [apply keepsKind_onDisplay | right; reflexivity|].
      apply parcelState_write;
        [apply keepsKind_CreateDefaultDisplayNodes
        | right; intros n; unfold CreateDefaultDisplayNodes;
          destruct (display n); reflexivity
        | exact HJ1].
    - apply sameFirst_write; [apply keepsKind_onDisplay|].
      apply sameFirst_write;
        [apply keepsKind_CreateDefaultDisplayNodes | exact Hsf1].
    - apply present_write; [apply keepsKind_onDisplay|].
      apply present_write;
        [apply keepsKind_CreateDefaultDisplayNodes | exact Hom]. }
  intros u v2 (HJ2 & Hsf2 & Hom2).
  set (refs1 := (refs ++ [(OUTPUT_MODEL_REFERENCE, om)])%list).
  eapply (returns_bind _ _ _
            (fun _ v3 =>
               parcelState p refs1 job base (v_scene v3)
               /\ sameFirst fiducial seedBase sc0 (v_scene v3)
               /\ present "vtkMRMLModelNode" omName om (v_scene v3))).
  { eapply returns_weaken; [apply returns_onSceneNode|].
    intros u' v3 H3. cbn beta in *. rewrite H3.
    split; [apply parcelState_reference, HJ2|]. split.
    - apply sameFirst_write; [apply keepsKind_AddNodeReferenceID | exact Hsf2].
    - apply present_write; [apply keepsKind_AddNodeReferenceID | exact Hom2]. }
  intros u3 v3 (HJ3 & Hsf3 & Hom3).
  eapply returns_bind; [apply returns_gets|]. intros sc3 v3' [-> ->].
  (* the seed node *)
  eapply (returns_bind _ _ _
            (fun seed v4 =>
               exists seedName,
                 parcelState p refs1 job base (v_scene v4)
                 /\ present "vtkMRMLModelNode" omName om (v_scene v4)
                 /\ present fiducial seedName seed (v_scene v4)
                 /\ (exists k, seedName = BuildName seedBase k)
                 /\ match getFirstNodeByClassByName sc0 fiducial seedBase with
                    | Some n => seed = nodeID n
                    | None => (base <= seed)%nat
                    end)).
  { fold seedBase fiducial. unfold sameFirst in Hsf3.
    destruct (getFirstNodeByClassByName (v_scene v3) fiducial seedBase)
      as [m|] eqn:E.
    - exists (nodeID m), v3. split; [reflexivity|]. exists seedBase.
      split; [exact HJ3|]. split; [exact Hom3|].
      split; [apply present_first; [apply HJ3 | exact E]|].
      split; [exists 0%nat; reflexivity|].
      destruct (getFirstNodeByClassByName sc0 fiducial seedBase);
        cbn in Hsf3; congruence.
    - eapply returns_bind; [apply returns_addNewNodeByClass|].
      intros seed v4 [-> Hsc].
      eapply returns_bind; [apply returns_onSceneNode|].
      intros u4 v5 H5. eexists _, v5. split; [reflexivity|].
      exists (GenerateUniqueName (v_scene v3) seedBase).
      cbn beta in *. rewrite H5, Hsc.
      split; [|split; [|split; [|split]]].
      + apply parcelState_write;
          [apply keepsKind_CreateDefaultDisplayNodes
          | right; intros n; unfold CreateDefaultDisplayNodes;
            destruct (display n); reflexivity|].
        apply parcelState_add; [reflexivity | exact HJ3].
      + apply present_write; [apply keepsKind_CreateDefaultDisplayNodes|].
        apply present_add, Hom3.
      + apply present_write; [apply keepsKind_CreateDefaultDisplayNodes|].
        apply present_new, HJ3.
      + eexists. reflexivity.
      + destruct (getFirstNodeByClassByName sc0 fiducial seedBase);
          [discriminate|]. apply HJ3. }
  intros seed v4 (seedName & HJ4 & Hom4 & Hseed4 & HseedName & Hseed0).
  eapply returns_bind; [apply returns_gets|]. intros sc4 v4' [-> ->].
  (* the job node *)
  destruct HJ4 as (Hwf & Hbase & (pn & Hp & Hrefs) & Hjob). rewrite Hjob.
  eapply returns_bind; [apply returns_addNewNodeByClass|].
  intros tool v5 [Htool H5].
  assert (Hne : tool <> p).
  { pose proof (GetNodeByID_lt _ _ _ Hwf Hp). lia. }
  assert (H0 : wired p refs1 omName seedName om seed tool
                 (newNode tool "vtkMRMLDynamicModelerNode"
                    (GenerateUniqueName (v_scene v4) job))
                 (v_scene v5)).
  { rewrite H5. split; [|split; [|split]].
    - exists pn. split; [apply GetNodeByID_AddNewNodeByClass, Hp|exact Hrefs].
    - apply present_add, Hom4.
    - apply present_add, Hseed4.
    - rewrite Htool. apply GetNodeByID_fresh, Hwf. }
  assert (Hle : (base <= tool)%nat) by (rewrite Htool; exact Hbase).
  clear Hwf Hp Hrefs Hjob Htool H5 Hom4 Hseed4 Hom3 HJ3 Hsf3
    Hom2 HJ2 Hsf2 Hom HJ1 Hsf1 HJ Hvalue Hbase.
  eapply returns_bind; [apply returns_onSceneNode|]. intros u5 v6 H6.
  eapply returns_bind; [apply returns_onSceneNode|]. intros u6 v7 H7.
  eapply returns_bind; [apply returns_onSceneNode|]. intros u7 v8 H8.
  eapply returns_bind; [apply returns_forM_onSceneNode|]. intros u8 v9 H9.
  eapply returns_bind; [apply returns_onSceneNode|]. intros u9 v10 H10.
  eapply returns_weaken; [apply returns_onSceneNode|]. intros u10 v11 H11.
  cbn beta in *.
  exists om, seed, tool, seedName, (GenerateUniqueName (v_scene v4) job).
  split; [|split; [exact Hom0|split; [exact Hseed0|split; [exact HseedName|
           split; [exact Hle | eexists; reflexivity]]]]].
  rewrite H11, H10, H9, H8, H7, H6.
  replace (refs ++ [(OUTPUT_MODEL_REFERENCE, om);
                    (TOOL_NODE_REFERENCE, tool)])%list
    with ((refs ++ [(OUTPUT_MODEL_REFERENCE, om)])
          ++ [(TOOL_NODE_REFERENCE, tool)])%list
    by (rewrite <- app_assoc; reflexivity).
  apply wired_reference; [exact Hne|].
  unfold boundaryCutJob.
  apply wired_tool; [apply keepsKind_set_continuousUpdate | exact Hne|].
  apply (wired_fold
           (fun i => AddNodeReferenceID BOUNDARY_CUT_INPUT_BORDER_REFERENCE i));
    [intros a; apply keepsKind_AddNodeReferenceID | exact Hne|].
  apply wired_tool; [apply keepsKind_SetNodeReferenceID | exact Hne|].
  apply wired_tool; [apply keepsKind_SetNodeReferenceID | exact Hne|].
  apply wired_tool; [apply keepsKind_set_toolName | exact Hne|].
  exact H0.
Qed.

Lemma references_boundaryCutJob (tool : nat) (name : string) (om seed : nat)
    (ids : list nat) :
  references (boundaryCutJob tool name om seed ids)
  = (BOUNDARY_CUT_OUTPUT_MODEL_REFERENCE, om)
    :: (BOUNDARY_CUT_INPUT_SEED_REFERENCE, seed)
    :: ((fun i => (BOUNDARY_CUT_INPUT_BORDER_REFERENCE, i)) <$> ids).
Proof.
  unfold boundaryCutJob. cbn [references set_continuousUpdate].
  rewrite references_fold_AddNodeReferenceID. reflexivity.
Qed.

Lemma boundaryCutJob_kind (tool : nat) (name : string) (om seed : nat)
    (ids : list nat) :
  className (boundaryCutJob tool name om seed ids)
  = "vtkMRMLDynamicModelerNode"
  /\ nodeName (boundaryCutJob tool name om seed ids) = name
  /\ toolName (boundaryCutJob tool name om seed ids) = BoundaryCutToolName.
Proof.
  unfold boundaryCutJob. induction ids as [|i ids IH] using rev_ind;
    [repeat split | rewrite foldl_app; exact IH].
Qed.

(** X14. What a parcel declaration [P = A | B] builds, in a scene whose
    nodes have IDs of their own, when the borders exist and no model node
    carries the output model's name followed by _BoundaryCut: it returns.
    The output model is the first model node named P if there is one, and
    otherwise a node that was not in the scene before, of class
    vtkMRMLModelNode and with the name the host makes of P; the seed is the
    first fiducial node named P_SeedPoints if there is one, and otherwise a
    new fiducial node whose name the host makes of P_SeedPoints.  The job
    is a node that was not in the scene before, of class
    vtkMRMLDynamicModelerNode, whose name the host makes of the output
    model's name followed by _BoundaryCut; it has the tool "Boundary cut",
    continuous update off, and the references output model, seed, and the
    borders in the order of the script.  The parameter node gains a
    reference to the output model and one to the job. *)
Theorem parcel_declaration_wires_a_job (v : visitor) (id : string)
    (b : borders) (lineno : nat) (ids : list nat) (pn : mrmlNode) :
  ~ In id reservedNames ->
  wellFormed (v_scene v) ->
  GetNodeByID (v_scene v) (v_parameterNode v) = Some pn ->
  lookupAll (v_scene v) (borderNames b) = inr ids ->
  getFirstNodeByClassByName (v_scene v) "vtkMRMLModelNode"
    (outputModelName (v_scene v) id ++ "_BoundaryCut") = None ->
  exists v' om seed tool omNode seedNode toolNode pn',
    visit (ast_Assign [ast_Name id] (borderAst b) lineno) v
      = Return PyNone v'
    /\ GetNodeByID (v_scene v') om = Some omNode
    /\ IsA omNode "vtkMRMLModelNode" = true
    /\ nodeName omNode = outputModelName (v_scene v) id
    /\ match getFirstNodeByClassByName (v_scene v) "vtkMRMLModelNode" id with
       | Some n => om = nodeID n /\ nodeName omNode = id
       | None =>
           GetNodeByID (v_scene v) om = None
           /\ nodeName omNode = GenerateUniqueName (v_scene v) id
       end
    /\ GetNodeByID (v_scene v') seed = Some seedNode
    /\ IsA seedNode "vtkMRMLMarkupsFiducialNode" = true
    /\ (exists k, nodeName seedNode = BuildName (id ++ "_SeedPoints") k)
    /\ match getFirstNodeByClassByName (v_scene v)
               "vtkMRMLMarkupsFiducialNode" (id ++ "_SeedPoints") with
       | Some n => seed = nodeID n
       | None => GetNodeByID (v_scene v) seed = None
       end
    /\ GetNodeByID (v_scene v) tool = None
    /\ GetNodeByID (v_scene v') tool = Some toolNode
    /\ className toolNode = "vtkMRMLDynamicModelerNode"
    /\ (exists k,
          nodeName toolNode
          = BuildName (outputModelName (v_scene v) id ++ "_BoundaryCut") k)
    /\ toolName toolNode = BoundaryCutToolName
    /\ continuousUpdate toolNode = false
    /\ references toolNode
       = (BOUNDARY_CUT_OUTPUT_MODEL_REFERENCE, om)
         :: (BOUNDARY_CUT_INPUT_SEED_REFERENCE, seed)
         :: ((fun i => (BOUNDARY_CUT_INPUT_BORDER_REFERENCE, i)) <$> ids)
    /\ GetNodeByID (v_scene v') (v_parameterNode v) = Some pn'
    /\ references pn'
       = (references pn ++ [(OUTPUT_MODEL_REFERENCE, om);
                            (TOOL_NODE_REFERENCE, tool)])%list.
Proof.
  intros Hid Hwf Hp Hids Hjob. rewrite (visit_parcel id _ lineno Hid).
  destruct (declareParcel_wires v id ids (visit (borderAst b))
              (references pn))
    as ([] & v' & Hrun & om & seed & tool & seedName & jobName
        & ((pn' & Hp' & Hrefs) & (omNode & Hom & HomA & HomN)
           & (seedNode & Hseed & HseedA & HseedN) & Htool)
        & Hom0 & Hseed0 & (ks & Hks) & Hle & (kj & Hkj)).
  { rewrite visit_borders, Hids. reflexivity. }
  { split; [exact Hwf|]. split; [lia|].
    split; [exists pn; auto | exact Hjob]. }
  destruct (boundaryCutJob_kind tool jobName om seed ids)
    as (Hcls & Hname & Htn).
  exists v', om, seed, tool, omNode, seedNode,
    (boundaryCutJob tool jobName om seed ids), pn'.
  split; [unfold mbind, py_bind; rewrite Hrun; reflexivity|].
  split; [exact Hom|]. split; [exact HomA|]. split; [exact HomN|].
  split.
  { rewrite HomN. unfold outputModelName.
    destruct (getFirstNodeByClassByName (v_scene v) "vtkMRMLModelNode" id)
      as [n|] eqn:E.
    - split; [exact Hom0|].
      apply (getFirstNodeByClassByName_Some _ _ _ _ E).
    - split; [|reflexivity]. apply GetNodeByID_unused; [exact Hwf | lia]. }
  split; [exact Hseed|]. split; [exact HseedA|].
  split; [exists ks; congruence|].
  split.
  { destruct (getFirstNodeByClassByName (v_scene v)
                "vtkMRMLMarkupsFiducialNode" (id ++ "_SeedPoints"));
      [exact Hseed0 | apply GetNodeByID_unused; assumption]. }
  split; [apply GetNodeByID_unused; assumption|].
  split; [exact Htool|]. split; [exact Hcls|].
  split; [exists kj; congruence|]. split; [exact Htn|].
  split; [reflexivity|].
  split; [apply references_boundaryCutJob|].
  split; [exact Hp' | exact Hrefs].
Qed.

(** ** The labels of an export *)

Lemma setLabels_spec (cellPedigree : list nat) (value : nat)
    (labelArray labelArray' : list nat) :
  setLabels cellPedigree value labelArray = Some labelArray' ->
  length labelArray' = length labelArray
  /\ forall cell,
       labelArray' !! cell
       = if bool_decide (cell ∈ cellPedigree)
         then (fun _ => value) <$> labelArray !! cell
         else labelArray !! cell.
Proof.
  revert labelArray. induction cellPedigree as [|cellId rest IH];
    intros labelArray; cbn [setLabels].
  - intros [= <-]. split; [reflexivity|]. intros cell.
    rewrite bool_decide_eq_false_2 by apply not_elem_of_nil. reflexivity.
  - destruct (Nat.ltb_spec cellId (length labelArray)) as [Hlt|];
      [|discriminate].
    intros H. destruct (IH _ H) as [Hlen Hcells].
    rewrite length_insert in Hlen. split; [exact Hlen|]. intros cell.
    rewrite Hcells. destruct (Nat.eq_dec cell cellId) as [->|Hne].
    + rewrite list_lookup_insert_eq by exact Hlt.
      rewrite (bool_decide_eq_true_2 (cellId ∈ cellId :: rest))
        by apply list_elem_of_here.
      destruct (lookup_lt_is_Some_2 labelArray cellId Hlt) as [x ->].
      destruct (bool_decide _); reflexivity.
    + rewrite list_lookup_insert_ne by congruence.
      destruct (bool_decide (cell ∈ rest)) eqn:E.
      * apply bool_decide_eq_true_1 in E.
        rewrite bool_decide_eq_true_2 by (apply list_elem_of_further, E).
        reflexivity.
      * apply bool_decide_eq_false_1 in E.
        rewrite bool_decide_eq_false_2; [reflexivity|].
        intros Hin. apply elem_of_cons in Hin.
        destruct Hin as [Heq | Hin]; [congruence | contradiction].
Qed.

Lemma labelLoop_spec (outputs : list (option outputSurface))
    (modelIndex : nat) (surfacesToExport : list string)
    (labelArray labels : list nat) :
  labelLoop outputs modelIndex surfacesToExport labelArray = Labelled labels ->
  length labels = length labelArray
  /\ forall cell,
       (cell < length labelArray)%nat ->
       ((forall k, ~ covers outputs surfacesToExport k cell) ->
        labels !! cell = labelArray !! cell)
       /\ (forall k,
             covers outputs surfacesToExport k cell ->
             (forall k', (k < k')%nat ->
                ~ covers outputs surfacesToExport k' cell) ->
             labels !! cell = Some (modelIndex + k + 1)%nat).
Proof.
  revert modelIndex labelArray.
  induction outputs as [|out rest IH]; intros modelIndex labelArray;
    cbn [labelLoop].
  - intros [= <-]. split; [reflexivity|]. intros cell Hcell. split; [auto|].
    intros k (s & ids & Hk & _). discriminate.
  - destruct out as [surface|]; [|discriminate].
    assert (Hshift : forall k cell,
              covers rest surfacesToExport k cell
              <-> covers (Some surface :: rest) surfacesToExport (S k) cell)
      by (intros k cell; reflexivity).
    assert (Hskip :
      (forall cell, ~ covers (Some surface :: rest) surfacesToExport 0 cell) ->
      labelLoop rest (S modelIndex) surfacesToExport labelArray
        = Labelled labels ->
      length labels = length labelArray
      /\ forall cell,
           (cell < length labelArray)%nat ->
           ((forall k, ~ covers (Some surface :: rest) surfacesToExport k cell)
            -> labels !! cell = labelArray !! cell)
           /\ (forall k,
                 covers (Some surface :: rest) surfacesToExport k cell ->
                 (forall k', (k < k')%nat ->
                    ~ covers (Some surface :: rest) surfacesToExport k' cell)
                 -> labels !! cell = Some (modelIndex + k + 1)%nat)).
    { intros Hnone Hrun. destruct (IH _ _ Hrun) as [Hlen Hcells].
      split; [exact Hlen|]. intros cell Hcell.
      destruct (Hcells cell Hcell) as [H0 H1]. split.
      - intros Hno. apply H0. intros k Hk. apply (Hno (S k)), Hshift, Hk.
      - intros [|k] Hk Hlast; [exfalso; exact (Hnone cell Hk)|].
        rewrite (H1 k); [f_equal; lia | apply Hshift, Hk|].
        intros k' Hlt Hk'. apply (Hlast (S k')); [lia | apply Hshift, Hk']. }
    destruct (skipped surfacesToExport surface) eqn:Eskip.
    { apply Hskip. intros cell (s & ids & [= <-] & Hs & _). congruence. }
    destruct (surfaceCellPedigree surface) as [[ids|]|] eqn:Eped.
    2: { apply Hskip. intros cell (s & i & [= <-] & _ & Hp & _). congruence. }
    2: { apply Hskip. intros cell (s & i & [= <-] & _ & Hp & _). congruence. }
    destruct (setLabels ids (modelIndex + 1) labelArray) as [written|] eqn:Eset;
      [|discriminate].
    destruct (setLabels_spec _ _ _ _ Eset) as [Hlen1 Hwritten].
    intros Hrun. destruct (IH _ _ Hrun) as [Hlen Hcells].
    split; [congruence|]. intros cell Hcell.
    destruct (Hcells cell ltac:(lia)) as [H0 H1].
    assert (Hhere : covers (Some surface :: rest) surfacesToExport 0 cell
                    <-> In cell ids).
    { split.
      - intros (s & i & [= <-] & _ & Hp & Hin). congruence.
      - intros Hin. exists surface, ids. auto. }
    split.
    + intros Hno. rewrite H0 by (intros k Hk; apply (Hno (S k)), Hshift, Hk).
      rewrite Hwritten, bool_decide_eq_false_2; [reflexivity|].
      intros Hin. apply (Hno 0%nat), Hhere, list_elem_of_In, Hin.
    + intros [|k] Hk Hlast.
      * rewrite H0
          by (intros k Hk'; apply (Hlast (S k)); [lia | apply Hshift, Hk']).
        rewrite Hwritten, bool_decide_eq_true_2
          by (apply list_elem_of_In, Hhere, Hk).
        destruct (lookup_lt_is_Some_2 labelArray cell Hcell) as [x ->].
        cbn. f_equal. lia.
      * rewrite (H1 k); [f_equal; lia | apply Hshift, Hk|].
        intros k' Hlt Hk'. apply (Hlast (S k')); [lia | apply Hshift, Hk'].
Qed.

(** X15. The labels of an export, when the loop reaches its end: the
    array keeps its size; a cell no exported output model lists has label
    0; a cell has the label k + 1 of the last exported output model that
    lists it, where k is the position among all output model references,
    exported or not. *)
Theorem later_parcels_overwrite_labels (cellCount : nat)
    (labelArray : option (list nat)) (outputs : list (option outputSurface))
    (surfacesToExport : list string) (labels : list nat) :
  surfaceLabels cellCount labelArray outputs surfacesToExport
    = Labelled labels ->
  length labels = length (default (replicate cellCount 0%nat) labelArray)
  /\ forall cell,
       (cell < length labels)%nat ->
       ((forall k, ~ covers outputs surfacesToExport k cell) ->
        labels !! cell = Some 0%nat)
       /\ (forall k,
             covers outputs surfacesToExport k cell ->
             (forall k', (k < k')%nat ->
                ~ covers outputs surfacesToExport k' cell) ->
             labels !! cell = Some (k + 1)%nat).
Proof.
  unfold surfaceLabels. intros Hrun.
  destruct (labelLoop_spec _ _ _ _ _ Hrun) as [Hlen Hcells].
  rewrite length_replicate in Hlen.
  split; [destruct labelArray; exact Hlen|]. intros cell Hcell.
  rewrite length_replicate in Hcells.
  destruct (Hcells cell ltac:(destruct labelArray; cbn in *; lia))
    as [H0 H1].
  split.
  - intros Hno. rewrite (H0 Hno). apply lookup_replicate_2.
    destruct labelArray; cbn in *; lia.
  - intros k Hk Hlast. rewrite (H1 k Hk Hlast). reflexivity.
Qed.

(** ** Worked inputs of the properties above *)

Lemma later_parcels_overwrite_labels_witness :
  surfaceLabels 4 None overlappingOutputs ["P"; "R"] = Labelled [1; 3; 3; 0]
  /\ [1; 3; 3; 0] !! 1 = Some (2 + 1)
  /\ [1; 3; 3; 0] !! 3 = Some 0.
Proof.
  assert (Hrun : surfaceLabels 4 None overlappingOutputs ["P"; "R"]
                 = Labelled [1; 3; 3; 0]) by reflexivity.
  destruct (later_parcels_overwrite_labels 4 None overlappingOutputs
              ["P"; "R"] [1; 3; 3; 0] Hrun) as [_ Hcells].
  split; [exact Hrun|]. split.
  - apply (proj2 (Hcells 1 ltac:(cbn; lia)) 2).
    + exists (OutputSurface "R" (Some (Some [1; 2]))), [1; 2].
      cbn. auto.
    + intros [|[|[|k']]] Hlt (s & ids & Hk & _); try lia; discriminate.
  - apply (proj1 (Hcells 3 ltac:(cbn; lia))).
    intros [|[|[|k]]] (s & ids & Hk & _ & Hp & Hin);
      try discriminate; injection Hk as <-; cbn in Hp;
      try discriminate; injection Hp as <-;
      cbn in Hin; intuition discriminate.
Defined.

Lemma curve_position_update_is_noop_witness :
  updateRelativeSeedPosition 1 (Some 2) ANTERIOR_OF_RELATIVE_ROLE
    (exampleLogic [] [pt 0 1 0] [pt 0 3 0] [])
  = Return tt (exampleLogic [] [pt 0 1 0] [pt 0 3 0] []).
Proof.
  eapply (curve_position_update_is_noop _ 1 2).
  - reflexivity.
  - reflexivity.
  - cbn. discriminate.
  - reflexivity.
  - left. reflexivity.
  - intros seedPoint direction [<- | []] [= <-].
    constructor. vm_compute. reflexivity.
Defined.

Lemma correction_restores_the_constraint_witness :
  exists corrected,
    correctedSeedPoint LATERAL_OF_RELATIVE_ROLE (pt 1 0 0) (pt 3 0 0)
      = Some corrected
    /\ correctedSeedPoint LATERAL_OF_RELATIVE_ROLE corrected (pt 3 0 0)
       = None.
Proof.
  eexists. split.
  - vm_compute. reflexivity.
  - apply (proj1 correction_restores_the_constraint
             LATERAL_OF_RELATIVE_ROLE (pt 1 0 0) (pt 3 0 0)).
    + discriminate.
    + vm_compute. reflexivity.
Defined.

Lemma addRelativeSeed_round_trip_witness :
  exists l1,
    addRelativeSeed 1 3 LATERAL_OF_RELATIVE_ROLE (exampleLogic [] [] [] [])
      = Return tt l1
    /\ getRelativeNodesOfRole 1 LATERAL_OF_RELATIVE_ROLE l1
       = Return [Some 3] l1
    /\ getRelativeSeedNodes 3 l1 = Return [Some 1; Some 1] l1
    /\ getRelativeNodesOfRole 1 MEDIAL_OF_RELATIVE_ROLE l1
       = Return [Some 3] l1.
Proof.
  destruct (addRelativeSeed_round_trip (exampleLogic [] [] [] []) 1 3 _ _
              LATERAL_OF_RELATIVE_ROLE eq_refl eq_refl)
    as (l1 & Hrun & (b1 & Hb1 & Ha1) & (b2 & Hb2 & Ha2) & Hother).
  destruct (Hother MEDIAL_OF_RELATIVE_ROLE) as (b3 & Hb3 & Ha3);
    [discriminate|].
  vm_compute in Hb1. vm_compute in Hb2. vm_compute in Hb3.
  injection Hb1 as <-. injection Hb2 as <-. injection Hb3 as <-.
  exists l1. repeat split; assumption.
Defined.

Lemma snapSeedsToSurface_snaps_every_point_witness :
  exists l1,
    snapSeedsToSurface 1 (exampleLogic [] [pt 1 0 4; pt 0 1 0] [] [])
      = Return tt l1
    /\ controlPoints <$> GetNodeByID (mrmlScene l1) 1
       = Some [pt 1 0 5; pt 0 0 0].
Proof.
  destruct (snapSeedsToSurface_snaps_every_point
              (exampleLogic [] [pt 1 0 4; pt 0 1 0] [] []) 1 _ eq_refl)
    as (_ & H).
  destruct (H _ eq_refl) as (l1 & Hrun & Hnode & _).
  exists l1. split; [exact Hrun|]. rewrite Hnode. reflexivity.
Defined.

Lemma initializePedigreeIds_idempotent_witness :
  exists l1 pd1,
    initializePedigreeIds (Some 0) logicWithOrigModel = Return tt l1
    /\ initializePedigreeIds (Some 0) l1 = Return tt l1
    /\ modelPolyData <$> GetNodeByID (mrmlScene l1) 1 = Some (Some pd1)
    /\ In "pointPedigree" (pdPointArrays pd1)
    /\ In "cellPedigree" (pdCellArrays pd1)
    /\ In "normals" (pdPointArrays pd1).
Proof.
  destruct (initializePedigreeIds_idempotent (Some 0) logicWithOrigModel)
    as (l1 & Hrun & Hagain & Harrays).
  destruct (Harrays _ _ _ eq_refl eq_refl eq_refl)
    as (pd1 & Hpd & _ & Hpoint & Hcell & Hkeep & _).
  exists l1, pd1. repeat split; try assumption.
  apply Hkeep. left. reflexivity.
Defined.

Lemma failing_statement_ends_the_run_witness :
  exists sc,
    parseParcellationString (Some 0) (logicWithQuery abortedScript)
    = Return (ResultList false "")
        (set_errorDisplay [MRMLNodeNotFoundException "missing"]
           (set_mrmlScene sc (logicWithQuery abortedScript)))
    /\ (nodeName <$> nodes sc)
       = ["Parcellation"; "ParcellationQuery"; "A"].
Proof.
  eexists. split.
  - refine (failing_statement_ends_the_run (logicWithQuery abortedScript) 0
              [ast_Assign [ast_Name "_Planes"] (ast_List [ast_Name "A"]) 1]
              [ast_Assign [ast_Name "_Planes"] (ast_List [ast_Name "B"]) 3]
              (ast_Assign [ast_Name "P"] (ast_Name "missing") 2)
              _ (Visitor _ _ _) _ (MRMLNodeNotFoundException "missing")
              _ _ _).
    + reflexivity.
    + vm_compute. reflexivity.
    + vm_compute. reflexivity.
  - vm_compute. reflexivity.
Defined.

Lemma reported_forms_raise_NameError_witness :
  visit (ast_Assign [ast_Name "_Planes"] (ast_Name "A") 1)
    (Visitor planeScene 0 None)
  = Raise (NameError "logging") (Visitor planeScene 0 None).
Proof.
  apply (proj1 reported_forms_raise_NameError).
  apply markersNotAList; [left; reflexivity | discriminate].
Defined.

Lemma curves_need_a_weighting_function_witness :
  exists v',
    visit (ast_Assign [ast_Name "_Curves"] (ast_List [ast_Name "C"]) 1)
      (Visitor planeScene 0 None)
    = Raise (AttributeError "distanceWeightingFunction") v'
    /\ is_Some (getFirstNodeByClassByName (v_scene v')
                  "vtkMRMLMarkupsCurveNode" "C").
Proof.
  destruct (proj1 curves_need_a_weighting_function
              (Visitor planeScene 0 None) "_Curves" "vtkMRMLMarkupsCurveNode"
              "C" [] 1 (or_introl (conj eq_refl eq_refl)) eq_refl)
    as (v' & Hrun & _ & Hnode & _).
  exists v'. split; [exact Hrun|]. apply Hnode. right. vm_compute.
  reflexivity.
Defined.

Lemma interpreting_keeps_the_nodes_of_the_scene_witness :
  exists n',
    GetNodeByID (v_scene (finalState (interpret scriptS1 0 planeScene))) 1
      = Some n'
    /\ className n' = "vtkMRMLMarkupsPlaneNode" /\ nodeName n' = "A"
    /\ controlPoints n' = [] /\ modelPolyData n' = None
    /\ text n' = Parsed [].
Proof.
  exact (proj1 interpreting_keeps_the_nodes_of_the_scene scriptS1 0
           planeScene 1 (newNode 1 "vtkMRMLMarkupsPlaneNode" "A") eq_refl).
Defined.

Lemma every_parcel_declaration_adds_a_job_witness :
  countClass DynamicModelerNode
    (v_scene (finalState
                (visit (ast_Assign [ast_Name "P"] (borderAst (Border "A")) 2)
                   (Visitor planeScene 0 None))))
  = S (countClass DynamicModelerNode planeScene).
Proof.
  apply (proj1 every_parcel_declaration_adds_a_job
           (Visitor planeScene 0 None) _ "P" (Border "A") 2).
  - cbn. intros [H | [H | [H | [H | []]]]]; discriminate.
  - vm_compute. reflexivity.
Defined.

Lemma parcel_declaration_wires_a_job_witness :
  exists v' om seed tool omNode seedNode toolNode pn',
    visit (ast_Assign [ast_Name "A"] (borderAst (Border "A")) 2)
      (Visitor planeScene 0 None) = Return PyNone v'
    /\ GetNodeByID planeScene om = None
    /\ GetNodeByID (v_scene v') om = Some omNode
    /\ IsA omNode "vtkMRMLModelNode" = true
    /\ nodeName omNode = "A_1"
    /\ GetNodeByID planeScene seed = None
    /\ GetNodeByID (v_scene v') seed = Some seedNode
    /\ IsA seedNode "vtkMRMLMarkupsFiducialNode" = true
    /\ GetNodeByID planeScene tool = None
    /\ GetNodeByID (v_scene v') tool = Some toolNode
    /\ className toolNode = "vtkMRMLDynamicModelerNode"
    /\ (exists k, nodeName toolNode = BuildName "A_1_BoundaryCut" k)
    /\ references toolNode
       = [(BOUNDARY_CUT_OUTPUT_MODEL_REFERENCE, om);
          (BOUNDARY_CUT_INPUT_SEED_REFERENCE, seed);
          (BOUNDARY_CUT_INPUT_BORDER_REFERENCE, 1%nat)]
    /\ GetNodeByID (v_scene v') 0 = Some pn'
    /\ references pn'
       = [(OUTPUT_MODEL_REFERENCE, om); (TOOL_NODE_REFERENCE, tool)].
Proof.
  destruct (parcel_declaration_wires_a_job (Visitor planeScene 0 None) "A"
              (Border "A") 2 [1%nat]
              (newNode 0 "vtkMRMLScriptedModuleNode" "Parcellation"))
    as (v' & om & seed & tool & omNode & seedNode & toolNode & pn' & Hrun
        & Hom & HomA & HomN & Hom0 & Hseed & HseedA & _ & Hseed0 & Htool0
        & Htool & Hcls & Hname & _ & _ & Hrefs & Hpn & Hprefs).
  - cbn. intros [H | [H | [H | [H | []]]]]; discriminate.
  - split; [apply (bool_decide_unpack _); vm_compute; exact I|].
    repeat constructor.
  - reflexivity.
  - reflexivity.
  - reflexivity.
  - exists v', om, seed, tool, omNode, seedNode, toolNode, pn'.
    split; [exact Hrun|]. split; [exact (proj1 Hom0)|].
    split; [exact Hom|]. split; [exact HomA|]. split; [exact HomN|].
    split; [exact Hseed0|]. split; [exact Hseed|]. split; [exact HseedA|].
    split; [exact Htool0|]. split; [exact Htool|]. split; [exact Hcls|].
    split; [exact Hname|]. split; [exact Hrefs|].
    split; [exact Hpn | exact Hprefs].
Defined.

Lemma loadQuery_stores_the_file_and_clears_bindings_witness :
  exists l' pn',
    loadQuery (set_queryFile (Unparsable 3)
                 (exampleLogic [] [] [] []))
      = Return (ResultList false "") l'
    /\ getQueryString l' (Some 0) = Some (Unparsable 3)
    /\ errorDisplay l' = [SyntaxError 3]
    /\ GetNodeByID (mrmlScene l') 0 = Some pn'
    /\ referenceIDs pn' OUTPUT_MODEL_REFERENCE = []
    /\ referenceIDs pn' TOOL_NODE_REFERENCE = [5].
Proof.
  destruct (loadQuery_stores_the_file_and_clears_bindings
              (set_queryFile (Unparsable 3) (exampleLogic [] [] [] [])) 0 _
              eq_refl eq_refl)
    as (success & l' & Hrun & Hquery & Hfail).
  - split; [apply (bool_decide_unpack _); vm_compute; exact I|].
    repeat constructor.
  - destruct (Hfail 3 eq_refl) as (-> & Herr & pn' & Hp & _ & Hout & Htool).
    exists l', pn'. repeat split; assumption.
Defined.
